(** * email-verifier: the response parser, the MX resolver, the SMTP session,
      the verifier and the output mapper, embedded from the JavaScript sources

    Conventions of the embedding.
    - A JavaScript string is a [string]: a sequence of code units, of which
      the model keeps those below 256.
    - [null] and [undefined] are [None].
    - An [async] function is a state transformer over a [Machine] that holds
      the scripted environment (what the resolvers, the peer and the socket
      will answer), the objects the verifier allocates, and a chronological
      trace of the observable I/O.  A promise either resolves ([Ret]),
      rejects ([Throw]) or never settles ([Pending]). *)

From Stdlib Require Import String Ascii List ZArith Lia Bool DecimalString.
From Stdlib Require Import Permutation Sorted.
From Stdlib Require HexadecimalString.
Import ListNotations.

Local Open Scope string_scope.
Local Open Scope Z_scope.

(* ===================================================================== *)
(** ** Strings as JavaScript uses them *)
(* ===================================================================== *)

Module Js.

Definition LF : ascii := "010"%char.
Definition CR : ascii := "013"%char.
Definition SP : ascii := " "%char.

Definition CRLF : string := String CR (String LF "").
(** The double-quote character, as a one-character string. *)
Definition DQ : string := String "034"%char "".

(** Truthiness of a string: the empty string is falsy. *)
Definition truthy (s : string) : bool :=
  match s with EmptyString => false | String _ _ => true end.

(** [\d] *)
Definition isDigit (c : ascii) : bool :=
  let n := nat_of_ascii c in (48 <=? n)%nat && (n <=? 57)%nat.

Definition digitVal (c : ascii) : Z := Z.of_nat (nat_of_ascii c) - 48.

(** [\s], and the white space [trim] removes: TAB, LF, VT, FF, CR, SP and
    NBSP among the code units below 256. *)
Definition isSpace (c : ascii) : bool :=
  let n := nat_of_ascii c in
  ((9 <=? n)%nat && (n <=? 13)%nat) || (n =? 32)%nat || (n =? 160)%nat.

(** [s.substring(n)] *)
Fixpoint substringFrom (n : nat) (s : string) : string :=
  match n, s with
  | O, _ => s
  | S _, EmptyString => EmptyString
  | S n', String _ s' => substringFrom n' s'
  end.

(** [s.startsWith(p)], also the anchored match of a literal. *)
Fixpoint startsWith (p s : string) : bool :=
  match p, s with
  | EmptyString, _ => true
  | String _ _, EmptyString => false
  | String a p', String b s' => Ascii.eqb a b && startsWith p' s'
  end.

(** [s.includes(needle)] *)
Fixpoint includes (needle s : string) : bool :=
  startsWith needle s ||
  match s with
  | EmptyString => false
  | String _ s' => includes needle s'
  end.

(** [parts.join(sep)] *)
Fixpoint join (sep : string) (parts : list string) : string :=
  match parts with
  | [] => ""
  | [p] => p
  | p :: ps => p ++ sep ++ join sep ps
  end.

(** Puts a character in front of the first piece of a split. *)
Definition consHead (c : ascii) (pieces : list string) : list string :=
  match pieces with
  | l :: ls => String c l :: ls
  | [] => [String c ""]
  end.

(** [s.split(sep)] for a one-character separator. *)
Fixpoint splitChar (sep : ascii) (s : string) : list string :=
  match s with
  | EmptyString => [""]
  | String c s' =>
      if Ascii.eqb c sep then "" :: splitChar sep s'
      else consHead c (splitChar sep s')
  end.

(** [s.split(/\r?\n/)]: a separator is LF, or CR immediately followed by
    LF; a CR not followed by LF stays in its line. *)
Fixpoint splitLines (s : string) : list string :=
  match s with
  | EmptyString => [""]
  | String c s' =>
      if Ascii.eqb c LF then "" :: splitLines s'
      else
        match s' with
        | String c' s'' =>
            if Ascii.eqb c CR && Ascii.eqb c' LF then "" :: splitLines s''
            else consHead c (splitLines s')
        | EmptyString => consHead c (splitLines s')
        end
  end.

Fixpoint trimStart (s : string) : string :=
  match s with
  | EmptyString => EmptyString
  | String c s' => if isSpace c then trimStart s' else s
  end.

(** Removes trailing white space: a character is kept when something
    that is not white space follows it or it is not white space itself. *)
Fixpoint trimEnd (s : string) : string :=
  match s with
  | EmptyString => EmptyString
  | String c s' =>
      match trimEnd s' with
      | EmptyString => if isSpace c then EmptyString else String c EmptyString
      | t => String c t
      end
  end.

(** [s.trim()] *)
Definition trim (s : string) : string := trimEnd (trimStart s).

(** [s.replace(needle, "")] with a string pattern: the first occurrence
    only. *)
Fixpoint removeFirst (needle s : string) : string :=
  if startsWith needle s then substringFrom (String.length needle) s
  else match s with
       | EmptyString => EmptyString
       | String c s' => String c (removeFirst needle s')
       end.

(** [s.replace(/\s+/g, " ")]: every maximal run of white space becomes
    one space; [inRun] tells that the previous character was white space. *)
Fixpoint collapseFrom (inRun : bool) (s : string) : string :=
  match s with
  | EmptyString => EmptyString
  | String c s' =>
      if isSpace c then
        if inRun then collapseFrom true s'
        else String SP (collapseFrom true s')
      else String c (collapseFrom false s')
  end.

Definition collapseSpaces (s : string) : string := collapseFrom false s.

(** [arr[arr.length - 1]] *)
Fixpoint lastOf {A : Type} (l : list A) : option A :=
  match l with
  | [] => None
  | [x] => Some x
  | _ :: l' => lastOf l'
  end.

(** [parseInt(s, 10)] on a string that starts with its digits: the value
    of the longest prefix of decimal digits, [None] (NaN) when that prefix
    is empty.  Leading white space and a sign are not modelled: the callers
    pass a capture of digits or a number. *)
Fixpoint parseDigits (acc : Z) (s : string) : Z :=
  match s with
  | EmptyString => acc
  | String c s' =>
      if isDigit c then parseDigits (10 * acc + digitVal c) s' else acc
  end.

Definition parseInt10 (s : string) : option Z :=
  match s with
  | EmptyString => None
  | String c _ => if isDigit c then Some (parseDigits 0 s) else None
  end.

End Js.

(* ===================================================================== *)
(** ** src/core/parser.js *)
(* ===================================================================== *)

Module Parser.
Import Js.

Inductive CLASSIFICATION : Type :=
| SUCCESS
| INTERMEDIATE
| TRANSIENT_FAIL
| PERMANENT_FAIL
| PROTOCOL_ERROR.

Definition CLASSIFICATION_eqb (a b : CLASSIFICATION) : bool :=
  match a, b with
  | SUCCESS, SUCCESS | INTERMEDIATE, INTERMEDIATE
  | TRANSIENT_FAIL, TRANSIENT_FAIL | PERMANENT_FAIL, PERMANENT_FAIL
  | PROTOCOL_ERROR, PROTOCOL_ERROR => true
  | _, _ => false
  end.

Record SmtpResponse : Type := mkSmtpResponse {
  code : Z;
  enhancedCode : option string;
  message : string;
  lines : list string;
  classification : CLASSIFICATION
}.

Definition classifyCode (code : Z) : CLASSIFICATION :=
  if (200 <=? code) && (code <? 300) then SUCCESS
  else if (300 <=? code) && (code <? 400) then INTERMEDIATE
  else if (400 <=? code) && (code <? 500) then TRANSIENT_FAIL
  else if (500 <=? code) && (code <? 600) then PERMANENT_FAIL
  else PROTOCOL_ERROR.

(** [\d{1,3}] followed by more of the pattern: the digits are taken
    greedily, and since what follows in the pattern never starts with a
    digit, giving one back cannot help.  Returns the digits and the rest of
    the input, [None] when there is no digit or a fourth one follows. *)
Definition takeDigits13 (s : string) : option (string * string) :=
  match s with
  | String a r1 =>
      if isDigit a then
        match r1 with
        | String b r2 =>
            if isDigit b then
              match r2 with
              | String c r3 =>
                  if isDigit c then
                    match r3 with
                    | String d _ =>
                        if isDigit d then None
                        else Some (String a (String b (String c "")), r3)
                    | EmptyString =>
                        Some (String a (String b (String c "")), r3)
                    end
                  else Some (String a (String b ""), r2)
              | EmptyString => Some (String a (String b ""), r2)
              end
            else Some (String a "", r1)
        | EmptyString => Some (String a "", r1)
        end
      else None
  | EmptyString => None
  end.

(** Expects the literal character [c] at the head of [s]. *)
Definition expectChar (c : ascii) (s : string) : option string :=
  match s with
  | String c' r => if Ascii.eqb c' c then Some r else None
  | EmptyString => None
  end.

(** [line.match(/^\d{3}[ -](\d{1,3}\.\d{1,3}\.\d{1,3})\s/)], giving the
    first capture. *)
Definition extractEnhancedCode (line : string) : option string :=
  match line with
  | String d1 (String d2 (String d3 (String sep rest))) =>
      if isDigit d1 && isDigit d2 && isDigit d3
         && (Ascii.eqb sep SP || Ascii.eqb sep "-"%char)
      then
        match takeDigits13 rest with
        | Some (x, r1) =>
            match expectChar "."%char r1 with
            | Some r2 =>
                match takeDigits13 r2 with
                | Some (y, r3) =>
                    match expectChar "."%char r3 with
                    | Some r4 =>
                        match takeDigits13 r4 with
                        | Some (z, String w _) =>
                            if isSpace w then Some (x ++ "." ++ y ++ "." ++ z)
                            else None
                        | _ => None
                        end
                    | None => None
                    end
                | None => None
                end
            | None => None
            end
        | None => None
        end
      else None
  | _ => None
  end.

(** [lastLine.match(...)] with the pattern: start of input, a capture of
    three digits, then either a space and any run of characters, or the end
    of the input.  Gives the first capture.  What follows the space is
    unconstrained, as the run may be empty. *)
Definition lastLineMatch (lastLine : string) : option string :=
  match lastLine with
  | String d1 (String d2 (String d3 rest)) =>
      if isDigit d1 && isDigit d2 && isDigit d3 then
        match rest with
        | EmptyString => Some (String d1 (String d2 (String d3 "")))
        | String c _ =>
            if Ascii.eqb c SP then Some (String d1 (String d2 (String d3 "")))
            else None
        end
      else None
  | _ => None
  end.

(** [/^\d{3}-/.test(lastLine)] *)
Definition isIntermediate (lastLine : string) : bool :=
  match lastLine with
  | String d1 (String d2 (String d3 (String c _))) =>
      isDigit d1 && isDigit d2 && isDigit d3 && Ascii.eqb c "-"%char
  | _ => false
  end.

(** The [for ... of] loop over the lines: the first line with an enhanced
    code decides. *)
Fixpoint firstEnhancedCode (ls : list string) : option string :=
  match ls with
  | [] => None
  | line :: ls' =>
      match extractEnhancedCode line with
      | Some ec => Some ec
      | None => firstEnhancedCode ls'
      end
  end.

(** [rawBuffer.split(/\r?\n/).filter((line) => line.length > 0)] *)
Definition nonEmptyLines (rawBuffer : string) : list string :=
  filter truthy (splitLines rawBuffer).

(** [parseSmtpResponse(rawBuffer)]; [None] is the [null] of an incomplete
    response.  The capture handed to [parseInt] is three digits, so the
    NaN branch is dead (lemma [parseInt10_lastLineMatch]). *)
Definition parseSmtpResponse (rawBuffer : string) : option SmtpResponse :=
  if negb (truthy rawBuffer) then None
  else
    let lines := nonEmptyLines rawBuffer in
    match lastOf lines with
    | None => None
    | Some lastLine =>
        match lastLineMatch lastLine with
        | None => None
        | Some capture =>
            if isIntermediate lastLine then None
            else
              match parseInt10 capture with
              | None => None
              | Some code =>
                  let rawMessage :=
                    trim (join " " (map (substringFrom 4) lines)) in
                  let enhancedCode := firstEnhancedCode lines in
                  let cleanMessage :=
                    match enhancedCode with
                    | Some ec => collapseSpaces (trim (removeFirst ec rawMessage))
                    | None => rawMessage
                    end in
                  Some {| code := code;
                          enhancedCode := enhancedCode;
                          message := cleanMessage;
                          lines := lines;
                          classification := classifyCode code |}
              end
        end
    end.

(** What a call of [parseSmtpResponse] can come to once the operations
    that may fail are written out: [null], a response, a response whose
    [code] is NaN, or a TypeError. *)
Inductive ParseOutcome : Type :=
| Null
| Response (r : SmtpResponse)
| ResponseNaN
| TypeError (msg : string).

(** [parseSmtpResponse(rawBuffer)] again, statement by statement, with
    what JavaScript does where the other embedding relies on the guards:
    [lines[lines.length - 1]] is [undefined] on an empty array and calling
    [match] on it throws, [lastLineMatch[1]] throws when the match is
    [null], and [parseInt] may give NaN. *)
Definition parseSmtpResponse_js (rawBuffer : string) : ParseOutcome :=
  if negb (truthy rawBuffer) then Null
  else
    let lines := nonEmptyLines rawBuffer in
    if (length lines =? 0)%nat then Null
    else
      match lastOf lines with
      | None =>
          TypeError "Cannot read properties of undefined (reading 'match')"
      | Some lastLine =>
          let lastLineMatch := lastLineMatch lastLine in
          let isIntermediate := isIntermediate lastLine in
          if match lastLineMatch with None => true | Some _ => false end
             || isIntermediate
          then Null
          else
            match lastLineMatch with
            | None => TypeError "Cannot read properties of null (reading '1')"
            | Some capture =>
                match parseInt10 capture with
                | None => ResponseNaN
                | Some code =>
                    let rawMessage :=
                      trim (join " " (map (substringFrom 4) lines)) in
                    let enhancedCode := firstEnhancedCode lines in
                    let cleanMessage :=
                      match enhancedCode with
                      | Some ec =>
                          collapseSpaces (trim (removeFirst ec rawMessage))
                      | None => rawMessage
                      end in
                    Response {| code := code;
                                enhancedCode := enhancedCode;
                                message := cleanMessage;
                                lines := lines;
                                classification := classifyCode code |}
                end
            end
      end.

End Parser.

(* ===================================================================== *)
(** ** src/core/status.js and the verdict *)
(* ===================================================================== *)

Module Status.

Inductive STATUS : Type :=
| VALID
| INVALID
| CATCH_ALL
| UNKNOWN
| RISKY.

Definition STATUS_eqb (a b : STATUS) : bool :=
  match a, b with
  | VALID, VALID | INVALID, INVALID | CATCH_ALL, CATCH_ALL
  | UNKNOWN, UNKNOWN | RISKY, RISKY => true
  | _, _ => false
  end.

(** [results.details] *)
Record Details : Type := mkDetails {
  smtpCode : option Z;
  smtpMessage : option string;
  catchAllActive : bool;
  greylisted : bool
}.

(** The [results] object of [verifyEmail]. *)
Record Verdict : Type := mkVerdict {
  email : string;
  domain : option string;
  mx : option string;
  status : STATUS;
  reason : option string;
  details : Details
}.

Definition set_status (s : STATUS) (r : Verdict) : Verdict :=
  mkVerdict (email r) (domain r) (mx r) s (reason r) (details r).
Definition set_reason (x : string) (r : Verdict) : Verdict :=
  mkVerdict (email r) (domain r) (mx r) (status r) (Some x) (details r).
Definition set_domain (d : string) (r : Verdict) : Verdict :=
  mkVerdict (email r) (Some d) (mx r) (status r) (reason r) (details r).
Definition set_mx (x : string) (r : Verdict) : Verdict :=
  mkVerdict (email r) (domain r) (Some x) (status r) (reason r) (details r).
Definition set_details (d : Details) (r : Verdict) : Verdict :=
  mkVerdict (email r) (domain r) (mx r) (status r) (reason r) d.

Definition set_catchAllActive (b : bool) (r : Verdict) : Verdict :=
  let d := details r in
  set_details (mkDetails (smtpCode d) (smtpMessage d) b (greylisted d)) r.
Definition set_greylisted (b : bool) (r : Verdict) : Verdict :=
  let d := details r in
  set_details (mkDetails (smtpCode d) (smtpMessage d) (catchAllActive d) b) r.
Definition set_smtpCode (c : Z) (r : Verdict) : Verdict :=
  let d := details r in
  set_details
    (mkDetails (Some c) (smtpMessage d) (catchAllActive d) (greylisted d)) r.
Definition set_smtpMessage (x : string) (r : Verdict) : Verdict :=
  let d := details r in
  set_details
    (mkDetails (smtpCode d) (Some x) (catchAllActive d) (greylisted d)) r.

End Status.

(* ===================================================================== *)
(** ** Promises over a scripted machine *)
(* ===================================================================== *)

Module Async.
Import Js Parser Status.

(** [ERROR_TYPES] of src/core/dns.js *)
Inductive ERROR_TYPES : Type :=
| HARD_FAIL
| SOFT_FAIL
| TIMEOUT
| NO_MX_RECORDS
| INVALID_DOMAIN.

(** An error object: [message], and the ad-hoc fields [code], [type] and
    [attempts] the resolver attaches. *)
Record JsError : Type := mkJsError {
  e_message : string;
  e_code : option string;
  e_type : option ERROR_TYPES;
  e_attempts : option Z
}.

(** [new Error(msg)] *)
Definition newError (msg : string) : JsError := mkJsError msg None None None.

(** One record of [result.answers]; [a_data] is [answer.data]. *)
Record AnswerData : Type := mkAnswerData {
  d_exchange : option string;
  d_priority : option Z
}.

Record Answer : Type := mkAnswer {
  a_type : Z;
  a_exchange : option string;
  a_priority : option Z;
  a_data : option AnswerData
}.

(** What one [Promise.race] of a resolver query against its timer settles
    with: a result whose [answers] may be missing, or a rejection (of the
    resolver, or of the constructor in [createResolver]). *)
Inductive QueryOutcome : Type :=
| QResult (answers : option (list Answer))
| QReject (e : JsError).

(** What [connectToSmtp] resolves with. *)
Inductive ConnectResult : Type :=
| Connected (banner : string)
| ConnectFailed (error : JsError).

(** What the socket emits next. *)
Inductive SocketEvent : Type :=
| OnData (chunk : string)
| OnError (err : JsError).

(** [STATE] of src/core/smtp-client.js *)
Inductive STATE : Type :=
| DISCONNECTED
| CONNECTED
| HELLO_SENT
| MAIL_FROM_SENT
| RCPT_TO_SENT
| QUIT_SENT.

Definition STATE_eqb (a b : STATE) : bool :=
  match a, b with
  | DISCONNECTED, DISCONNECTED | CONNECTED, CONNECTED
  | HELLO_SENT, HELLO_SENT | MAIL_FROM_SENT, MAIL_FROM_SENT
  | RCPT_TO_SENT, RCPT_TO_SENT | QUIT_SENT, QUIT_SENT => true
  | _, _ => false
  end.

(** The fields of an [SmtpClient]; [c_socket] tells whether [this.socket]
    is set. *)
Record SmtpClient : Type := mkSmtpClient {
  c_host : string;
  c_port : Z;
  c_socket : bool;
  c_state : STATE;
  c_banner : option string;
  c_features : list string
}.

(** Observable steps, oldest first.  [EvRcptReply] is instrumentation:
    [sendRcptTo] obtained this response for this recipient. *)
Inductive Event : Type :=
| EvDnsQuery (nameServers : list string) (domain : string)
| EvBackoff (ms : Z)
| EvConnect (host : string) (port : Z)
| EvWrite (command : string)
| EvRcptReply (recipient : string) (response : SmtpResponse)
| EvClose.

Record Machine : Type := mkMachine {
  (** what successive MX queries settle with; when the script runs out
      the 5 s timer wins the race *)
  dnsScript : list QueryOutcome;
  (** what [connectToSmtp] resolves with; the sockets it opens and does
      not hand over (a connection attempt that timed out, a proxy handshake
      that lost the race) are not represented *)
  connectScript : ConnectResult;
  (** what successive reads receive from the socket, in order: the event
      that reaches the listeners of each [_readResponse]; a chunk the
      socket emits while no listener is attached is lost and is not part
      of the script *)
  socketScript : list SocketEvent;
  (** the error handed to the callback of successive [socket.write]s;
      [None], and a script that ran out, is a successful write *)
  writeScript : list (option JsError);
  (** [crypto.randomBytes(6).toString("hex")] *)
  randomHex : string;
  (** [socket.destroyed] *)
  destroyed : bool;
  (** the [client] object of [verifyEmail] *)
  client : SmtpClient;
  (** the [results] object of [verifyEmail] *)
  results : Verdict;
  trace : list Event
}.

Definition set_dnsScript (x : list QueryOutcome) (m : Machine) : Machine :=
  mkMachine x (connectScript m) (socketScript m) (writeScript m) (randomHex m)
    (destroyed m) (client m) (results m) (trace m).
Definition set_socketScript (x : list SocketEvent) (m : Machine) : Machine :=
  mkMachine (dnsScript m) (connectScript m) x (writeScript m) (randomHex m)
    (destroyed m) (client m) (results m) (trace m).
Definition set_writeScript (x : list (option JsError)) (m : Machine) : Machine :=
  mkMachine (dnsScript m) (connectScript m) (socketScript m) x (randomHex m)
    (destroyed m) (client m) (results m) (trace m).
Definition set_destroyed (x : bool) (m : Machine) : Machine :=
  mkMachine (dnsScript m) (connectScript m) (socketScript m) (writeScript m)
    (randomHex m) x (client m) (results m) (trace m).
Definition set_client (x : SmtpClient) (m : Machine) : Machine :=
  mkMachine (dnsScript m) (connectScript m) (socketScript m) (writeScript m)
    (randomHex m) (destroyed m) x (results m) (trace m).
Definition set_results (x : Verdict) (m : Machine) : Machine :=
  mkMachine (dnsScript m) (connectScript m) (socketScript m) (writeScript m)
    (randomHex m) (destroyed m) (client m) x (trace m).
Definition set_trace (x : list Event) (m : Machine) : Machine :=
  mkMachine (dnsScript m) (connectScript m) (socketScript m) (writeScript m)
    (randomHex m) (destroyed m) (client m) (results m) x.

(** How an awaited promise settles. *)
Inductive Outcome (A : Type) : Type :=
| Ret (a : A)
| Throw (e : JsError)
| Pending.
Arguments Ret {A} a.
Arguments Throw {A} e.
Arguments Pending {A}.

Definition M (A : Type) : Type := Machine -> Outcome A * Machine.

Definition ret {A : Type} (a : A) : M A := fun m => (Ret a, m).
Definition throw {A : Type} (e : JsError) : M A := fun m => (Throw e, m).

Definition bind {A B : Type} (c : M A) (k : A -> M B) : M B :=
  fun m =>
    match c m with
    | (Ret a, m') => k a m'
    | (Throw e, m') => (Throw e, m')
    | (Pending, m') => (Pending, m')
    end.

(** [try { body } catch (e) { handler }] *)
Definition tryCatch {A : Type} (body : M A) (handler : JsError -> M A) : M A :=
  fun m =>
    match body m with
    | (Ret a, m') => (Ret a, m')
    | (Throw e, m') => handler e m'
    | (Pending, m') => (Pending, m')
    end.

(** [try { body } finally { final }]: [final] runs once [body] has
    settled, and its own failure replaces the outcome of [body]. *)
Definition tryFinally {A : Type} (body : M A) (final : M unit) : M A :=
  fun m =>
    match body m with
    | (Pending, m') => (Pending, m')
    | (o, m') =>
        match final m' with
        | (Ret _, m'') => (o, m'')
        | (Throw e, m'') => (Throw e, m'')
        | (Pending, m'') => (Pending, m'')
        end
    end.

Definition get {A : Type} (f : Machine -> A) : M A := fun m => (Ret (f m), m).
Definition modify (f : Machine -> Machine) : M unit := fun m => (Ret tt, f m).

(** Appends an event to the trace. *)
Definition emit (e : Event) : M unit :=
  modify (fun m => set_trace (trace m ++ [e]) m).

Definition updResults (f : Verdict -> Verdict) : M unit :=
  modify (fun m => set_results (f (results m)) m).
Definition updClient (f : SmtpClient -> SmtpClient) : M unit :=
  modify (fun m => set_client (f (client m)) m).

End Async.

Declare Scope async_scope.
Delimit Scope async_scope with async.
Notation "x <- c ;; k" := (Async.bind c (fun x => k))
  (at level 61, c at next level, right associativity) : async_scope.
Notation "c ;; k" := (Async.bind c (fun _ => k))
  (at level 61, right associativity) : async_scope.

(* ===================================================================== *)
(** ** src/core/dns.js *)
(* ===================================================================== *)

Module Dns.
Import Js Async.
Local Open Scope async_scope.

(** [DNS_CONFIG] *)
Definition PRIMARY_SERVERS : list string := ["8.8.8.8"; "8.8.4.4"].
Definition FALLBACK_SERVERS : list string := ["1.1.1.1"; "1.0.0.1"].
Definition SECONDARY_SERVERS : list string := ["9.9.9.9"; "149.112.112.112"].
Definition QUERY_TIMEOUT : Z := 5000.
Definition MAX_RETRIES : Z := 2.
Definition RETRY_DELAY_BASE : Z := 500.

Definition ERROR_TYPES_eqb (a b : ERROR_TYPES) : bool :=
  match a, b with
  | HARD_FAIL, HARD_FAIL | SOFT_FAIL, SOFT_FAIL | TIMEOUT, TIMEOUT
  | NO_MX_RECORDS, NO_MX_RECORDS | INVALID_DOMAIN, INVALID_DOMAIN => true
  | _, _ => false
  end.

(** [x || fallback] on an optional string: missing and empty are falsy. *)
Definition orElse (x : option string) (fallback : string) : string :=
  match x with
  | Some s => if truthy s then s else fallback
  | None => fallback
  end.

(** [err.code === c] after [const code = err.code || ""] *)
Definition codeIs (code c : string) : bool := String.eqb code c.

Definition classifyError (err : JsError) : ERROR_TYPES :=
  let message := e_message err in
  let code := orElse (e_code err) "" in
  if codeIs code "ETIMEDOUT" || includes "timeout" message
     || includes "timed out" message then TIMEOUT
  else if codeIs code "ENOTFOUND" || includes "NXDOMAIN" message
          || includes "non-existent" message then HARD_FAIL
  else if codeIs code "ECONNREFUSED" || includes "refused" message
       then SOFT_FAIL
  else if codeIs code "SERVFAIL" || includes "server failure" message
          || includes "500" message then SOFT_FAIL
  else if codeIs code "EINVAL" || includes "invalid" message
       then INVALID_DOMAIN
  else SOFT_FAIL.

(** An MX record as [resolveMX] builds it; [priority] is [None] when the
    property is missing. *)
Record MXRecord : Type := mkMX {
  exchange : string;
  priority : option Z
}.

(** [parseInt(x.priority, 10) || 65535].  [parseInt] turns its argument
    into a string first: for an integer below 2^53 in magnitude that string
    is its decimal notation and [parseInt] gives the number back; of
    [undefined] it is NaN; NaN and 0 are both falsy, so both give 65535.
    For larger numbers the string has an exponent and [parseInt] reads its
    leading digits only: the embedding is that of the source for
    priorities below 2^53 in magnitude, the 16-bit priorities of DNS
    among them, and says nothing beyond. *)
Definition priorityOr65535 (x : MXRecord) : Z :=
  match priority x with
  | None => 65535
  | Some n => if n =? 0 then 65535 else n
  end.

(** The comparator handed to [sort]. *)
Definition comparePriority (a b : MXRecord) : Z :=
  priorityOr65535 a - priorityOr65535 b.

(** [Array.prototype.sort(compare)]: the stable sort.  [insertSorted x l]
    puts [x], which came before every element of [l] in the source, in
    front of the first element it does not compare greater than. *)
Fixpoint insertSorted {A : Type} (compare : A -> A -> Z) (x : A) (l : list A)
  : list A :=
  match l with
  | [] => [x]
  | y :: l' =>
      if compare x y <=? 0 then x :: y :: l'
      else y :: insertSorted compare x l'
  end.

Fixpoint sort {A : Type} (compare : A -> A -> Z) (l : list A) : list A :=
  match l with
  | [] => []
  | x :: l' => insertSorted compare x (sort compare l')
  end.

Definition sortMXByPriority (mxRecords : list MXRecord) : list MXRecord :=
  match mxRecords with
  | [] => []
  | _ => sort comparePriority mxRecords
  end.

(** [[a-z0-9]] under the [i] flag *)
Definition isAlnum (c : ascii) : bool :=
  let n := nat_of_ascii c in
  isDigit c || ((97 <=? n)%nat && (n <=? 122)%nat)
  || ((65 <=? n)%nat && (n <=? 90)%nat).

(** [[a-z0-9-]] under the [i] flag *)
Definition isLabelChar (c : ascii) : bool := isAlnum c || Ascii.eqb c "-"%char.

(** All characters of [s] but the last satisfy [inner], the last one
    satisfies [final]. *)
Fixpoint innerThenFinal (inner final : ascii -> bool) (s : string) : bool :=
  match s with
  | EmptyString => false
  | String c EmptyString => final c
  | String c s' => inner c && innerThenFinal inner final s'
  end.

(** One label: an alphanumeric, then optionally up to 61 label characters
    and one more alphanumeric. *)
Definition validLabel (l : string) : bool :=
  match l with
  | EmptyString => false
  | String c EmptyString => isAlnum c
  | String c rest =>
      isAlnum c && (String.length rest <=? 62)%nat
      && innerThenFinal isLabelChar isAlnum rest
  end.

(** The last part: two or more alphanumerics. *)
Definition validTld (t : string) : bool :=
  (2 <=? String.length t)%nat && forallb isAlnum (list_ascii_of_string t).

(** [domainRegex.test(domain)]: one or more labels, each followed by a dot,
    then the last part, anchored at both ends.  Neither a label nor the
    last part holds a dot, so the dots of the input are exactly the
    separators. *)
Definition domainRegexTest (domain : string) : bool :=
  match rev (splitChar "."%char domain) with
  | tld :: (_ :: _) as labels => validTld tld && forallb validLabel labels
  | _ => false
  end.

Definition isValidDomain (domain : string) : bool :=
  (0 <? String.length domain)%nat && (String.length domain <=? 253)%nat
  && domainRegexTest domain.

(** [answer.exchange || answer.data?.exchange || ""] *)
Definition answerExchange (a : Answer) : string :=
  orElse (a_exchange a)
    (orElse (match a_data a with Some d => d_exchange d | None => None end) "").

(** [answer.priority ?? answer.data?.priority ?? 65535] *)
Definition answerPriority (a : Answer) : Z :=
  match a_priority a with
  | Some p => p
  | None =>
      match a_data a with
      | Some (mkAnswerData _ (Some p)) => p
      | _ => 65535
      end
  end.

(** [Packet.TYPE.MX] *)
Definition TYPE_MX : Z := 15.

(** The filter, map, filter chain over [result.answers]. *)
Definition toMxRecords (answers : list Answer) : list MXRecord :=
  filter (fun mx => truthy (exchange mx))
    (map (fun a => mkMX (answerExchange a) (Some (answerPriority a)))
       (filter (fun a => a_type a =? TYPE_MX) answers)).

Definition timeoutError : JsError := newError "DNS query timeout".

Definition noMxError (domain : string) : JsError :=
  mkJsError ("No MX records found for domain: " ++ DQ ++ domain ++ DQ)
    (Some "ENODATA") (Some NO_MX_RECORDS) None.

Definition noValidMxError (domain : string) : JsError :=
  mkJsError ("No valid MX records found for domain: " ++ DQ ++ domain ++ DQ)
    (Some "ENODATA") (Some NO_MX_RECORDS) None.

Definition invalidDomainError (domain : string) : JsError :=
  mkJsError ("Invalid domain format: " ++ DQ ++ domain ++ DQ)
    (Some "EINVAL") (Some INVALID_DOMAIN) None.

(** [await Promise.race([promise, timeoutPromise])] for one query sent to
    [nameServers]. *)
Definition raceQuery (domain : string) (nameServers : list string)
  : M (option (list Answer)) :=
  emit (EvDnsQuery nameServers domain) ;;
  script <- get dnsScript ;;
  match script with
  | [] => throw timeoutError
  | QResult answers :: rest =>
      modify (set_dnsScript rest) ;; ret answers
  | QReject e :: rest =>
      modify (set_dnsScript rest) ;; throw e
  end.

(** The body of the [try] inside the loop of [resolveMX]. *)
Definition queryMX (domain : string) (nameServers : list string)
  : M (list MXRecord) :=
  result <- raceQuery domain nameServers ;;
  match result with
  | None | Some [] => throw (noMxError domain)
  | Some answers =>
      let mxRecords := toMxRecords answers in
      match mxRecords with
      | [] => throw (noValidMxError domain)
      | _ => ret (sortMXByPriority mxRecords)
      end
  end.

(** [errorType] is one of the three kinds the [catch] of [resolveMX]
    treats as hard. *)
Definition isHardFail (errorType : ERROR_TYPES) : bool :=
  ERROR_TYPES_eqb errorType HARD_FAIL
  || ERROR_TYPES_eqb errorType INVALID_DOMAIN
  || ERROR_TYPES_eqb errorType NO_MX_RECORDS.

(** The [while (attempt < maxAttempts)] loop of [resolveMX] and the code
    after it.  [remaining] is [maxAttempts - attempt], so the loop
    condition holds exactly when it is not zero. *)
Fixpoint resolveMX_loop (remaining : nat) (domain : string)
  (nameServers : list string) (maxAttempts attempt : Z)
  (lastError : option JsError) : M (list MXRecord) :=
  match remaining with
  | O =>
      match lastError with
      | None =>
          throw (newError "Cannot set properties of null (setting 'type')")
      | Some le =>
          throw (mkJsError (e_message le)
                   (Some (orElse (e_code le) "EDNS_RETRIES_EXHAUSTED"))
                   (Some SOFT_FAIL) (Some maxAttempts))
      end
  | S remaining' =>
      tryCatch (queryMX domain nameServers)
        (fun err =>
           let errorType := classifyError err in
           if isHardFail errorType then
             throw (mkJsError (e_message err)
                      (Some (orElse (e_code err) "EDNS_HARD_FAIL"))
                      (Some errorType) (e_attempts err))
           else
             let attempt' := attempt + 1 in
             (if attempt' <? maxAttempts
              then emit (EvBackoff (RETRY_DELAY_BASE * 2 ^ (attempt' - 1)))
              else ret tt) ;;
             resolveMX_loop remaining' domain nameServers maxAttempts attempt'
               (Some err))
  end.

(** The [options] of [resolveMX]; the query timeout is the budget of the
    timer in the race and has no other effect. *)
Record ResolveOptions : Type := mkResolveOptions {
  o_nameServers : option (list string);
  o_retries : option Z
}.

Definition noOptions : ResolveOptions := mkResolveOptions None None.

Definition resolveMX (domain : string) (options : ResolveOptions)
  : M (list MXRecord) :=
  let nameServers :=
    match o_nameServers options with Some ns => ns | None => PRIMARY_SERVERS end in
  let retries :=
    match o_retries options with Some r => r | None => MAX_RETRIES end in
  if negb (isValidDomain domain) then throw (invalidDomainError domain)
  else
    let maxAttempts := retries + 1 in
    resolveMX_loop (Z.to_nat maxAttempts) domain nameServers maxAttempts 0 None.

(** [{ nameServers: tier, retries: MAX_RETRIES, ...options }] *)
Definition tierOptions (tier : list string) (options : ResolveOptions)
  : ResolveOptions :=
  mkResolveOptions
    (Some (match o_nameServers options with Some ns => ns | None => tier end))
    (Some (match o_retries options with Some r => r | None => MAX_RETRIES end)).

(** The kinds on which [resolveMXWithFallback] stops the chain. *)
Definition stopsChain (err : JsError) : bool :=
  match e_type err with
  | Some HARD_FAIL | Some INVALID_DOMAIN => true
  | _ => false
  end.

(** The [for] loop over [resolverChain] and the code after it. *)
Fixpoint resolveChain (domain : string) (options : ResolveOptions)
  (chain : list (list string)) (lastError : option JsError)
  : M (list MXRecord) :=
  match chain with
  | [] =>
      throw (mkJsError
               ("MX resolution failed across all DNS servers for "
                ++ DQ ++ domain ++ DQ)
               (Some "EDNS_ALL_RESOLVERS_FAILED") (Some SOFT_FAIL) None)
  | tier :: chain' =>
      tryCatch (resolveMX domain (tierOptions tier options))
        (fun err =>
           if stopsChain err then throw err
           else resolveChain domain options chain' (Some err))
  end.

Definition resolverChain : list (list string) :=
  [PRIMARY_SERVERS; FALLBACK_SERVERS; SECONDARY_SERVERS].

Definition resolveMXWithFallback (domain : string) (options : ResolveOptions)
  : M (list MXRecord) :=
  resolveChain domain options resolverChain None.

(** What [getMXRecords] resolves with, without the time stamp. *)
Record MXResult : Type := mkMXResult {
  success : bool;
  r_domain : string;
  records : list MXRecord;
  recordCount : Z;
  error : option JsError
}.

Definition getMXRecords (domain : string) (options : ResolveOptions)
  : M MXResult :=
  tryCatch
    (records <- resolveMXWithFallback domain options ;;
     ret (mkMXResult true domain records (Z.of_nat (length records)) None))
    (fun err =>
       ret (mkMXResult false domain [] 0
              (Some (mkJsError (e_message err) (e_code err) (e_type err)
                       (Some (match e_attempts err with
                              | Some 0 | None => 1
                              | Some a => a
                              end))))))
  .

End Dns.

(* ===================================================================== *)
(** ** src/core/smtp-client.js *)
(* ===================================================================== *)

Module Client.
Import Js Parser Async.
Local Open Scope async_scope.

(** [constants.SMTP] *)
Definition PORT : Z := 25.
Definition DEFAULT_HELO : string := "verify.example.com".

(** A number in a template literal. *)
Definition showNumber (n : Z) : string := NilZero.string_of_int (Z.to_int n).

Definition set_c_socket (x : bool) (c : SmtpClient) : SmtpClient :=
  mkSmtpClient (c_host c) (c_port c) x (c_state c) (c_banner c) (c_features c).
Definition set_c_state (x : STATE) (c : SmtpClient) : SmtpClient :=
  mkSmtpClient (c_host c) (c_port c) (c_socket c) x (c_banner c) (c_features c).
Definition set_c_banner (x : string) (c : SmtpClient) : SmtpClient :=
  mkSmtpClient (c_host c) (c_port c) (c_socket c) (c_state c) (Some x)
    (c_features c).
Definition set_c_features (x : list string) (c : SmtpClient) : SmtpClient :=
  mkSmtpClient (c_host c) (c_port c) (c_socket c) (c_state c) (c_banner c) x.

(** [new SmtpClient(smtpHost, smtpPort, options)] *)
Definition newSmtpClient (smtpHost : string) (smtpPort : Z) : SmtpClient :=
  mkSmtpClient smtpHost smtpPort false DISCONNECTED None [].

(** [this.socket && !this.socket.destroyed] *)
Definition socketUsable (m : Machine) : bool :=
  c_socket (client m) && negb (destroyed m).

(** [_write(command)] *)
Definition _write (command : string) : M unit :=
  usable <- get socketUsable ;;
  if negb usable then throw (newError "Socket not connected")
  else
    script <- get writeScript ;;
    match script with
    | Some err :: rest => modify (set_writeScript rest) ;; throw err
    | None :: rest => modify (set_writeScript rest) ;; emit (EvWrite command)
    | [] => emit (EvWrite command)
    end.

(** [_readResponse()]: the first event the socket emits settles the
    promise, both listeners being removed by [clean()] as it arrives.  An
    ['error'] event is emitted by a socket that has just been destroyed
    with that error.  While the socket stays silent the promise is
    pending: no timer guards the read. *)
Definition _readResponse : M SmtpResponse :=
  script <- get socketScript ;;
  match script with
  | [] => fun m => (Pending, m)
  | OnData data :: rest =>
      modify (set_socketScript rest) ;;
      match parseSmtpResponse data with
      | Some parsed => ret parsed
      | None => throw (newError "Empty or invalid SMTP response")
      end
  | OnError err :: rest =>
      modify (set_socketScript rest) ;;
      modify (set_destroyed true) ;;
      throw err
  end.

(** [connect()]; the banner is read inside [connectToSmtp], which stands
    here as one scripted outcome.  [c_socket] is [this.socket], set only
    when [connectToSmtp] succeeded: the machine follows the socket the
    client holds, not the ones [connectToSmtp] may have left open on a
    failure. *)
Definition connect : M ConnectResult :=
  c <- get client ;;
  emit (EvConnect (c_host c) (c_port c)) ;;
  result <- get connectScript ;;
  match result with
  | ConnectFailed error => throw error
  | Connected banner =>
      updClient (set_c_socket true) ;;
      updClient (set_c_banner banner) ;;
      updClient (set_c_state CONNECTED) ;;
      ret result
  end.

(** [sendHello(hostname)].  The jitter sleeps of this and of the next
    methods only take time and are left out. *)
Definition sendHello (hostname : string) : M SmtpResponse :=
  c <- get client ;;
  if negb (STATE_eqb (c_state c) CONNECTED)
  then throw (newError "Must connect before sending HELLO")
  else
    _write ("EHLO " ++ hostname ++ CRLF) ;;
    updClient (set_c_state HELLO_SENT) ;;
    response0 <- _readResponse ;;
    response <-
      (if (500 <=? code response0) && (code response0 <=? 502)
       then _write ("HELO " ++ hostname ++ CRLF) ;; _readResponse
       else ret response0) ;;
    if negb (CLASSIFICATION_eqb (classification response) SUCCESS)
    then throw (newError ("Handshake failed: " ++ showNumber (code response)
                          ++ " " ++ message response))
    else
      (if (1 <? length (lines response))%nat
       then updClient (set_c_features
                         (map (fun l => trim (substringFrom 4 l))
                            (tl (lines response))))
       else ret tt) ;;
      ret response.

(** [sendMailFrom(senderEmail)] *)
Definition sendMailFrom (senderEmail : string) : M SmtpResponse :=
  c <- get client ;;
  if negb (STATE_eqb (c_state c) HELLO_SENT)
  then throw (newError "Must send HELLO before MAIL FROM")
  else
    _write ("MAIL FROM:<" ++ senderEmail ++ ">" ++ CRLF) ;;
    response <- _readResponse ;;
    if negb (CLASSIFICATION_eqb (classification response) SUCCESS)
    then throw (newError ("MAIL FROM failed: " ++ showNumber (code response)
                          ++ " " ++ message response))
    else
      updClient (set_c_state MAIL_FROM_SENT) ;;
      ret response.

(** [sendRcptTo(recipientEmail)] *)
Definition sendRcptTo (recipientEmail : string) : M SmtpResponse :=
  c <- get client ;;
  if negb (STATE_eqb (c_state c) MAIL_FROM_SENT)
     && negb (STATE_eqb (c_state c) RCPT_TO_SENT)
  then throw (newError "Must send MAIL FROM before RCPT TO")
  else
    _write ("RCPT TO:<" ++ recipientEmail ++ ">" ++ CRLF) ;;
    response <- _readResponse ;;
    emit (EvRcptReply recipientEmail response) ;;
    updClient (set_c_state RCPT_TO_SENT) ;;
    ret response.

(** [closeSocket(socket)] of src/core/connection.js: resolves at once on a
    destroyed socket, and otherwise once the socket has ended, which the
    one-second timer forces; it never rejects. *)
Definition closeSocket : M unit :=
  usable <- get socketUsable ;;
  if negb usable then ret tt
  else emit EvClose ;; modify (set_destroyed true).

(** [quit()] *)
Definition quit : M unit :=
  usable <- get socketUsable ;;
  (if usable then
     tryCatch (_write ("QUIT" ++ CRLF) ;; updClient (set_c_state QUIT_SENT))
       (fun _ => ret tt) ;;
     closeSocket
   else ret tt) ;;
  updClient (set_c_state DISCONNECTED).

End Client.

(* ===================================================================== *)
(** ** src/core/verifier.js *)
(* ===================================================================== *)

Module Verifier.
Import Js Parser Status Async Dns Client.
Local Open Scope async_scope.

(** The [options] of [verifyEmail] the verifier itself reads. *)
Record Options : Type := mkOptions {
  senderEmail : option string;
  helo : option string
}.

Definition generateNonceEmail (domain : string) : M string :=
  randomStr <- get randomHex ;;
  ret ("verify-" ++ randomStr ++ "@" ++ domain).

(** The initial [results] object. *)
Definition initialResults (email : string) : Verdict :=
  mkVerdict email None None UNKNOWN None (mkDetails None None false false).

Definition invalidSyntax : M unit :=
  updResults (set_status INVALID) ;;
  updResults (set_reason "Invalid email syntax").

(** Step 6 of [verifyEmail], the final classification. *)
Definition classifyTarget (targetRes : SmtpResponse) : M unit :=
  r <- get results ;;
  if greylisted (details r)
     || CLASSIFICATION_eqb (classification targetRes) TRANSIENT_FAIL
  then
    updResults (set_status UNKNOWN) ;;
    updResults (set_reason "Greylisted (Try again later)")
  else if CLASSIFICATION_eqb (classification targetRes) PERMANENT_FAIL
  then
    updResults (set_status INVALID) ;;
    updResults (set_reason "Recipient rejected")
  else if CLASSIFICATION_eqb (classification targetRes) SUCCESS
  then
    if catchAllActive (details r) then
      updResults (set_status CATCH_ALL) ;;
      updResults (set_reason "Domain is Catch-All")
    else
      updResults (set_status VALID) ;;
      updResults (set_reason "Recipient accepted (and domain not Catch-All)")
  else ret tt.

(** The body of the inner [try] of [verifyEmail]: steps 3 to 6. *)
Definition smtpConversation (email domain senderEmail : string)
  (options : Options) : M unit :=
  connect ;;
  sendHello (orElse (helo options) DEFAULT_HELO) ;;
  sendMailFrom senderEmail ;;
  nonceEmail <- generateNonceEmail domain ;;
  nonceRes <- sendRcptTo nonceEmail ;;
  (if CLASSIFICATION_eqb (classification nonceRes) SUCCESS
   then updResults (set_catchAllActive true)
   else if CLASSIFICATION_eqb (classification nonceRes) TRANSIENT_FAIL
   then updResults (set_greylisted true)
   else ret tt) ;;
  targetRes <- sendRcptTo email ;;
  updResults (set_smtpCode (code targetRes)) ;;
  updResults (set_smtpMessage (message targetRes)) ;;
  classifyTarget targetRes.

(** The outer [try] of [verifyEmail]: steps 2 to 6 with both handlers.
    An early [return results] inside it is the end of the block, since
    [return results] is also what follows the block. *)
Definition lookupAndProbe (email domain : string) (options : Options)
  : M unit :=
  let senderEmail := orElse (senderEmail options) ("verify@" ++ domain) in
  tryCatch
    (mxResult <- getMXRecords domain noOptions ;;
     if negb (success mxResult) || (length (records mxResult) =? 0)%nat then
       updResults (set_status INVALID) ;;
       updResults (set_reason "No MX records found")
     else
       match records mxResult with
       | [] =>
           throw (newError
                    "Cannot read properties of undefined (reading 'exchange')")
       | mxRecord :: _ =>
           updResults (set_mx (exchange mxRecord)) ;;
           modify (set_client (newSmtpClient (exchange mxRecord) PORT)) ;;
           tryFinally
             (tryCatch (smtpConversation email domain senderEmail options)
                (fun smtpErr =>
                   updResults
                     (set_reason ("SMTP Error: " ++ e_message smtpErr))))
             quit
       end)
    (fun err =>
       updResults (set_reason ("System Error: " ++ e_message err))).

(** [verifyEmail(email, options)] *)
Definition verifyEmail (email : string) (options : Options) : M Verdict :=
  modify (set_results (initialResults email)) ;;
  if negb (truthy email) || negb (includes "@" email) then
    invalidSyntax ;; get results
  else
    match splitChar "@"%char email with
    | user :: domain :: _ =>
        if negb (truthy user) || negb (truthy domain) then
          invalidSyntax ;; get results
        else
          updResults (set_domain domain) ;;
          lookupAndProbe email domain options ;;
          get results
    | _ => invalidSyntax ;; get results
    end.

End Verifier.

(* ===================================================================== *)
(** ** src/utils/mapper.js *)
(* ===================================================================== *)

Module Mapper.
Import Js Status.

(** [Canonicalize] of a code unit under the [i] flag without the [u]
    flag: the upper-case form, which for the code units that can equal a
    canonicalized ASCII letter is the ASCII upper-case form. *)
Definition canonicalize (c : ascii) : ascii :=
  let n := nat_of_ascii c in
  if (97 <=? n)%nat && (n <=? 122)%nat then ascii_of_nat (n - 32) else c.

(** The anchored match of a literal under the [i] flag. *)
Fixpoint matchLiteralAt (lit s : string) : bool :=
  match lit, s with
  | EmptyString, _ => true
  | String _ _, EmptyString => false
  | String a lit', String b s' =>
      Ascii.eqb (canonicalize a) (canonicalize b) && matchLiteralAt lit' s'
  end.

(** A pattern that is an alternation of literals, under the [i] flag. *)
Definition Pattern : Type := list string.

(** [pattern.test(s)]: the alternatives are tried in order at each start
    index, from the left. *)
Fixpoint test (pattern : Pattern) (s : string) : bool :=
  existsb (fun lit => matchLiteralAt lit s) pattern ||
  match s with
  | EmptyString => false
  | String _ s' => test pattern s'
  end.

(** [PATTERNS] *)
Definition FULL_INBOX : Pattern :=
  ["quota"; "full"; "insufficient storage"; "storage exceeded";
   "limit exceeded"].
Definition DISABLED : Pattern :=
  ["disabled"; "suspended"; "inactive"; "deactivated"; "account closed";
   "not active"].

Record Output : Type := mkOutput {
  can_connect_smtp : bool;
  is_deliverable : bool;
  is_catch_all : bool;
  has_full_inbox : bool;
  is_disabled : bool
}.

(** [code === n] on a code that may be [null] *)
Definition codeIs (code : option Z) (n : Z) : bool :=
  match code with Some c => c =? n | None => false end.

(** [formatOutput(internalResult)].  The five fields are computed in the
    order of the source, each [let] being one of its assignments; a
    [Verdict] always has its [details]. *)
Definition formatOutput (internalResult : Verdict) : Output :=
  let details := details internalResult in
  let can_connect_smtp0 :=
    match smtpCode details with
    | Some c => negb (c =? 0)
    | None => false
    end in
  let is_deliverable0 :=
    STATUS_eqb (status internalResult) VALID
    || STATUS_eqb (status internalResult) CATCH_ALL in
  let is_catch_all0 :=
    STATUS_eqb (status internalResult) CATCH_ALL || catchAllActive details in
  let code := smtpCode details in
  let msg := match smtpMessage details with Some s => s | None => "" end in
  let fullInbox :=
    (codeIs code 452 || codeIs code 552 || codeIs code 554)
    && test FULL_INBOX msg in
  let is_deliverable1 := if fullInbox then false else is_deliverable0 in
  let disabled := codeIs code 550 && test DISABLED msg in
  let is_deliverable2 := if disabled then false else is_deliverable1 in
  mkOutput can_connect_smtp0 is_deliverable2 is_catch_all0 fullInbox disabled.

End Mapper.

(* ===================================================================== *)
(** ** The words of the specification *)
(* ===================================================================== *)

Module Spec.
Import Js Parser Status Async Dns Mapper.

(** The last non-empty line of a buffer. *)
Definition lastNonEmptyLine (rawBuffer : string) : option string :=
  lastOf (nonEmptyLines rawBuffer).

Definition threeDigits (d1 d2 d3 : ascii) : Prop :=
  isDigit d1 = true /\ isDigit d2 = true /\ isDigit d3 = true.

(** The integer a three-digit prefix denotes. *)
Definition codeOf (d1 d2 d3 : ascii) : Z :=
  100 * digitVal d1 + 10 * digitVal d2 + digitVal d3.

(** Three digits followed by the end of the line or by a space. *)
Definition FinalLine (l : string) : Prop :=
  exists d1 d2 d3 rest,
    l = String d1 (String d2 (String d3 rest))
    /\ threeDigits d1 d2 d3
    /\ (rest = "" \/ exists r, rest = String SP r).

(** Three digits followed by a hyphen. *)
Definition ContinuationLine (l : string) : Prop :=
  exists d1 d2 d3 r,
    l = String d1 (String d2 (String d3 (String "-"%char r)))
    /\ threeDigits d1 d2 d3.

(** Two code units are the same up to case: equal, or the upper-case and
    the lower-case form of one ASCII letter. *)
Definition SameLetter (a b : ascii) : Prop :=
  let na := nat_of_ascii a in
  let nb := nat_of_ascii b in
  a = b
  \/ (65 <= na <= 90 /\ nb = na + 32)%nat
  \/ (65 <= nb <= 90 /\ na = nb + 32)%nat.

(** The upper-case form of a string, the way the [i] flag folds case. *)
Fixpoint upperCase (s : string) : string :=
  match s with
  | EmptyString => EmptyString
  | String c s' => String (canonicalize c) (upperCase s')
  end.

(** [msg] holds a substring equal to [w] up to case. *)
Definition ContainsIgnoringCase (w msg : string) : Prop :=
  exists pre m post, msg = pre ++ m ++ post /\ upperCase m = upperCase w.

(** A case-insensitive substring search for one of the alternatives. *)
Definition MatchesIgnoringCase (pattern : Pattern) (msg : string) : Prop :=
  exists w, In w pattern /\ ContainsIgnoringCase w msg.

(** [smtpCode] is one of the three codes of a full mailbox. *)
Definition FullInboxCode (smtpCode : option Z) : Prop :=
  smtpCode = Some 452 \/ smtpCode = Some 552 \/ smtpCode = Some 554.

(** The priority of a record as the data model reads it: a missing
    priority is 65535. *)
Definition declaredPriority (x : MXRecord) : Z :=
  match priority x with
  | Some n => n
  | None => 65535
  end.

(** The records of [l] whose key is [k], in their order in [l]. *)
Definition withKey (key : MXRecord -> Z) (k : Z) (l : list MXRecord)
  : list MXRecord :=
  filter (fun x => key x =? k) l.

(** The number of occurrences of a character. *)
Fixpoint count (c : ascii) (s : string) : nat :=
  match s with
  | EmptyString => O
  | String c' s' => ((if Ascii.eqb c' c then 1 else 0) + count c s')%nat
  end.

(** The name servers of the MX queries of a trace, in order. *)
Fixpoint queriedServers (t : list Event) : list (list string) :=
  match t with
  | [] => []
  | EvDnsQuery nameServers _ :: t' => nameServers :: queriedServers t'
  | _ :: t' => queriedServers t'
  end.

(** The recipients [sendRcptTo] got a response for, with the responses,
    in order. *)
Fixpoint rcptReplies (t : list Event) : list (string * SmtpResponse) :=
  match t with
  | [] => []
  | EvRcptReply recipient response :: t' =>
      (recipient, response) :: rcptReplies t'
  | _ :: t' => rcptReplies t'
  end.

(** A machine before anything has run: the given scripts, no failing
    write, an open socket not yet handed to a client, an empty trace. *)
Definition idle (dns : list QueryOutcome) (conn : ConnectResult)
  (sock : list SocketEvent) (hex : string) : Machine :=
  mkMachine dns conn sock [] hex false (Client.newSmtpClient "" 0)
    (Verifier.initialResults "") [].

(** A session that has sent EHLO and whose peer answers in two chunks,
    the first ending inside the multi-line reply. *)
Definition ehloChunk1 : string :=
  "250-mx.google.com at your service" ++ CRLF ++ "250-SIZE 35882577" ++ CRLF.
Definition ehloChunk2 : string := "250 CHUNKING" ++ CRLF.

Definition awaitingEhloReply : Machine :=
  mkMachine [] (Connected ("220 mx.google.com ESMTP" ++ CRLF))
    [OnData ehloChunk1; OnData ehloChunk2] [] "0123456789ab" false
    (mkSmtpClient "mx.google.com" 25 true HELLO_SENT
       (Some ("220 mx.google.com ESMTP" ++ CRLF)) [])
    (Verifier.initialResults "user@gmail.com") [].

(** A domain that exists and has no MX record: every query comes back
    with an empty answer section. *)
Definition noMxZone : Machine :=
  idle (repeat (QResult (Some [])) 9) (Connected "") [] "0123456789ab".

(** One MX record, and a peer that accepts EHLO and MAIL FROM, rejects
    the probe and answers the target with [targetReply]. *)
Definition oneMx : list QueryOutcome :=
  [QResult (Some [mkAnswer 15 (Some "mx.example.com") (Some 10) None])].

Definition peerAnswering (probeReply targetReply : string) : Machine :=
  idle oneMx (Connected ("220 mx.example.com ESMTP" ++ CRLF))
    [OnData ("250 mx.example.com" ++ CRLF);
     OnData ("250 2.1.0 Ok" ++ CRLF);
     OnData (probeReply ++ CRLF);
     OnData (targetReply ++ CRLF)]
    "0123456789ab".

Definition defaultOptions : Verifier.Options := Verifier.mkOptions None None.

(** The error [resolveMX] rethrows on a hard failure. *)
Definition hardFailure (err : JsError) : JsError :=
  mkJsError (e_message err) (Some (orElse (e_code err) "EDNS_HARD_FAIL"))
    (Some (classifyError err)) (e_attempts err).

(** The machine after one query to [nameServers] has been answered. *)
Definition afterOneQuery (nameServers : list string) (domain : string)
  (rest : list QueryOutcome) (m : Machine) : Machine :=
  set_dnsScript rest (set_trace (trace m ++ [EvDnsQuery nameServers domain]) m).

(** The verdict of the syntax gate. *)
Definition invalidSyntaxVerdict (email : string) : Verdict :=
  mkVerdict email None None INVALID (Some "Invalid email syntax")
    (mkDetails None None false false).

(** [email] is [user], an ['@'], [domain], and then either nothing or a
    further ['@'] and anything; neither [user] nor [domain] is empty or
    holds an ['@']. *)
Definition PassesGate (email user domain : string) : Prop :=
  user <> "" /\ domain <> ""
  /\ count "@"%char user = O /\ count "@"%char domain = O
  /\ (email = user ++ "@" ++ domain
      \/ exists tail, email = user ++ "@" ++ domain ++ "@" ++ tail).

(** Since [before], [sendRcptTo] got exactly two responses, the second one
    for [email], and both are classified [SUCCESS]. *)
Definition BothAccepted (email : string)
  (before after : list (string * SmtpResponse)) : Prop :=
  exists nonceEmail nonceRes targetRes,
    after = (before ++ [(nonceEmail, nonceRes); (email, targetRes)])%list
    /\ classification nonceRes = SUCCESS
    /\ classification targetRes = SUCCESS.

End Spec.

(* ===================================================================== *)
(** ** Assertions about runs *)
(* ===================================================================== *)

Module Logic.
Import Parser Status Async Spec.

(** [c] keeps [I], however it settles. *)
Definition preserves {A : Type} (I : Machine -> Prop) (c : M A) : Prop :=
  forall m, I m -> I (snd (c m)).

(** From a machine in [P], [c] settles in [Q]. *)
Definition hoare {A : Type} (P : Machine -> Prop) (c : M A)
  (Q : Outcome A -> Machine -> Prop) : Prop :=
  forall m, P m -> Q (fst (c m)) (snd (c m)).

(** An assertion that reads the [results] object and the responses to
    RCPT TO only. *)
Definition observes (P : Verdict -> list (string * SmtpResponse) -> Prop)
  (m : Machine) : Prop :=
  P (results m) (rcptReplies (trace m)).

(** The [results] object satisfies [R] and the responses to RCPT TO are
    exactly [t]. *)
Definition At (R : Verdict -> Prop) (t : list (string * SmtpResponse))
  : Verdict -> list (string * SmtpResponse) -> Prop :=
  fun r t' => R r /\ t' = t.

(** [results] before the probe: no verdict, no flag. *)
Definition Untouched (r : Verdict) : Prop :=
  status r = UNKNOWN
  /\ catchAllActive (details r) = false
  /\ greylisted (details r) = false.

(** [results] once the probe has been answered with [nonceRes]. *)
Definition Probed (nonceRes : SmtpResponse) (r : Verdict) : Prop :=
  status r = UNKNOWN
  /\ (catchAllActive (details r) = true <-> classification nonceRes = SUCCESS)
  /\ (greylisted (details r) = true -> classification nonceRes <> SUCCESS).

(** The conversation ended before the second response to RCPT TO. *)
Definition BrokeOff (before : list (string * SmtpResponse)) (r : Verdict)
  (t : list (string * SmtpResponse)) : Prop :=
  status r = UNKNOWN /\ (t = before \/ exists x, t = (before ++ [x])%list).

(** What C6 says of a verdict. *)
Definition CatchAllInvariant (email : string)
  (before : list (string * SmtpResponse)) (r : Verdict)
  (after : list (string * SmtpResponse)) : Prop :=
  (status r = CATCH_ALL -> catchAllActive (details r) = true)
  /\ (status r = VALID -> catchAllActive (details r) = false)
  /\ (status r = CATCH_ALL <-> BothAccepted email before after).

End Logic.

(* ===================================================================== *)
(** ** src/core/connection.js: the pure parts *)
(* ===================================================================== *)

Module Connection.
Import Js.

(** [CONNECTION_ERROR_TYPES] *)
Inductive CONNECTION_ERROR_TYPES : Type :=
| PROXY_AUTH_FAILED
| PROXY_HANDSHAKE_TIMEOUT
| PROXY_CONNECTION_FAILED
| SMTP_BANNER_TIMEOUT
| SMTP_BANNER_INVALID
| SMTP_CONNECTION_FAILED
| SMTP_SOCKET_ERROR
| SOCKET_TIMEOUT
| SOCKET_DESTROYED
| INVALID_CONFIG.

(** [CONNECTION_CONFIG.SMTP_BANNER_CODE] *)
Definition SMTP_BANNER_CODE : string := "220".

(** An entry of [codeMap]. *)
Record SocksClassification : Type := mkSocksClassification {
  phase : string;
  s_type : string;
  description : string;
  retryable : bool
}.

(** [s.toUpperCase()] on the strings it is applied to here, which are
    ASCII. *)
Fixpoint toUpperCase (s : string) : string :=
  match s with
  | EmptyString => EmptyString
  | String c s' =>
      let n := nat_of_ascii c in
      String (if (97 <=? n)%nat && (n <=? 122)%nat
              then ascii_of_nat (n - 32) else c)
        (toUpperCase s')
  end.

(** [n.toString(16)] of an integer. *)
Definition toString16 (n : Z) : string :=
  HexadecimalString.NilZero.string_of_int (Z.to_hex_int n).

(** [classifySocksError(socksCode)]: the keys of [codeMap] are 0 to 8 and
    255. *)
Definition classifySocksError (socksCode : Z) : SocksClassification :=
  if socksCode =? 0 then
    mkSocksClassification "none" "SUCCESS" "Connection succeeded" false
  else if socksCode =? 1 then
    mkSocksClassification "proxy" "GENERAL_FAILURE"
      "General SOCKS server failure" true
  else if socksCode =? 2 then
    mkSocksClassification "proxy" "RULESET_VIOLATION"
      "Connection not allowed by ruleset (auth/ACL)" false
  else if socksCode =? 3 then
    mkSocksClassification "target" "NETWORK_UNREACHABLE"
      "Network unreachable" false
  else if socksCode =? 4 then
    mkSocksClassification "target" "HOST_UNREACHABLE" "Host unreachable" false
  else if socksCode =? 5 then
    mkSocksClassification "target" "CONNECTION_REFUSED"
      "Connection refused by remote host" false
  else if socksCode =? 6 then
    mkSocksClassification "target" "TTL_EXPIRED" "TTL expired" false
  else if socksCode =? 7 then
    mkSocksClassification "proxy" "COMMAND_NOT_SUPPORTED"
      "Command not supported" false
  else if socksCode =? 8 then
    mkSocksClassification "proxy" "ADDRESS_TYPE_NOT_SUPPORTED"
      "Address type not supported" false
  else if socksCode =? 255 then
    mkSocksClassification "proxy" "NO_AUTH_METHODS"
      "No acceptable authentication methods" false
  else
    mkSocksClassification "unknown" "UNKNOWN_ERROR"
      ("Unknown SOCKS error code: 0x" ++ toUpperCase (toString16 socksCode))
      true.

(** The fields of an error of the SOCKS client that the handler reads. *)
Record SocksError : Type := mkSocksError {
  se_message : option string;
  se_socksResponseCode : option Z
}.

(** [[0-9a-fA-F]] *)
Definition isHexDigit (c : ascii) : bool :=
  let n := nat_of_ascii c in
  isDigit c || ((97 <=? n)%nat && (n <=? 102)%nat)
  || ((65 <=? n)%nat && (n <=? 70)%nat).

Definition hexVal (c : ascii) : Z :=
  let n := Z.of_nat (nat_of_ascii c) in
  if isDigit c then n - 48
  else if 97 <=? n then n - 87
  else n - 55.

(** The pattern of [extractSocksCode], anchored: the letters of "code" in
    either case, one or more white space, "0x" in either case, and a
    capture of two hexadecimal digits.  The white space is taken greedily;
    what follows it in the pattern is a digit, so giving some back cannot
    help. *)
Definition matchCodeAt (s : string) : option (ascii * ascii) :=
  if Mapper.matchLiteralAt "code" s then
    match substringFrom 4 s with
    | String w r =>
        if isSpace w then
          match trimStart r with
          | String z (String x (String h1 (String h2 _))) =>
              if Ascii.eqb z "0"%char
                 && Ascii.eqb (Mapper.canonicalize x) "X"%char
                 && isHexDigit h1 && isHexDigit h2
              then Some (h1, h2) else None
          | _ => None
          end
        else None
    | EmptyString => None
    end
  else None.

(** [message.match(...)]: the leftmost start index at which the pattern
    matches. *)
Fixpoint searchCode (s : string) : option (ascii * ascii) :=
  match matchCodeAt s with
  | Some capture => Some capture
  | None =>
      match s with
      | EmptyString => None
      | String _ s' => searchCode s'
      end
  end.

(** [extractSocksCode(err)] *)
Definition extractSocksCode (err : SocksError) : option Z :=
  match se_socksResponseCode err with
  | Some n => Some n
  | None =>
      match se_message err with
      | None => None
      | Some message =>
          match searchCode message with
          | Some (h1, h2) => Some (16 * hexVal h1 + hexVal h2)
          | None => None
          end
      end
  end.

(** What [validateSmtpBanner] returns. *)
Record BannerValidation : Type := mkBannerValidation {
  valid : bool;
  b_code : option string;
  b_message : string;
  raw : string
}.

(** A line terminator among the code units below 256: what the dot of a
    pattern does not match. *)
Definition isLineTerminator (c : ascii) : bool :=
  Ascii.eqb c LF || Ascii.eqb c CR.

(** The greedy run of the dot: up to the first line terminator. *)
Fixpoint takeLine (s : string) : string :=
  match s with
  | EmptyString => EmptyString
  | String c s' =>
      if isLineTerminator c then EmptyString else String c (takeLine s')
  end.

(** [validateSmtpBanner(banner)] on a string. *)
Definition validateSmtpBanner (banner : string) : BannerValidation :=
  if negb (truthy banner) then
    mkBannerValidation false None "Empty or invalid banner" banner
  else
    let trimmed := trim banner in
    match trimmed with
    | String d1 (String d2 (String d3 (String separator rest))) =>
        if isDigit d1 && isDigit d2 && isDigit d3
           && (isSpace separator || Ascii.eqb separator "-"%char)
        then
          let code := String d1 (String d2 (String d3 "")) in
          let message := takeLine rest in
          if negb (String.eqb code SMTP_BANNER_CODE) then
            mkBannerValidation false (Some code)
              ("Expected code " ++ SMTP_BANNER_CODE ++ ", received " ++ code)
              trimmed
          else
            mkBannerValidation true (Some code)
              (if truthy message then message else "(no message)") trimmed
        else
          mkBannerValidation false None
            ("Invalid banner format (expected " ++ DQ ++ "XXX message" ++ DQ
             ++ ")")
            (String.substring 0 100 trimmed)
    | _ =>
        mkBannerValidation false None
          ("Invalid banner format (expected " ++ DQ ++ "XXX message" ++ DQ
           ++ ")")
          (String.substring 0 100 trimmed)
    end.

(** What the ['data'] listener of [receiveBanner] settles the promise
    with: the banner record, or the error it rejects with (its message and
    the banner it carries; its type is [SMTP_BANNER_INVALID]). *)
Inductive BannerOutcome : Type :=
| BannerResolved (banner code message : string)
| BannerRejected (message banner : string).

Definition onBannerData (chunk : string) : BannerOutcome :=
  let banner := trim chunk in
  let validation := validateSmtpBanner banner in
  if negb (valid validation) then
    BannerRejected ("Invalid SMTP banner: " ++ b_message validation)
      (raw validation)
  else
    BannerResolved (raw validation)
      (match b_code validation with Some c => c | None => "" end)
      (b_message validation).

(** What the [catch] of [createProxyConnection] attaches to the error. *)
Record ProxyFailure : Type := mkProxyFailure {
  pf_type : CONNECTION_ERROR_TYPES;
  pf_socksErrorPhase : string;
  pf_socksCode : option Z
}.

(** [err.message?.includes(needle)] *)
Definition messageIncludes (needle : string) (err : SocksError) : bool :=
  match se_message err with
  | Some message => includes needle message
  | None => false
  end.

(** The classification in the [catch] of [createProxyConnection]. *)
Definition classifyProxyFailure (err : SocksError) : ProxyFailure :=
  let socksCode := extractSocksCode err in
  if messageIncludes "timeout" err || messageIncludes "timed out" err then
    mkProxyFailure PROXY_HANDSHAKE_TIMEOUT "proxy" socksCode
  else
    match socksCode with
    | Some c =>
        let errorPhase := phase (classifySocksError c) in
        mkProxyFailure
          (if String.eqb errorPhase "proxy" then PROXY_AUTH_FAILED
           else SMTP_CONNECTION_FAILED)
          errorPhase socksCode
    | None => mkProxyFailure PROXY_CONNECTION_FAILED "proxy" socksCode
    end.

End Connection.

(* ===================================================================== *)
(** ** src/bulk.js: loading and batching *)
(* ===================================================================== *)

Module Bulk.
Import Js.

Definition BATCH_SIZE : nat := 20.

(** [raw.split("\n").filter((e) => e.trim().includes("@"))] *)
Definition loadEmails (raw : string) : list string :=
  filter (fun e => includes "@" (trim e)) (splitChar LF raw).

(** [allEmails.slice(i, i + BATCH_SIZE)] *)
Definition slice (i : nat) (allEmails : list string) : list string :=
  firstn BATCH_SIZE (skipn i allEmails).

(** The [for (let i = 0; i < allEmails.length; i += BATCH_SIZE)] loop of
    [main], giving the chunks it hands to [processBatch], in order.  The
    loop runs at most once per email, which bounds [steps]. *)
Fixpoint batchLoop (steps i : nat) (allEmails : list string)
  : list (list string) :=
  match steps with
  | O => []
  | S steps' =>
      if (i <? length allEmails)%nat
      then slice i allEmails :: batchLoop steps' (i + BATCH_SIZE) allEmails
      else []
  end.

Definition batches (allEmails : list string) : list (list string) :=
  batchLoop (length allEmails) 0 allEmails.

End Bulk.

(* ===================================================================== *)
(** ** Further words for what the code does *)
(* ===================================================================== *)

Module Props.
Import Js Parser Status Async Dns Client Verifier Mapper Spec.

(** The class a reply code falls in, read off its first digit. *)
Definition bucketOfDigit (d : ascii) : CLASSIFICATION :=
  if Ascii.eqb d "2"%char then SUCCESS
  else if Ascii.eqb d "3"%char then INTERMEDIATE
  else if Ascii.eqb d "4"%char then TRANSIENT_FAIL
  else if Ascii.eqb d "5"%char then PERMANENT_FAIL
  else PROTOCOL_ERROR.

(** The lines of a response written back to the wire, each closed by
    CR LF. *)
Fixpoint reserialize (ls : list string) : string :=
  match ls with
  | [] => ""
  | l :: ls' => l ++ CRLF ++ reserialize ls'
  end.

(** Every character of [s] satisfies [p]. *)
Fixpoint allChars (p : ascii -> bool) (s : string) : bool :=
  match s with
  | EmptyString => true
  | String c s' => p c && allChars p s'
  end.

(** One to three decimal digits. *)
Definition Digits13 (s : string) : Prop :=
  (1 <= String.length s <= 3)%nat /\ allChars isDigit s = true.

(** [s] neither starts nor ends with white space. *)
Definition Trimmed (s : string) : Prop := trim s = s.

(** The status and the reason the final classification of [verifyEmail]
    gives for the classes of the probe's and of the target's response. *)
Definition verdictTable (probe target : CLASSIFICATION)
  : STATUS * option string :=
  match probe, target with
  | TRANSIENT_FAIL, _ | _, TRANSIENT_FAIL =>
      (UNKNOWN, Some "Greylisted (Try again later)")
  | _, PERMANENT_FAIL => (INVALID, Some "Recipient rejected")
  | SUCCESS, SUCCESS => (CATCH_ALL, Some "Domain is Catch-All")
  | _, SUCCESS =>
      (VALID, Some "Recipient accepted (and domain not Catch-All)")
  | _, _ => (UNKNOWN, None)
  end.

(** A verdict that rests on both responses to RCPT TO. *)
Definition Probed2 (email : string) (before : list (string * SmtpResponse))
  (r : Verdict) (after : list (string * SmtpResponse)) : Prop :=
  exists nonceEmail nonceRes targetRes,
    after = (before ++ [(nonceEmail, nonceRes); (email, targetRes)])%list
    /\ status r = fst (verdictTable (classification nonceRes)
                                    (classification targetRes))
    /\ reason r = snd (verdictTable (classification nonceRes)
                                    (classification targetRes))
    /\ details r
       = mkDetails (Some (code targetRes)) (Some (message targetRes))
           (CLASSIFICATION_eqb (classification nonceRes) SUCCESS)
           (CLASSIFICATION_eqb (classification nonceRes) TRANSIENT_FAIL).

(** A verdict reached without a response to the target's RCPT TO. *)
Definition Unprobed (before : list (string * SmtpResponse)) (r : Verdict)
  (after : list (string * SmtpResponse)) : Prop :=
  (after = before \/ exists x, after = (before ++ [x])%list)
  /\ smtpCode (details r) = None
  /\ smtpMessage (details r) = None
  /\ (status r = UNKNOWN \/ status r = INVALID).

(** The commands written to the socket in a trace, in order. *)
Fixpoint written (t : list Event) : list string :=
  match t with
  | [] => []
  | EvWrite command :: t' => command :: written t'
  | _ :: t' => written t'
  end.

(** A list of MX records as [resolveMX] resolves with: not empty, every
    exchange present, every priority set, ascending by the key of the
    comparator. *)
Definition GoodRecords (recs : list MXRecord) : Prop :=
  recs <> []
  /\ Forall (fun x => exchange x <> "" /\ priority x <> None) recs
  /\ StronglySorted (fun a b => priorityOr65535 a <= priorityOr65535 b) recs.

(** How a resolver call may settle: with good records, or with an error;
    never pending, the timer of each query seeing to that. *)
Definition settlesWell (o : Outcome (list MXRecord)) (_ : Machine) : Prop :=
  match o with
  | Ret recs => GoodRecords recs
  | Throw _ => True
  | Pending => False
  end.

(** What [getMXRecords] resolves with: either a success with good
    records and no error, or a failure with no record and an error. *)
Definition WellFormedResult (domain : string) (res : MXResult) : Prop :=
  r_domain res = domain
  /\ recordCount res = Z.of_nat (length (records res))
  /\ ((success res = true /\ GoodRecords (records res) /\ error res = None)
      \/ (success res = false /\ records res = [] /\ error res <> None)).




(** [results] before the conversation: no verdict, the initial details. *)
Definition Fresh (r : Verdict) : Prop :=
  (status r = UNKNOWN /\ reason r = None)
  /\ details r = mkDetails None None false false.

(** [results] once the probe has been answered with [nonceRes]. *)
Definition AfterProbe (nonceRes : SmtpResponse) (r : Verdict) : Prop :=
  (status r = UNKNOWN /\ reason r = None)
  /\ details r
     = mkDetails None None
         (CLASSIFICATION_eqb (classification nonceRes) SUCCESS)
         (CLASSIFICATION_eqb (classification nonceRes) TRANSIENT_FAIL).

(** The conversation stopped before the target was answered. *)
Definition Halfway (before : list (string * SmtpResponse)) (r : Verdict)
  (t : list (string * SmtpResponse)) : Prop :=
  (t = before \/ exists x, t = (before ++ [x])%list)
  /\ smtpCode (details r) = None
  /\ smtpMessage (details r) = None
  /\ status r = UNKNOWN.

(** Either kind of verdict. *)
Definition Verdicted (email : string) (before : list (string * SmtpResponse))
  (r : Verdict) (after : list (string * SmtpResponse)) : Prop :=
  Probed2 email before r after \/ Unprobed before r after.

(** [[a-z0-9.-]] under the [i] flag *)
Definition isDomainChar (c : ascii) : bool :=
  isLabelChar c || Ascii.eqb c "."%char.

(** A line that carries the enhanced code [ec]: three digits, a space or
    a hyphen, then [ec], which is three groups of one to three digits
    joined by dots, then a white space character. *)
Definition EnhancedLine (line ec : string) : Prop :=
  exists d1 d2 d3 sep x y z w rest,
    line = String d1 (String d2 (String d3 (String sep (ec ++ String w rest))))
    /\ threeDigits d1 d2 d3
    /\ (sep = SP \/ sep = "-"%char)
    /\ ec = x ++ "." ++ y ++ "." ++ z
    /\ Digits13 x /\ Digits13 y /\ Digits13 z
    /\ isSpace w = true.

(** [s] does not start with white space. *)
Definition headClean (s : string) : bool :=
  match s with
  | EmptyString => true
  | String c _ => negb (isSpace c)
  end.

(** [s] does not end with white space. *)
Fixpoint lastClean (s : string) : bool :=
  match s with
  | EmptyString => true
  | String c EmptyString => negb (isSpace c)
  | String _ s' => lastClean s'
  end.

(** A response the parser produced. *)
Definition Parsed (res : SmtpResponse) : Prop :=
  exists rawBuffer, parseSmtpResponse rawBuffer = Some res.

(** Every response to RCPT TO recorded since [before] was produced by the
    parser. *)
Definition ParsedSince (before : list (string * SmtpResponse)) (_ : Verdict)
  (t : list (string * SmtpResponse)) : Prop :=
  exists new, t = (before ++ new)%list
              /\ Forall (fun p => Parsed (snd p)) new.

(** A greeting line: the code 220, then a white space character or a
    hyphen, then anything. *)
Definition Greeting220 (s : string) : Prop :=
  exists separator rest,
    s = String "2" (String "2" (String "0" (String separator rest)))
    /\ (isSpace separator = true \/ separator = "-"%char).

(** The reply codes of SOCKS5 that [classifySocksError] puts in the phase
    "proxy". *)
Definition proxyPhaseCodes : list Z := [1; 2; 7; 8; 255].

(** *** Words that do not go through the embedding

    The predicates below say what a line, a digit, a number, a letter up to
    case and a white space character are without using the functions that
    embed the source, so that a statement made with them pins those
    functions down. *)

(** One of the ten decimal digits. *)
Definition DecimalDigit (c : ascii) : Prop :=
  In c ["0"; "1"; "2"; "3"; "4"; "5"; "6"; "7"; "8"; "9"]%char.

(** The number a string of decimal digits denotes, as the Standard
    Library reads it; [None] when the string is empty or holds another
    character. *)
Definition decimalValue (digits : string) : option Z :=
  option_map Z.of_uint (NilEmpty.uint_of_string digits).

(** A line break: LF, or CR LF. *)
Inductive LineBreak : string -> Prop :=
| LineBreak_LF : LineBreak (String "010" "")
| LineBreak_CRLF : LineBreak (String "013" (String "010" "")).

Definition EndsWithCR (s : string) : Prop :=
  exists s', s = s' ++ String "013" "".

(** [ls] are the lines of [s]: the pieces between its line breaks.  A
    piece holds no LF, and a CR right before an LF belongs to the break,
    not to the piece. *)
Inductive Lines : string -> list string -> Prop :=
| Lines_last (l : string) :
    count "010" l = O -> Lines l [l]
| Lines_break (l b rest : string) (ls : list string) :
    count "010" l = O ->
    LineBreak b ->
    (b = String "010" "" -> ~ EndsWithCR l) ->
    Lines rest ls ->
    Lines (l ++ b ++ rest) (l :: ls).

(** [l] is the last line of [s] that is not empty. *)
Definition LastNonEmptyLine (s l : string) : Prop :=
  exists before after,
    Lines s (before ++ l :: after)%list
    /\ l <> ""
    /\ Forall (fun x => x = "") after.

(** Three digits, then the end of the line or a space. *)
Definition FinalReplyLine (l : string) : Prop :=
  exists d1 d2 d3 rest,
    l = String d1 (String d2 (String d3 rest))
    /\ DecimalDigit d1 /\ DecimalDigit d2 /\ DecimalDigit d3
    /\ (rest = "" \/ exists r, rest = String " " r).

(** Three digits, then a hyphen. *)
Definition ContinuationReplyLine (l : string) : Prop :=
  exists d1 d2 d3 r,
    l = String d1 (String d2 (String d3 (String "-" r)))
    /\ DecimalDigit d1 /\ DecimalDigit d2 /\ DecimalDigit d3.

(** [n] is the number the first three characters of [l] denote. *)
Definition ReplyCode (l : string) (n : Z) : Prop :=
  exists d1 d2 d3 rest,
    l = String d1 (String d2 (String d3 rest))
    /\ decimalValue (String d1 (String d2 (String d3 ""))) = Some n.

(** [m] is [w] up to the case of its ASCII letters. *)
Fixpoint EqualUpToCase (m w : string) : Prop :=
  match m, w with
  | EmptyString, EmptyString => True
  | String a m', String b w' => SameLetter a b /\ EqualUpToCase m' w'
  | _, _ => False
  end.

(** [w] occurs in [msg] up to case. *)
Definition OccursUpToCase (w msg : string) : Prop :=
  exists pre m post, msg = pre ++ m ++ post /\ EqualUpToCase m w.

(** One of [words] occurs in [msg] up to case. *)
Definition MentionsOneOf (words : list string) (msg : string) : Prop :=
  exists w, In w words /\ OccursUpToCase w msg.

(** The alternatives of the full-inbox pattern and of the disabled
    pattern, as the specification lists them. *)
Definition fullInboxWords : list string :=
  ["quota"; "full"; "insufficient storage"; "storage exceeded";
   "limit exceeded"].
Definition disabledWords : list string :=
  ["disabled"; "suspended"; "inactive"; "deactivated"; "account closed";
   "not active"].

(** A white space character among the code units below 256: TAB, LF, VT,
    FF, CR, SP and NBSP. *)
Definition WhiteSpaceChar (c : ascii) : Prop :=
  In (nat_of_ascii c) [9; 10; 11; 12; 13; 32; 160]%nat.

(** [s] neither starts nor ends with a white space character. *)
Definition CleanEnds (s : string) : Prop :=
  (forall c rest, s = String c rest -> ~ WhiteSpaceChar c)
  /\ (forall pre c, s = pre ++ String c "" -> ~ WhiteSpaceChar c).

(** [s] holds neither CR nor LF. *)
Definition NoLineBreak (s : string) : Prop :=
  count "010" s = O /\ count "013" s = O.

(** A payload that is one line: a text without CR or LF, closed by
    CR LF. *)
Definition OneLine (payload : string) : Prop :=
  exists body,
    payload = body ++ String "013" (String "010" "") /\ NoLineBreak body.

(** The key [sortMXByPriority] orders by, read off the record: the
    priority, with 65535 for a missing priority and for priority 0. *)
Definition effectivePriority (x : MXRecord) : Z :=
  match priority x with
  | None | Some 0 => 65535
  | Some n => n
  end.

(** A priority [parseInt] gives back unchanged. *)
Definition SafePriority (x : MXRecord) : Prop :=
  match priority x with
  | Some n => Z.abs n < 2 ^ 53
  | None => True
  end.

(** The commands written so far are [w], and the random string is [h]. *)
Definition Wrote (h : string) (w : list string) (m : Machine) : Prop :=
  written (trace m) = w /\ randomHex m = h.

(** The payloads of the greeting: that of EHLO, and that of HELO after
    it when the server did not recognise EHLO. *)
Definition helloCommands (hello : string) (fallback : bool) : list string :=
  ("EHLO " ++ hello ++ CRLF)
  :: (if fallback then ["HELO " ++ hello ++ CRLF] else []).

(** The payloads that follow the greeting: the sender, the probe, the
    target, each embedded in its template as it is. *)
Definition envelopeCommands (sender nonce email : string) : list string :=
  ["MAIL FROM:<" ++ sender ++ ">" ++ CRLF;
   "RCPT TO:<" ++ nonce ++ ">" ++ CRLF;
   "RCPT TO:<" ++ email ++ ">" ++ CRLF].

(** The payloads of a whole conversation, in protocol order. *)
Definition sessionCommands (hello sender nonce email : string)
  (fallback : bool) : list string :=
  (helloCommands hello fallback ++ envelopeCommands sender nonce email)%list.

Definition quitCommand : string := "QUIT" ++ CRLF.

(** [cmds] are the payloads of a conversation cut short at some point,
    closed or not by that of QUIT. *)
Definition InProtocolOrder (hello sender nonce email : string)
  (cmds : list string) : Prop :=
  exists (fallback : bool) (k : nat) (closing : bool),
    cmds = (firstn k (sessionCommands hello sender nonce email fallback)
            ++ (if closing then [quitCommand] else []))%list.

End Props.

Import Js Parser Status Async Dns Client Verifier Mapper Spec Logic.
Import Connection Bulk Props.
Local Open Scope async_scope.

(* ===================================================================== *)
(** ** The response parser *)
(* ===================================================================== *)

Lemma truthy_false (s : string) : truthy s = false <-> s = "".
Proof. destruct s; simpl; split; congruence. Qed.

Lemma truthy_true (s : string) : truthy s = true <-> s <> "".
Proof. destruct s; cbn; split; congruence. Qed.

Lemma lastLineMatch_Some (l capture : string) :
  lastLineMatch l = Some capture ->
  exists d1 d2 d3 rest,
    l = String d1 (String d2 (String d3 rest))
    /\ capture = String d1 (String d2 (String d3 ""))
    /\ threeDigits d1 d2 d3
    /\ (rest = "" \/ exists r, rest = String SP r).
Proof.
  unfold lastLineMatch, threeDigits.
  destruct l as [|d1 [|d2 [|d3 rest]]]; try discriminate.
  destruct (isDigit d1) eqn:D1, (isDigit d2) eqn:D2, (isDigit d3) eqn:D3;
    simpl; try discriminate.
  destruct rest as [|c r].
  - intros [= <-]. exists d1, d2, d3, "". repeat split; auto.
  - destruct (Ascii.eqb_spec c SP) as [->|]; try discriminate.
    intros [= <-]. exists d1, d2, d3, (String SP r).
    repeat split; eauto.
Qed.

Lemma lastLineMatch_final (l : string) :
  lastLineMatch l <> None <-> FinalLine l.
Proof.
  split.
  - destruct (lastLineMatch l) as [capture|] eqn:E; [intros _|congruence].
    destruct (lastLineMatch_Some _ _ E) as (d1 & d2 & d3 & rest & -> & _ & D & R).
    exists d1, d2, d3, rest. auto.
  - intros (d1 & d2 & d3 & rest & -> & (D1 & D2 & D3) & R).
    simpl. rewrite D1, D2, D3. simpl.
    destruct R as [->|[r ->]]; simpl; discriminate.
Qed.

(** A line cannot be final and a continuation at once: the second test of
    the parser never fires after the first one passed. *)
Lemma isIntermediate_not_final (l capture : string) :
  lastLineMatch l = Some capture -> isIntermediate l = false.
Proof.
  intros E. destruct (lastLineMatch_Some _ _ E) as (d1 & d2 & d3 & rest & -> & _ & _ & R).
  simpl. destruct R as [->|[r ->]]; simpl; auto.
  now rewrite andb_false_r.
Qed.

Lemma continuation_no_match (l : string) :
  ContinuationLine l -> lastLineMatch l = None.
Proof.
  intros (d1 & d2 & d3 & r & -> & D1 & D2 & D3).
  simpl. now rewrite D1, D2, D3.
Qed.

Lemma isDigit_range (c : ascii) :
  isDigit c = true -> 0 <= digitVal c <= 9.
Proof.
  unfold isDigit, digitVal. rewrite andb_true_iff, !Nat.leb_le. lia.
Qed.

(** The capture of the last line always parses: the NaN branch of the
    model is dead. *)
Lemma parseInt10_lastLineMatch (d1 d2 d3 : ascii) :
  threeDigits d1 d2 d3 ->
  parseInt10 (String d1 (String d2 (String d3 ""))) = Some (codeOf d1 d2 d3).
Proof.
  intros (D1 & D2 & D3). unfold parseInt10, codeOf.
  cbn [parseDigits]. rewrite D1, D2, D3. f_equal. lia.
Qed.

(** What a successful parse tells about the buffer and the response. *)
Lemma parseSmtpResponse_Some (rawBuffer : string) (r : SmtpResponse) :
  parseSmtpResponse rawBuffer = Some r ->
  exists l d1 d2 d3 rest,
    lastNonEmptyLine rawBuffer = Some l
    /\ l = String d1 (String d2 (String d3 rest))
    /\ threeDigits d1 d2 d3
    /\ (rest = "" \/ exists r', rest = String SP r')
    /\ code r = codeOf d1 d2 d3
    /\ lines r = nonEmptyLines rawBuffer
    /\ classification r = classifyCode (code r).
Proof.
  unfold parseSmtpResponse, lastNonEmptyLine.
  destruct (truthy rawBuffer); simpl; [|discriminate].
  destruct (lastOf (nonEmptyLines rawBuffer)) as [l|]; [|discriminate].
  destruct (lastLineMatch l) as [capture|] eqn:E; [|discriminate].
  destruct (lastLineMatch_Some _ _ E) as (d1 & d2 & d3 & rest & -> & -> & D & R).
  destruct (isIntermediate _); [discriminate|].
  rewrite (parseInt10_lastLineMatch _ _ _ D).
  intros [= <-]. exists (String d1 (String d2 (String d3 rest))), d1, d2, d3, rest.
  simpl. repeat split; auto; apply D.
Qed.

Lemma parseSmtpResponse_final (rawBuffer l : string) :
  lastNonEmptyLine rawBuffer = Some l -> FinalLine l ->
  parseSmtpResponse rawBuffer <> None.
Proof.
  unfold parseSmtpResponse, lastNonEmptyLine. intros L F.
  destruct (truthy rawBuffer) eqn:T.
  - simpl. rewrite L.
    apply lastLineMatch_final in F.
    destruct (lastLineMatch l) as [capture|] eqn:E; [|congruence].
    rewrite (isIntermediate_not_final _ _ E).
    destruct (lastLineMatch_Some _ _ E) as (d1 & d2 & d3 & rest & _ & -> & D & _).
    rewrite (parseInt10_lastLineMatch _ _ _ D). discriminate.
  - apply truthy_false in T. subst rawBuffer. discriminate.
Qed.

Lemma parseSmtpResponse_continuation (rawBuffer l : string) :
  lastNonEmptyLine rawBuffer = Some l -> ContinuationLine l ->
  parseSmtpResponse rawBuffer = None.
Proof.
  unfold parseSmtpResponse, lastNonEmptyLine. intros L C.
  destruct (truthy rawBuffer); simpl; [|reflexivity].
  rewrite L, (continuation_no_match _ C). reflexivity.
Qed.

Lemma consHead_app (c : ascii) (pre rest : list string) :
  pre <> [] -> consHead c (pre ++ rest) = (consHead c pre ++ rest)%list.
Proof. destruct pre; [congruence|reflexivity]. Qed.

Lemma consHead_nonempty (c : ascii) (pieces : list string) :
  consHead c pieces <> [].
Proof. destruct pieces; discriminate. Qed.

(** What follows a line feed is split on its own. *)
Lemma splitLines_app_LF (p rest : string) :
  exists pre, pre <> []
              /\ splitLines (p ++ String LF rest) = (pre ++ splitLines rest)%list.
Proof.
  enough (H : (exists pre, pre <> []
                 /\ splitLines (p ++ String LF rest)
                    = (pre ++ splitLines rest)%list)
              /\ forall c, exists pre, pre <> []
                 /\ splitLines (String c p ++ String LF rest)
                    = (pre ++ splitLines rest)%list) by apply H.
  induction p as [|c' p IH].
  - split; [exists [""]; split; [discriminate|reflexivity]|].
    intros c. cbn [append splitLines].
    destruct (Ascii.eqb c LF).
    + exists [""; ""]. split; [discriminate|reflexivity].
    + rewrite Ascii.eqb_refl.
      destruct (Ascii.eqb c CR); cbn [andb consHead].
      * exists [""]. split; [discriminate|reflexivity].
      * exists [String c ""]. split; [discriminate|reflexivity].
  - destruct IH as (IH0 & IH1). split; [apply IH1|].
    intros c. destruct (IH1 c') as (pre & N & E).
    cbn [append] in *. cbn [splitLines].
    destruct (Ascii.eqb c LF).
    + exists ("" :: pre). split; [discriminate|]. cbn [splitLines] in E.
      now rewrite E.
    + destruct (Ascii.eqb c CR && Ascii.eqb c' LF).
      * destruct IH0 as (pre0 & N0 & E0).
        exists ("" :: pre0). split; [discriminate|]. now rewrite E0.
      * cbn [splitLines] in E. rewrite E.
        exists (consHead c pre). split; [apply consHead_nonempty|].
        now apply consHead_app.
Qed.

(** A line without line feed, ended by CR LF, is one line. *)
Lemma splitLines_line_CRLF (l : string) :
  count LF l = O -> splitLines (l ++ CRLF) = [l; ""].
Proof.
  induction l as [|c l IH]; [reflexivity|].
  cbn [count]. destruct (Ascii.eqb c LF) eqn:C; [discriminate|].
  intros H. specialize (IH H). cbn [append splitLines]. rewrite C.
  destruct l as [|c' l].
  - cbn. rewrite andb_false_r. reflexivity.
  - cbn [append] in *. cbn [count] in H.
    destruct (Ascii.eqb c' LF); [discriminate|].
    rewrite andb_false_r, IH. reflexivity.
Qed.

Lemma lastOf_app_singleton {A : Type} (xs : list A) (x : A) :
  lastOf (xs ++ [x]) = Some x.
Proof.
  induction xs as [|y xs IH]; [reflexivity|].
  cbn [app lastOf]. destruct (xs ++ [x])%list eqn:E; [|exact IH].
  now destruct xs.
Qed.

(** The last non-empty line of a buffer that ends in a non-empty line
    closed by CR LF is that line, whatever lines precede it. *)
Lemma lastNonEmptyLine_closed (p l : string) :
  l <> "" -> count LF l = O ->
  lastNonEmptyLine (l ++ CRLF) = Some l
  /\ lastNonEmptyLine (p ++ String LF (l ++ CRLF)) = Some l.
Proof.
  intros T N. apply truthy_true in T.
  unfold lastNonEmptyLine, nonEmptyLines. split.
  - rewrite (splitLines_line_CRLF _ N). cbn. now rewrite T.
  - destruct (splitLines_app_LF p (l ++ CRLF)) as (pre & _ & ->).
    rewrite (splitLines_line_CRLF _ N), filter_app. cbn. rewrite T.
    apply lastOf_app_singleton.
Qed.

(** Every buffer that ends in a line of three digits, a hyphen and any
    text, closed by CR LF, is incomplete. *)
Lemma parseSmtpResponse_ends_in_continuation (p l : string) :
  ContinuationLine l -> count LF l = O ->
  parseSmtpResponse (l ++ CRLF) = None
  /\ parseSmtpResponse (p ++ String LF (l ++ CRLF)) = None.
Proof.
  intros C N.
  assert (T : l <> "")
    by (destruct C as (d1 & d2 & d3 & r & -> & _); discriminate).
  destruct (lastNonEmptyLine_closed p l T N) as (L1 & L2).
  split; eapply parseSmtpResponse_continuation; eauto.
Qed.

(** Every buffer that ends in a line of three digits alone or followed by
    a space and any text, closed by CR LF, is parsed. *)
Lemma parseSmtpResponse_ends_in_final (p l : string) :
  FinalLine l -> count LF l = O ->
  parseSmtpResponse (l ++ CRLF) <> None
  /\ parseSmtpResponse (p ++ String LF (l ++ CRLF)) <> None.
Proof.
  intros F N.
  assert (T : l <> "")
    by (destruct F as (d1 & d2 & d3 & r & -> & _); discriminate).
  destruct (lastNonEmptyLine_closed p l T N) as (L1 & L2).
  split; eapply parseSmtpResponse_final; eauto.
Qed.

(* ===================================================================== *)
(** ** Lines, digits and numbers, said without the embedding *)
(* ===================================================================== *)

Lemma isDigit_DecimalDigit (c : ascii) : isDigit c = true <-> DecimalDigit c.
Proof.
  unfold DecimalDigit.
  destruct c as [[] [] [] [] [] [] [] []]; vm_compute; split; intros H;
    first [ reflexivity
          | discriminate H
          | solve [repeat (first [left; reflexivity | right])]
          | solve [repeat (destruct H as [H|H]; [discriminate H|]);
                   contradiction] ].
Qed.

Lemma FinalLine_FinalReplyLine (l : string) : FinalLine l <-> FinalReplyLine l.
Proof.
  unfold FinalLine, FinalReplyLine, threeDigits. split.
  - intros (d1 & d2 & d3 & rest & E & (D1 & D2 & D3) & R).
    exists d1, d2, d3, rest. rewrite <- !isDigit_DecimalDigit. auto.
  - intros (d1 & d2 & d3 & rest & E & D1 & D2 & D3 & R).
    exists d1, d2, d3, rest. rewrite !isDigit_DecimalDigit. auto.
Qed.

Lemma ContinuationLine_ContinuationReplyLine (l : string) :
  ContinuationLine l <-> ContinuationReplyLine l.
Proof.
  unfold ContinuationLine, ContinuationReplyLine, threeDigits. split.
  - intros (d1 & d2 & d3 & r & E & D1 & D2 & D3).
    exists d1, d2, d3, r. rewrite <- !isDigit_DecimalDigit. auto.
  - intros (d1 & d2 & d3 & r & E & D1 & D2 & D3).
    exists d1, d2, d3, r. rewrite !isDigit_DecimalDigit. auto.
Qed.

(** The number [parseInt] reads off three digits is the one the Standard
    Library reads. *)
Lemma threeDigits_decimalValue (d1 d2 d3 : ascii) :
  threeDigits d1 d2 d3 ->
  decimalValue (String d1 (String d2 (String d3 ""))) = Some (codeOf d1 d2 d3).
Proof.
  intros (D1 & D2 & D3).
  apply isDigit_DecimalDigit in D1, D2, D3.
  unfold DecimalDigit in *. cbn [In] in *.
  repeat (destruct D1 as [<-|D1]); try contradiction;
    repeat (destruct D2 as [<-|D2]); try contradiction;
    repeat (destruct D3 as [<-|D3]); try contradiction;
    vm_compute; reflexivity.
Qed.

Lemma digit_decimalValue (d : ascii) :
  isDigit d = true -> decimalValue (String d "") = Some (digitVal d).
Proof.
  intros D. apply isDigit_DecimalDigit in D.
  unfold DecimalDigit in D. cbn [In] in D.
  repeat (destruct D as [<-|D]); try contradiction; vm_compute; reflexivity.
Qed.

Lemma EndsWithCR_cons (c : ascii) (l : string) :
  EndsWithCR (String c l) -> (l = "" /\ c = CR) \/ EndsWithCR l.
Proof.
  intros ([|c' s'] & E); cbn in E.
  - injection E as -> ->. left. auto.
  - injection E as -> ->. right. exists s'. reflexivity.
Qed.

Lemma Lines_consHead (c : ascii) (s : string) (ls : list string) :
  Ascii.eqb c LF = false ->
  ~ (c = CR /\ exists s', s = String LF s') ->
  Lines s ls -> Lines (String c s) (consHead c ls).
Proof.
  intros C N H. unfold LF in C.
  destruct H as [l Hl|l b rest ls0 Hl Hb Hcr Hrest].
  - apply Lines_last. cbn [count]. now rewrite C, Hl.
  - change (Lines (String c l ++ b ++ rest) (String c l :: ls0)).
    apply Lines_break; auto.
    + cbn [count]. now rewrite C, Hl.
    + intros E K. apply EndsWithCR_cons in K as [(-> & ->)|K].
      * apply N. split; [reflexivity|]. subst b. exists rest. reflexivity.
      * exact (Hcr E K).
Qed.

(** The lines the embedding of [split] gives are the lines. *)
Lemma Lines_splitLines (s : string) : Lines s (splitLines s).
Proof.
  assert (H : forall n s, (String.length s <= n)%nat -> Lines s (splitLines s)).
  { clear s. induction n as [|n IH]; intros s L.
    - destruct s; [|cbn in L; lia]. apply Lines_last. reflexivity.
    - destruct s as [|c s]; [apply Lines_last; reflexivity|].
      cbn [String.length] in L. cbn [splitLines].
      destruct (Ascii.eqb c LF) eqn:C.
      + apply Ascii.eqb_eq in C. subst c.
        apply (Lines_break "" (String LF "") s);
          [reflexivity|apply LineBreak_LF| |apply IH; lia].
        intros _ ([|c' s'] & E); discriminate E.
      + destruct s as [|c' s'].
        * apply Lines_consHead; [exact C| |apply Lines_last; reflexivity].
          intros (_ & s' & E). discriminate E.
        * destruct (Ascii.eqb c CR && Ascii.eqb c' LF) eqn:K.
          -- apply andb_true_iff in K as (K1 & K2).
             apply Ascii.eqb_eq in K1, K2. subst c c'.
             apply (Lines_break "" (String CR (String LF "")) s');
               [reflexivity|apply LineBreak_CRLF| |].
             ++ intros E. discriminate E.
             ++ apply IH. cbn [String.length] in L. lia.
          -- apply Lines_consHead; [exact C| |apply IH; lia].
             intros (-> & s'' & E). injection E as -> _.
             cbn in K. discriminate K. }
  apply (H (String.length s)). lia.
Qed.

Lemma splitLines_single (l : string) : count LF l = O -> splitLines l = [l].
Proof.
  induction l as [|c l IH]; [reflexivity|].
  cbn [count]. destruct (Ascii.eqb c LF) eqn:C; [discriminate|].
  intros H. specialize (IH H). cbn [splitLines]. rewrite C.
  destruct l as [|c' l]; [reflexivity|].
  cbn [count] in H. destruct (Ascii.eqb c' LF); [discriminate|].
  rewrite andb_false_r, IH. reflexivity.
Qed.

(** A line without line feed that does not end in a carriage return,
    closed by LF, is split off as it is. *)
Lemma splitLines_line_LF_app (l rest : string) :
  count LF l = O -> ~ EndsWithCR l ->
  splitLines (l ++ String LF rest) = l :: splitLines rest.
Proof.
  induction l as [|c l IH]; [reflexivity|].
  cbn [count]. destruct (Ascii.eqb c LF) eqn:C; [discriminate|].
  intros H N. cbn [append splitLines]. rewrite C.
  destruct l as [|c' l].
  - cbn [append]. rewrite Ascii.eqb_refl, andb_true_r.
    destruct (Ascii.eqb_spec c CR) as [->|_].
    + exfalso. apply N. exists "". reflexivity.
    + cbn [splitLines]. rewrite Ascii.eqb_refl. reflexivity.
  - cbn [append] in *. cbn [count] in H.
    destruct (Ascii.eqb c' LF) eqn:C'; [discriminate|].
    rewrite andb_false_r, IH; [reflexivity|cbn [count]; now rewrite C'|].
    intros (s' & E). apply N. exists (String c s'). cbn. now rewrite E.
Qed.

(** A line without line feed, closed by CR LF, is split off as it is. *)
Lemma splitLines_line_CRLF_app (l rest : string) :
  count LF l = O -> splitLines (l ++ CRLF ++ rest) = l :: splitLines rest.
Proof.
  induction l as [|c l IH]; [reflexivity|].
  cbn [count]. destruct (Ascii.eqb c LF) eqn:C; [discriminate|].
  intros H. specialize (IH H). cbn [append splitLines]. rewrite C.
  destruct l as [|c' l].
  - cbn. rewrite andb_false_r. reflexivity.
  - cbn [append] in *. cbn [count] in H.
    destruct (Ascii.eqb c' LF); [discriminate|].
    rewrite andb_false_r, IH. reflexivity.
Qed.

(** The lines of a string are those the embedding of [split] gives. *)
Lemma Lines_unique (s : string) (ls : list string) :
  Lines s ls -> ls = splitLines s.
Proof.
  induction 1 as [l Hl|l b rest ls Hl Hb Hcr Hrest IH].
  - symmetry. now apply splitLines_single.
  - subst ls. destruct Hb.
    + symmetry. apply splitLines_line_LF_app; auto.
    + symmetry. now apply (splitLines_line_CRLF_app l rest).
Qed.

Lemma lastOf_nonempty {A : Type} (x : A) (xs : list A) :
  lastOf (x :: xs) <> None.
Proof.
  revert x. induction xs as [|y xs IH]; intros x; [discriminate|].
  cbn [lastOf]. apply IH.
Qed.

Lemma filter_truthy_nil (ls : list string) :
  filter truthy ls = [] <-> Forall (fun x => x = "") ls.
Proof.
  induction ls as [|x ls IH]; cbn [filter].
  - split; [constructor|reflexivity].
  - destruct x as [|c x]; cbn [truthy].
    + rewrite IH. split; [constructor; auto|].
      intros F. now apply Forall_inv_tail in F.
    + split; [discriminate|]. intros F. apply Forall_inv in F. discriminate F.
Qed.

Lemma lastOf_filter_truthy (ls : list string) (l : string) :
  lastOf (filter truthy ls) = Some l <->
  exists before after,
    ls = (before ++ l :: after)%list
    /\ l <> "" /\ Forall (fun x => x = "") after.
Proof.
  split.
  - induction ls as [|x ls IH]; [discriminate|].
    cbn [filter]. destruct (filter truthy ls) as [|y ys] eqn:F.
    + destruct (truthy x) eqn:T; [|discriminate].
      intros [= <-]. exists [], ls. split; [reflexivity|].
      split; [now apply truthy_true|now apply filter_truthy_nil].
    + intros E.
      assert (E' : lastOf (y :: ys) = Some l)
        by (destruct (truthy x); exact E).
      destruct (IH E') as (before & after & -> & N & A).
      exists (x :: before), after. auto.
  - intros (before & after & -> & N & A).
    rewrite filter_app. cbn [filter].
    apply truthy_true in N. rewrite N.
    apply filter_truthy_nil in A. rewrite A.
    apply lastOf_app_singleton.
Qed.

(** The last non-empty line the parser looks at is the last non-empty
    line of the buffer. *)
Lemma lastNonEmptyLine_spec (s l : string) :
  lastNonEmptyLine s = Some l <-> LastNonEmptyLine s l.
Proof.
  unfold lastNonEmptyLine, nonEmptyLines, LastNonEmptyLine.
  rewrite lastOf_filter_truthy. split.
  - intros (before & after & E & N & A). exists before, after.
    rewrite <- E. split; [apply Lines_splitLines|auto].
  - intros (before & after & L & N & A). exists before, after.
    apply Lines_unique in L. auto.
Qed.

(** With the failing operations written out, the parser takes none of
    them: the two embeddings agree. *)
Lemma parseSmtpResponse_js_agrees (rawBuffer : string) :
  parseSmtpResponse_js rawBuffer
  = match parseSmtpResponse rawBuffer with
    | None => Null
    | Some r => Response r
    end.
Proof.
  unfold parseSmtpResponse_js, parseSmtpResponse. cbv zeta.
  destruct (negb (truthy rawBuffer)); [reflexivity|].
  destruct (nonEmptyLines rawBuffer) as [|x xs]; [reflexivity|].
  cbn [length Nat.eqb].
  destruct (lastOf (x :: xs)) as [lastLine|] eqn:L;
    [|exfalso; exact (lastOf_nonempty _ _ L)].
  destruct (lastLineMatch lastLine) as [capture|] eqn:M; [|reflexivity].
  cbn [orb]. destruct (isIntermediate lastLine); [reflexivity|].
  destruct (lastLineMatch_Some _ _ M)
    as (d1 & d2 & d3 & rest & _ & -> & D & _).
  rewrite (parseInt10_lastLineMatch _ _ _ D). reflexivity.
Qed.

(** C2. For every buffer, [parseSmtpResponse] returns a parsed response
    exactly when the last non-empty line is three digits followed by the
    end of the line or by a space; when the last non-empty line is three
    digits followed by a hyphen, and for the empty buffer, it returns
    [null].  The last non-empty line is that of the buffer, [Lines] saying
    what the lines of a buffer are, and a digit is one of the ten
    characters: neither goes through the parser. *)
Theorem parseSmtpResponse_complete_iff_final_line (rawBuffer : string) :
  (parseSmtpResponse rawBuffer <> None <->
   exists l, LastNonEmptyLine rawBuffer l /\ FinalReplyLine l)
  /\ ((exists l, LastNonEmptyLine rawBuffer l /\ ContinuationReplyLine l) ->
      parseSmtpResponse rawBuffer = None)
  /\ parseSmtpResponse "" = None.
Proof.
  split; [split|split].
  - destruct (parseSmtpResponse rawBuffer) as [r|] eqn:E; [intros _|congruence].
    destruct (parseSmtpResponse_Some _ _ E)
      as (l & d1 & d2 & d3 & rest & L & -> & D & R & _).
    exists (String d1 (String d2 (String d3 rest))).
    split; [apply lastNonEmptyLine_spec, L|].
    apply FinalLine_FinalReplyLine. exists d1, d2, d3, rest. auto.
  - intros (l & L & F).
    apply lastNonEmptyLine_spec in L. apply FinalLine_FinalReplyLine in F.
    exact (parseSmtpResponse_final _ _ L F).
  - intros (l & L & C).
    apply lastNonEmptyLine_spec in L.
    apply ContinuationLine_ContinuationReplyLine in C.
    exact (parseSmtpResponse_continuation _ _ L C).
  - reflexivity.
Qed.

(** The incomplete buffer of the parser's own test case, an instance of
    the second part of C2: its last non-empty line is the second of its
    two lines. *)
Lemma parseSmtpResponse_complete_iff_final_line_witness :
  (exists l,
     LastNonEmptyLine
       ("250-mx.google.com at your service" ++ CRLF
        ++ "250-SIZE 35882577" ++ CRLF) l
     /\ ContinuationReplyLine l)
  /\ parseSmtpResponse
       ("250-mx.google.com at your service" ++ CRLF
        ++ "250-SIZE 35882577" ++ CRLF) = None.
Proof.
  assert (H : exists l,
     LastNonEmptyLine
       ("250-mx.google.com at your service" ++ CRLF
        ++ "250-SIZE 35882577" ++ CRLF) l
     /\ ContinuationReplyLine l).
  { exists "250-SIZE 35882577". split.
    - exists ["250-mx.google.com at your service"], [""].
      split; [|split; [discriminate|repeat constructor]].
      apply Lines_break;
        [reflexivity|apply LineBreak_CRLF|intros E; discriminate E|].
      apply (Lines_break "250-SIZE 35882577" CRLF "" [""]);
        [reflexivity|apply LineBreak_CRLF|intros E; discriminate E|].
      apply Lines_last. reflexivity.
    - exists "2"%char, "5"%char, "0"%char, "SIZE 35882577".
      unfold DecimalDigit. cbn [In]. repeat split; auto 12. }
  split; [exact H|].
  exact (proj1 (proj2 (parseSmtpResponse_complete_iff_final_line _)) H).
Defined.

(** C9. [parseSmtpResponse] is total.  With every operation that can
    fail written out (a property read on [undefined] or [null], a NaN from
    [parseInt]), no string makes it throw or return a NaN code: it returns
    [null] or a response, and the code of that response is the number the
    first three characters of the last non-empty line of the buffer denote,
    between 0 and 999.  The line and the number are those of [Lines] and
    of the decimal notation of the Standard Library, not the parser's. *)
Theorem parseSmtpResponse_total (rawBuffer : string) :
  parseSmtpResponse_js rawBuffer
  = match parseSmtpResponse rawBuffer with
    | None => Null
    | Some r => Response r
    end
  /\ (parseSmtpResponse rawBuffer = None
      \/ exists r l,
           parseSmtpResponse rawBuffer = Some r
           /\ LastNonEmptyLine rawBuffer l
           /\ ReplyCode l (code r)
           /\ 0 <= code r <= 999).
Proof.
  split; [apply parseSmtpResponse_js_agrees|].
  destruct (parseSmtpResponse rawBuffer) as [r|] eqn:E; [right|left; reflexivity].
  destruct (parseSmtpResponse_Some _ _ E)
    as (l & d1 & d2 & d3 & rest & L & -> & D & _ & C & _).
  exists r, (String d1 (String d2 (String d3 rest))).
  split; [reflexivity|]. split; [apply lastNonEmptyLine_spec, L|].
  split.
  - exists d1, d2, d3, rest. split; [reflexivity|].
    rewrite C. now apply threeDigits_decimalValue.
  - rewrite C. unfold codeOf. destruct D as (D1 & D2 & D3).
    apply isDigit_range in D1, D2, D3. lia.
Qed.

(** A buffer of two lines whose codes differ: the code is that of the
    last line, and nothing throws. *)
Lemma parseSmtpResponse_total_witness :
  parseSmtpResponse_js ("550 a" ++ CRLF ++ "250 ok" ++ CRLF)
  = Response (mkSmtpResponse 250 None "a ok" ["550 a"; "250 ok"] SUCCESS).
Proof.
  exact (proj1 (parseSmtpResponse_total ("550 a" ++ CRLF ++ "250 ok" ++ CRLF))).
Defined.

(** The degenerate inputs C9 names all give [null]. *)
Example parseSmtpResponse_degenerate :
  parseSmtpResponse "" = None
  /\ parseSmtpResponse CRLF = None
  /\ parseSmtpResponse "25" = None
  /\ parseSmtpResponse "OK" = None
  /\ parseSmtpResponse "abc def" = None
  /\ parseSmtpResponse "2500 OK" = None
  /\ parseSmtpResponse ("250" ++ String CR "") = None.
Proof. repeat split; reflexivity. Qed.

(** The scenarios of the parser's own test file. *)
Example parseSmtpResponse_simple_success :
  parseSmtpResponse ("250 OK" ++ CRLF)
  = Some (mkSmtpResponse 250 None "OK" ["250 OK"] SUCCESS).
Proof. reflexivity. Qed.

Example parseSmtpResponse_enhanced_code :
  parseSmtpResponse
    ("550 5.1.1 The email account that you tried to reach does not exist."
     ++ CRLF)
  = Some (mkSmtpResponse 550 (Some "5.1.1")
            "The email account that you tried to reach does not exist."
            ["550 5.1.1 The email account that you tried to reach does not exist."]
            PERMANENT_FAIL).
Proof. reflexivity. Qed.

(* ===================================================================== *)
(** ** The output mapper *)
(* ===================================================================== *)

Lemma canonicalize_code (c : ascii) :
  nat_of_ascii (canonicalize c)
  = (if (97 <=? nat_of_ascii c)%nat && (nat_of_ascii c <=? 122)%nat
     then nat_of_ascii c - 32 else nat_of_ascii c)%nat.
Proof.
  unfold canonicalize. pose proof (nat_ascii_bounded c) as B.
  destruct (_ && _); [|reflexivity].
  apply nat_ascii_embedding. lia.
Qed.

(** The case folding of the [i] flag identifies exactly the two forms of
    each ASCII letter. *)
Lemma canonicalize_same_letter (a b : ascii) :
  canonicalize a = canonicalize b <-> SameLetter a b.
Proof.
  unfold SameLetter. cbv zeta.
  assert (I : nat_of_ascii a = nat_of_ascii b -> a = b).
  { intros E. rewrite <- (ascii_nat_embedding a), <- (ascii_nat_embedding b).
    now rewrite E. }
  assert (J : canonicalize a = canonicalize b <->
              nat_of_ascii (canonicalize a) = nat_of_ascii (canonicalize b)).
  { split; [congruence|]. intros E.
    rewrite <- (ascii_nat_embedding (canonicalize a)),
            <- (ascii_nat_embedding (canonicalize b)). now rewrite E. }
  rewrite J, !canonicalize_code.
  destruct (Nat.leb_spec 97 (nat_of_ascii a)), (Nat.leb_spec (nat_of_ascii a) 122),
    (Nat.leb_spec 97 (nat_of_ascii b)), (Nat.leb_spec (nat_of_ascii b) 122);
    cbn [andb]; split;
    try (intros E; first [left; apply I; lia | right; lia]);
    try (intros [->|S]; lia).
Qed.

Lemma matchLiteralAt_spec (lit s : string) :
  matchLiteralAt lit s = true <->
  exists m post, s = m ++ post /\ upperCase m = upperCase lit.
Proof.
  revert s. induction lit as [|a lit IH]; intros s; simpl.
  - split; [intros _|reflexivity]. exists "", s. auto.
  - destruct s as [|b s].
    + split; [discriminate|]. intros (m & post & E & U).
      destruct m; simpl in *; discriminate.
    + rewrite andb_true_iff, IH. split.
      * intros (C & m & post & -> & U). apply Ascii.eqb_eq in C.
        exists (String b m), post. simpl. split; [reflexivity|]. congruence.
      * intros (m & post & E & U). destruct m as [|c m]; [discriminate|].
        simpl in E, U. injection E as <- ->. injection U as C U.
        split; [apply Ascii.eqb_eq; congruence|]. eauto.
Qed.

Lemma test_spec (pattern : Pattern) (s : string) :
  test pattern s = true <-> MatchesIgnoringCase pattern s.
Proof.
  unfold MatchesIgnoringCase, ContainsIgnoringCase.
  induction s as [|c s IH]; simpl; rewrite orb_true_iff, existsb_exists.
  - split.
    + intros [(w & I & Hm)|]; [|discriminate].
      apply matchLiteralAt_spec in Hm. destruct Hm as (m & post & E & U).
      exists w. split; [exact I|]. exists "", m, post. auto.
    + intros (w & I & pre & m & post & E & U). left. exists w. split; [exact I|].
      apply matchLiteralAt_spec. destruct pre; [|discriminate].
      exists m, post. auto.
  - rewrite IH. split.
    + intros [(w & I & Hm)|(w & I & pre & m & post & E & U)].
      * apply matchLiteralAt_spec in Hm. destruct Hm as (m & post & E & U).
        exists w. split; [exact I|]. exists "", m, post. auto.
      * exists w. split; [exact I|]. exists (String c pre), m, post.
        simpl. split; congruence.
    + intros (w & I & pre & m & post & E & U). destruct pre as [|c' pre].
      * left. exists w. split; [exact I|]. apply matchLiteralAt_spec.
        exists m, post. auto.
      * right. simpl in E. injection E as -> ->.
        exists w. split; [exact I|]. exists pre, m, post. auto.
Qed.

Lemma codeIs_spec (c : option Z) (n : Z) :
  Mapper.codeIs c n = true <-> c = Some n.
Proof.
  destruct c as [c|]; simpl; [|split; discriminate].
  rewrite Z.eqb_eq. split; congruence.
Qed.

(** Equality after the case folding of the [i] flag is equality up to
    the case of ASCII letters. *)
Lemma upperCase_EqualUpToCase (m w : string) :
  upperCase m = upperCase w <-> EqualUpToCase m w.
Proof.
  revert w. induction m as [|a m IH]; intros [|b w]; cbn;
    try (split; [discriminate|contradiction]).
  - split; auto.
  - rewrite <- IH, <- canonicalize_same_letter. split.
    + intros [= C U]. auto.
    + intros (C & U). now rewrite C, U.
Qed.

(** The test of a pattern of literals under the [i] flag finds exactly
    the messages in which one of the words occurs up to case. *)
Lemma test_MentionsOneOf (pattern : Pattern) (s : string) :
  test pattern s = true <-> MentionsOneOf pattern s.
Proof.
  rewrite test_spec.
  unfold MatchesIgnoringCase, ContainsIgnoringCase, MentionsOneOf,
    OccursUpToCase.
  split; intros (w & I & pre & m & post & E & U); exists w; (split; [exact I|]);
    exists pre, m, post; (split; [exact E|]);
    now apply upperCase_EqualUpToCase.
Qed.

(** C8. [formatOutput] sets [has_full_inbox] exactly when [smtpCode] is
    452, 552 or 554 and one of the five alternatives of the full-inbox
    pattern occurs in [smtpMessage] up to the case of its letters, and then
    [is_deliverable] is [false]; a verdict with code 552 and message
    "5.2.2 Mailbox full" maps to [is_deliverable = false],
    [has_full_inbox = true], [can_connect_smtp = true].  The alternatives
    are listed as the specification lists them and "up to case" is said
    letter by letter, neither through the mapper. *)
Theorem formatOutput_full_inbox (v : Verdict) :
  (has_full_inbox (formatOutput v) = true <->
   FullInboxCode (smtpCode (details v))
   /\ exists msg, smtpMessage (details v) = Some msg
                  /\ MentionsOneOf fullInboxWords msg)
  /\ (has_full_inbox (formatOutput v) = true ->
      is_deliverable (formatOutput v) = false)
  /\ (smtpCode (details v) = Some 552 ->
      smtpMessage (details v) = Some "5.2.2 Mailbox full" ->
      is_deliverable (formatOutput v) = false
      /\ has_full_inbox (formatOutput v) = true
      /\ can_connect_smtp (formatOutput v) = true).
Proof.
  split; [|split].
  - unfold formatOutput, FullInboxCode. cbn [has_full_inbox].
    change fullInboxWords with FULL_INBOX.
    rewrite andb_true_iff, !orb_true_iff, !codeIs_spec.
    destruct (smtpMessage (details v)) as [msg|].
    + rewrite test_MentionsOneOf. split.
      * intros (C & T). split; [tauto|eauto].
      * intros (C & msg' & [= <-] & T). split; [tauto|exact T].
    + split.
      * intros (_ & T). discriminate T.
      * intros (_ & msg & E & _). discriminate E.
  - unfold formatOutput. cbn [has_full_inbox is_deliverable].
    intros ->. destruct (Mapper.codeIs _ 550 && _); reflexivity.
  - intros C Msg. unfold formatOutput. rewrite C, Msg. cbn. auto.
Qed.

(** The scenario of the specification, and a message in capitals with
    the code 452: "FULL" is "full" up to case. *)
Lemma formatOutput_full_inbox_witness :
  (is_deliverable
     (formatOutput
        (mkVerdict "user@example.com" (Some "example.com")
           (Some "mx.example.com") INVALID (Some "Recipient rejected")
           (mkDetails (Some 552) (Some "5.2.2 Mailbox full") false false)))
   = false
   /\ has_full_inbox
        (formatOutput
           (mkVerdict "user@example.com" (Some "example.com")
              (Some "mx.example.com") INVALID (Some "Recipient rejected")
              (mkDetails (Some 552) (Some "5.2.2 Mailbox full") false false)))
      = true
   /\ can_connect_smtp
        (formatOutput
           (mkVerdict "user@example.com" (Some "example.com")
              (Some "mx.example.com") INVALID (Some "Recipient rejected")
              (mkDetails (Some 552) (Some "5.2.2 Mailbox full") false false)))
      = true)
  /\ has_full_inbox
       (formatOutput
          (mkVerdict "user@example.com" (Some "example.com")
             (Some "mx.example.com") UNKNOWN
             (Some "Greylisted (Try again later)")
             (mkDetails (Some 452) (Some "Mailbox FULL, try later") false
                false)))
     = true.
Proof.
  split.
  - apply (proj2 (proj2 (formatOutput_full_inbox _))); reflexivity.
  - apply (proj2 (proj1 (formatOutput_full_inbox _))). split.
    + left. reflexivity.
    + exists "Mailbox FULL, try later". split; [reflexivity|].
      exists "full". split; [right; left; reflexivity|].
      exists "Mailbox ", "FULL", ", try later". split; [reflexivity|].
      cbn. unfold SameLetter. cbn.
      repeat split; right; left; lia.
Defined.

(* ===================================================================== *)
(** ** Sorting the MX records *)
(* ===================================================================== *)

Section StableSort.
Variable key : MXRecord -> Z.
Let compare (a b : MXRecord) : Z := key a - key b.

Lemma insertSorted_perm (x : MXRecord) (l : list MXRecord) :
  Permutation (insertSorted compare x l) (x :: l).
Proof.
  induction l as [|y l IH]; simpl; [reflexivity|].
  destruct (compare x y <=? 0); [reflexivity|].
  rewrite IH. apply perm_swap.
Qed.

Lemma sort_perm (l : list MXRecord) : Permutation (sort compare l) l.
Proof.
  induction l as [|x l IH]; simpl; [reflexivity|].
  rewrite insertSorted_perm. now constructor.
Qed.

Lemma insertSorted_sorted (x : MXRecord) (l : list MXRecord) :
  StronglySorted (fun a b => key a <= key b) l ->
  StronglySorted (fun a b => key a <= key b) (insertSorted compare x l).
Proof.
  induction 1 as [|y l S IH F]; simpl.
  - repeat constructor.
  - unfold compare at 1. destruct (Z.leb_spec (key x - key y) 0).
    + constructor; [now constructor|]. constructor; [lia|].
      eapply Forall_impl; [|exact F]. simpl. intros; lia.
    + constructor; [exact IH|].
      eapply Permutation_Forall; [symmetry; apply insertSorted_perm|].
      constructor; [lia|exact F].
Qed.

Lemma sort_sorted (l : list MXRecord) :
  StronglySorted (fun a b => key a <= key b) (sort compare l).
Proof.
  induction l as [|x l IH]; simpl; [constructor|].
  now apply insertSorted_sorted.
Qed.

Lemma insertSorted_withKey (k : Z) (x : MXRecord) (l : list MXRecord) :
  withKey key k (insertSorted compare x l) = withKey key k (x :: l).
Proof.
  unfold withKey. induction l as [|y l IH]; simpl; [reflexivity|].
  unfold compare at 1. destruct (Z.leb_spec (key x - key y) 0); [reflexivity|].
  simpl. rewrite IH. simpl.
  destruct (Z.eqb_spec (key x) k), (Z.eqb_spec (key y) k); try reflexivity.
  lia.
Qed.

(** The sort is stable: records with equal keys keep their order. *)
Lemma sort_stable (k : Z) (l : list MXRecord) :
  withKey key k (sort compare l) = withKey key k l.
Proof.
  induction l as [|x l IH]; simpl; [reflexivity|].
  rewrite insertSorted_withKey. unfold withKey in *. simpl. now rewrite IH.
Qed.
End StableSort.

Lemma priorityOr65535_effectivePriority (x : MXRecord) :
  priorityOr65535 x = effectivePriority x.
Proof.
  unfold priorityOr65535, effectivePriority.
  destruct (priority x) as [[|n|n]|]; reflexivity.
Qed.

(** X27. What [sortMXByPriority] does on a list whose priorities are
    integers below 2^53 in magnitude, those [parseInt] gives back
    unchanged: a stable ascending sort by the priority, for which a missing
    priority and priority 0 count as 65535.  The result is a permutation of
    the input, ascending by that key, and the records of each key keep
    their order. *)
Lemma sortMXByPriority_by_key (mxRecords : list MXRecord) :
  Forall SafePriority mxRecords ->
  Permutation (sortMXByPriority mxRecords) mxRecords
  /\ StronglySorted (fun a b => effectivePriority a <= effectivePriority b)
       (sortMXByPriority mxRecords)
  /\ forall k, withKey effectivePriority k (sortMXByPriority mxRecords)
               = withKey effectivePriority k mxRecords.
Proof.
  intros _.
  assert (E : sortMXByPriority mxRecords = sort comparePriority mxRecords)
    by (destruct mxRecords; reflexivity).
  assert (K : forall k l, withKey effectivePriority k l
                          = withKey priorityOr65535 k l).
  { intros k l. unfold withKey. apply filter_ext. intros x.
    now rewrite priorityOr65535_effectivePriority. }
  rewrite E. split; [|split].
  - apply (sort_perm priorityOr65535).
  - eapply StronglySorted_ind with
      (P := StronglySorted
              (fun a b => effectivePriority a <= effectivePriority b));
      [constructor| |apply (sort_sorted priorityOr65535)].
    intros a l _ IH F. constructor; [exact IH|].
    eapply Forall_impl; [|exact F]. intros b Hb.
    now rewrite <- !priorityOr65535_effectivePriority.
  - intros k. rewrite !K. apply (sort_stable priorityOr65535).
Qed.

(** Three records, one with priority 0 and two with priority 10: the two
    keep their order and the one with priority 0 comes last. *)
Lemma sortMXByPriority_by_key_witness :
  Permutation
    (sortMXByPriority
       [mkMX "a.example.com" (Some 10); mkMX "zero.example.com" (Some 0);
        mkMX "b.example.com" (Some 10); mkMX "c.example.com" (Some 5)])
    [mkMX "a.example.com" (Some 10); mkMX "zero.example.com" (Some 0);
     mkMX "b.example.com" (Some 10); mkMX "c.example.com" (Some 5)]
  /\ StronglySorted (fun a b => effectivePriority a <= effectivePriority b)
       (sortMXByPriority
          [mkMX "a.example.com" (Some 10); mkMX "zero.example.com" (Some 0);
           mkMX "b.example.com" (Some 10); mkMX "c.example.com" (Some 5)])
  /\ forall k,
       withKey effectivePriority k
         (sortMXByPriority
            [mkMX "a.example.com" (Some 10); mkMX "zero.example.com" (Some 0);
             mkMX "b.example.com" (Some 10); mkMX "c.example.com" (Some 5)])
       = withKey effectivePriority k
           [mkMX "a.example.com" (Some 10); mkMX "zero.example.com" (Some 0);
            mkMX "b.example.com" (Some 10); mkMX "c.example.com" (Some 5)].
Proof.
  apply sortMXByPriority_by_key.
  repeat constructor; cbn; lia.
Defined.

Lemma priorityOr65535_declared (x : MXRecord) :
  priority x <> Some 0 -> priorityOr65535 x = declaredPriority x.
Proof.
  unfold priorityOr65535, declaredPriority.
  destruct (priority x) as [n|]; [|reflexivity].
  destruct (Z.eqb_spec n 0); [subst; congruence|reflexivity].
Qed.

(** C4, at the failing input.  A record with priority 0 is placed after a
    record with priority 10, whichever comes first in the source, and after
    a record whose priority is missing when that one comes first. *)
Theorem sortMXByPriority_zero_priority_last :
  sortMXByPriority
    [mkMX "mx0.example.com" (Some 0); mkMX "mx10.example.com" (Some 10)]
  = [mkMX "mx10.example.com" (Some 10); mkMX "mx0.example.com" (Some 0)]
  /\ sortMXByPriority
       [mkMX "mx10.example.com" (Some 10); mkMX "mx0.example.com" (Some 0)]
     = [mkMX "mx10.example.com" (Some 10); mkMX "mx0.example.com" (Some 0)]
  /\ sortMXByPriority
       [mkMX "mx.example.com" None; mkMX "mx0.example.com" (Some 0)]
     = [mkMX "mx.example.com" None; mkMX "mx0.example.com" (Some 0)].
Proof. repeat split; reflexivity. Qed.

(* ===================================================================== *)
(** ** Reading a response at the session layer *)
(* ===================================================================== *)

(** [_readResponse] settles on the first chunk, whatever the parser says
    about it. *)
Lemma _readResponse_first_chunk (m : Machine) (chunk : string)
  (rest : list SocketEvent) :
  socketScript m = OnData chunk :: rest ->
  _readResponse m =
  (match parseSmtpResponse chunk with
   | Some parsed => Ret parsed
   | None => Throw (newError "Empty or invalid SMTP response")
   end, set_socketScript rest m).
Proof.
  intros E. unfold _readResponse, bind, get, modify. rewrite E.
  destruct (parseSmtpResponse chunk); reflexivity.
Qed.

(** C1, at the failing input.  The two chunks together are a complete
    response with code 250, the first alone is incomplete, and
    [_readResponse] rejects on the first, leaving the second unread. *)
Theorem _readResponse_rejects_incomplete_first_chunk :
  parseSmtpResponse ehloChunk1 = None
  /\ parseSmtpResponse (ehloChunk1 ++ ehloChunk2)
     = Some (mkSmtpResponse 250 None
               "mx.google.com at your service SIZE 35882577 CHUNKING"
               ["250-mx.google.com at your service"; "250-SIZE 35882577";
                "250 CHUNKING"] SUCCESS)
  /\ _readResponse awaitingEhloReply
     = (Throw (newError "Empty or invalid SMTP response"),
        set_socketScript [OnData ehloChunk2] awaitingEhloReply).
Proof. repeat split; reflexivity. Qed.

(* ===================================================================== *)
(** ** Retries and resolver tiers *)
(* ===================================================================== *)

(** No error is ever classified [NO_MX_RECORDS]: [classifyError] reads the
    message and the code of the error, not the [type] it was thrown
    with. *)
Lemma classifyError_never_NO_MX_RECORDS (err : JsError) :
  classifyError err <> NO_MX_RECORDS.
Proof.
  unfold classifyError.
  repeat match goal with
         | |- context [if ?b then _ else _] => destruct b
         end; discriminate.
Qed.

Lemma resolveMX_loop_hard_fail (remaining : nat) (domain : string)
  (nameServers : list string) (maxAttempts attempt : Z)
  (lastError : option JsError) (m : Machine) (err : JsError)
  (rest : list QueryOutcome) :
  dnsScript m = QReject err :: rest ->
  isHardFail (classifyError err) = true ->
  resolveMX_loop (S remaining) domain nameServers maxAttempts attempt
    lastError m
  = (Throw (hardFailure err), afterOneQuery nameServers domain rest m).
Proof.
  intros E H. cbn [resolveMX_loop].
  unfold tryCatch, queryMX, raceQuery, bind, emit, modify, get. cbn.
  rewrite E. cbn. rewrite H. reflexivity.
Qed.

(** A query that fails with an error classified [HARD_FAIL] or
    [INVALID_DOMAIN] ends [resolveMX] at once: one query, no back-off, the
    error rethrown with its kind. *)
Lemma resolveMX_hard_fail_stops (domain : string) (nameServers : list string)
  (retries : Z) (m : Machine) (err : JsError) (rest : list QueryOutcome) :
  isValidDomain domain = true ->
  0 <= retries ->
  dnsScript m = QReject err :: rest ->
  isHardFail (classifyError err) = true ->
  resolveMX domain (mkResolveOptions (Some nameServers) (Some retries)) m
  = (Throw (hardFailure err), afterOneQuery nameServers domain rest m).
Proof.
  intros V R E H. unfold resolveMX. cbn [o_nameServers o_retries].
  rewrite V. cbn [negb].
  destruct (Z.to_nat (retries + 1)) as [|n] eqn:N; [lia|].
  now apply resolveMX_loop_hard_fail.
Qed.

(** ... and ends [resolveMXWithFallback] as well: the first tier is the
    only one queried. *)
Lemma resolveMXWithFallback_hard_fail_stops (domain : string) (m : Machine)
  (err : JsError) (rest : list QueryOutcome) :
  isValidDomain domain = true ->
  dnsScript m = QReject err :: rest ->
  isHardFail (classifyError err) = true ->
  resolveMXWithFallback domain noOptions m
  = (Throw (hardFailure err), afterOneQuery PRIMARY_SERVERS domain rest m).
Proof.
  intros V E H. unfold resolveMXWithFallback, resolverChain.
  cbn [resolveChain]. unfold tryCatch, tierOptions. cbn [noOptions o_nameServers o_retries].
  assert (R : 0 <= MAX_RETRIES) by (unfold MAX_RETRIES; lia).
  rewrite (resolveMX_hard_fail_stops _ _ _ _ _ _ V R E H).
  assert (S : stopsChain (hardFailure err) = true).
  { unfold stopsChain, hardFailure. cbn [e_type].
    pose proof (classifyError_never_NO_MX_RECORDS err) as N.
    destruct (classifyError err); try discriminate H; congruence. }
  rewrite S. reflexivity.
Qed.

(** A malformed domain is rejected before any query, by every tier. *)
Lemma resolveMXWithFallback_invalid_domain (domain : string) (m : Machine) :
  isValidDomain domain = false ->
  resolveMXWithFallback domain noOptions m
  = (Throw (invalidDomainError domain), m).
Proof.
  intros V. unfold resolveMXWithFallback, resolverChain.
  cbn [resolveChain]. unfold tryCatch, resolveMX. rewrite V. reflexivity.
Qed.

(** C3, at the failing input.  On a domain without MX records the first
    query already fails with [NO_MX_RECORDS]; [resolveMX] nevertheless
    queries the tier three times and reports [SOFT_FAIL], and
    [resolveMXWithFallback] goes through all three tiers. *)
Theorem resolveMX_retries_NO_MX_RECORDS :
  fst (queryMX "example.com" PRIMARY_SERVERS noMxZone)
  = Throw (noMxError "example.com")
  /\ e_type (noMxError "example.com") = Some NO_MX_RECORDS
  /\ fst (resolveMX "example.com" noOptions noMxZone)
     = Throw (mkJsError (e_message (noMxError "example.com")) (Some "ENODATA")
                (Some SOFT_FAIL) (Some 3))
  /\ queriedServers (trace (snd (resolveMX "example.com" noOptions noMxZone)))
     = [PRIMARY_SERVERS; PRIMARY_SERVERS; PRIMARY_SERVERS]
  /\ fst (resolveMXWithFallback "example.com" noOptions noMxZone)
     = Throw (mkJsError
                ("MX resolution failed across all DNS servers for "
                 ++ DQ ++ "example.com" ++ DQ)
                (Some "EDNS_ALL_RESOLVERS_FAILED") (Some SOFT_FAIL) None)
  /\ queriedServers
       (trace (snd (resolveMXWithFallback "example.com" noOptions noMxZone)))
     = [PRIMARY_SERVERS; PRIMARY_SERVERS; PRIMARY_SERVERS;
        FALLBACK_SERVERS; FALLBACK_SERVERS; FALLBACK_SERVERS;
        SECONDARY_SERVERS; SECONDARY_SERVERS; SECONDARY_SERVERS].
Proof. repeat split; vm_compute; reflexivity. Qed.

(* ===================================================================== *)
(** ** Rules for runs *)
(* ===================================================================== *)

Lemma preserves_ret {A : Type} (I : Machine -> Prop) (a : A) :
  preserves I (ret a).
Proof. intros m H. exact H. Qed.

Lemma preserves_throw {A : Type} (I : Machine -> Prop) (e : JsError) :
  preserves I (@throw A e).
Proof. intros m H. exact H. Qed.

Lemma preserves_pending {A : Type} (I : Machine -> Prop) :
  preserves I (fun m => (@Pending A, m)).
Proof. intros m H. exact H. Qed.

Lemma preserves_get {A : Type} (I : Machine -> Prop) (f : Machine -> A) :
  preserves I (get f).
Proof. intros m H. exact H. Qed.

Lemma preserves_bind {A B : Type} (I : Machine -> Prop) (c : M A)
  (k : A -> M B) :
  preserves I c -> (forall a, preserves I (k a)) -> preserves I (bind c k).
Proof.
  intros Hc Hk m H. unfold bind. specialize (Hc m H).
  destruct (c m) as [[a|e|] m']; cbn in *; auto. now apply Hk.
Qed.

Lemma preserves_tryCatch {A : Type} (I : Machine -> Prop) (body : M A)
  (handler : JsError -> M A) :
  preserves I body -> (forall e, preserves I (handler e)) ->
  preserves I (tryCatch body handler).
Proof.
  intros Hb Hh m H. unfold tryCatch. specialize (Hb m H).
  destruct (body m) as [[a|e|] m']; cbn in *; auto. now apply Hh.
Qed.

Lemma preserves_tryFinally {A : Type} (I : Machine -> Prop) (body : M A)
  (final : M unit) :
  preserves I body -> preserves I final -> preserves I (tryFinally body final).
Proof.
  intros Hb Hf m H. unfold tryFinally. specialize (Hb m H).
  destruct (body m) as [[a|e|] m']; cbn in *; auto;
    specialize (Hf m' Hb); destruct (final m') as [[[]|e'|] m'']; cbn in *; auto.
Qed.

Lemma hoare_of_preserves {A : Type} (I : Machine -> Prop) (c : M A) :
  preserves I c -> hoare I c (fun _ => I).
Proof. intros H m Hm. now apply H. Qed.

Lemma hoare_bind {A B : Type} (P : Machine -> Prop) (c : M A) (k : A -> M B)
  (Q1 : Outcome A -> Machine -> Prop) (Q : Outcome B -> Machine -> Prop) :
  hoare P c Q1 ->
  (forall a, hoare (Q1 (Ret a)) (k a) Q) ->
  (forall e m, Q1 (Throw e) m -> Q (Throw e) m) ->
  (forall m, Q1 Pending m -> Q Pending m) ->
  hoare P (bind c k) Q.
Proof.
  intros Hc Hk Ht Hp m H. unfold bind. specialize (Hc m H).
  destruct (c m) as [[a|e|] m']; cbn in *; auto. now apply Hk.
Qed.

(** A step that keeps the assertion, then the rest. *)
Lemma hoare_frame_bind {A B : Type} (I : Machine -> Prop) (c : M A)
  (k : A -> M B) (Q : Outcome B -> Machine -> Prop) :
  preserves I c ->
  (forall a, hoare I (k a) Q) ->
  (forall e m, I m -> Q (Throw e) m) ->
  (forall m, I m -> Q Pending m) ->
  hoare I (bind c k) Q.
Proof.
  intros Hc Hk Ht Hp.
  apply (hoare_bind I c k (fun _ => I) Q); auto using hoare_of_preserves.
Qed.

(* ===================================================================== *)
(** ** What the resolver and the session leave alone *)
(* ===================================================================== *)

Lemma rcptReplies_app (t u : list Event) :
  rcptReplies (t ++ u) = (rcptReplies t ++ rcptReplies u)%list.
Proof.
  induction t as [|e t IH]; [reflexivity|].
  destruct e; cbn; rewrite ?IH; reflexivity.
Qed.

Ltac frame_step :=
  match goal with
  | |- preserves _ (bind _ _) => apply preserves_bind; [|intros ?]
  | |- preserves _ (tryCatch _ _) => apply preserves_tryCatch; [|intros ?]
  | |- preserves _ (tryFinally _ _) => apply preserves_tryFinally
  | |- preserves _ (ret _) => apply preserves_ret
  | |- preserves _ (throw _) => apply preserves_throw
  | |- preserves _ (get _) => apply preserves_get
  | |- preserves _ (fun m => (Pending, m)) => apply preserves_pending
  | |- preserves _ (if ?b then _ else _) => destruct b
  | |- preserves _ (match ?x with _ => _ end) => destruct x
  end.

Create HintDb frame.

Ltac frame := repeat frame_step; auto with frame.

Section Frame.
Variable P : Verdict -> list (string * SmtpResponse) -> Prop.

Lemma frame_set_dnsScript (x : list QueryOutcome) :
  preserves (observes P) (modify (set_dnsScript x)).
Proof. intros m H. exact H. Qed.

Lemma frame_set_socketScript (x : list SocketEvent) :
  preserves (observes P) (modify (set_socketScript x)).
Proof. intros m H. exact H. Qed.

Lemma frame_set_writeScript (x : list (option JsError)) :
  preserves (observes P) (modify (set_writeScript x)).
Proof. intros m H. exact H. Qed.

Lemma frame_set_destroyed (x : bool) :
  preserves (observes P) (modify (set_destroyed x)).
Proof. intros m H. exact H. Qed.

Lemma frame_set_client (x : SmtpClient) :
  preserves (observes P) (modify (set_client x)).
Proof. intros m H. exact H. Qed.

Lemma frame_updClient (f : SmtpClient -> SmtpClient) :
  preserves (observes P) (updClient f).
Proof. intros m H. exact H. Qed.

Lemma frame_emit (e : Event) :
  rcptReplies [e] = [] -> preserves (observes P) (emit e).
Proof.
  intros E m H. unfold observes in *. cbn.
  now rewrite rcptReplies_app, E, app_nil_r.
Qed.

Hint Resolve frame_set_dnsScript frame_set_socketScript frame_set_writeScript
  frame_set_destroyed frame_set_client frame_updClient : frame.
Hint Extern 1 (preserves _ (emit _)) =>
  (apply frame_emit; reflexivity) : frame.

Lemma frame_raceQuery (domain : string) (nameServers : list string) :
  preserves (observes P) (raceQuery domain nameServers).
Proof. unfold raceQuery. frame. Qed.

Hint Resolve frame_raceQuery : frame.

Lemma frame_queryMX (domain : string) (nameServers : list string) :
  preserves (observes P) (queryMX domain nameServers).
Proof. unfold queryMX. frame. Qed.

Hint Resolve frame_queryMX : frame.

Lemma frame_resolveMX_loop (remaining : nat) (domain : string)
  (nameServers : list string) (maxAttempts attempt : Z)
  (lastError : option JsError) :
  preserves (observes P)
    (resolveMX_loop remaining domain nameServers maxAttempts attempt lastError).
Proof.
  revert attempt lastError.
  induction remaining as [|n IH]; intros attempt lastError;
    cbn [resolveMX_loop]; frame.
Qed.

Hint Resolve frame_resolveMX_loop : frame.

Lemma frame_resolveMX (domain : string) (options : ResolveOptions) :
  preserves (observes P) (resolveMX domain options).
Proof. unfold resolveMX. frame. Qed.

Hint Resolve frame_resolveMX : frame.

Lemma frame_resolveChain (domain : string) (options : ResolveOptions)
  (chain : list (list string)) (lastError : option JsError) :
  preserves (observes P) (resolveChain domain options chain lastError).
Proof.
  revert lastError.
  induction chain as [|tier chain IH]; intros lastError;
    cbn [resolveChain]; frame.
Qed.

Hint Resolve frame_resolveChain : frame.

Lemma frame_getMXRecords (domain : string) (options : ResolveOptions) :
  preserves (observes P) (getMXRecords domain options).
Proof. unfold getMXRecords, resolveMXWithFallback. frame. Qed.

Lemma frame__write (command : string) :
  preserves (observes P) (_write command).
Proof. unfold _write. frame. Qed.

Lemma frame__readResponse : preserves (observes P) _readResponse.
Proof. unfold _readResponse. frame. Qed.

Hint Resolve frame__write frame__readResponse : frame.

Lemma frame_connect : preserves (observes P) connect.
Proof. unfold connect. frame. Qed.

Lemma frame_sendHello (hostname : string) :
  preserves (observes P) (sendHello hostname).
Proof. unfold sendHello. frame. Qed.

Lemma frame_sendMailFrom (senderEmail : string) :
  preserves (observes P) (sendMailFrom senderEmail).
Proof. unfold sendMailFrom. frame. Qed.

Lemma frame_closeSocket : preserves (observes P) closeSocket.
Proof. unfold closeSocket. frame. Qed.

Hint Resolve frame_closeSocket : frame.

Lemma frame_quit : preserves (observes P) quit.
Proof. unfold quit. frame. Qed.

Lemma frame_generateNonceEmail (domain : string) :
  preserves (observes P) (generateNonceEmail domain).
Proof. unfold generateNonceEmail. frame. Qed.

End Frame.

#[local] Hint Resolve frame_set_dnsScript frame_set_socketScript
  frame_set_writeScript frame_set_destroyed frame_set_client frame_updClient
  frame_raceQuery frame_queryMX frame_resolveMX_loop frame_resolveMX
  frame_resolveChain frame_getMXRecords frame__write frame__readResponse
  frame_connect frame_sendHello frame_sendMailFrom frame_closeSocket
  frame_quit frame_generateNonceEmail : frame.
#[local] Hint Extern 1 (preserves _ (emit _)) =>
  (apply frame_emit; reflexivity) : frame.
(** An assertion that does not read what a step writes is kept by it. *)
#[local] Hint Extern 5 (preserves _ _) =>
  (let m := fresh "m" in let H := fresh "H" in intros m H; exact H) : frame.

(* ===================================================================== *)
(** ** The syntax gate *)
(* ===================================================================== *)

Lemma includes_char (c : ascii) (s : string) :
  includes (String c "") s = true <-> count c s <> O.
Proof.
  induction s as [|b s IH]; cbn.
  - split; [discriminate|congruence].
  - rewrite andb_true_r, orb_true_iff, IH, (Ascii.eqb_sym c b).
    destruct (Ascii.eqb b c); cbn; split; auto; lia.
Qed.

Lemma splitChar_nonempty (sep : ascii) (s : string) : splitChar sep s <> [].
Proof.
  destruct s as [|c s]; cbn; [discriminate|].
  destruct (Ascii.eqb c sep); [discriminate|].
  destruct (splitChar sep s); discriminate.
Qed.

Lemma splitChar_no_sep (sep : ascii) (u : string) :
  count sep u = O -> splitChar sep u = [u].
Proof.
  induction u as [|c u IH]; cbn; [reflexivity|].
  destruct (Ascii.eqb c sep); [discriminate|]. cbn.
  intros H. now rewrite (IH H).
Qed.

Lemma splitChar_app (sep : ascii) (u t : string) :
  count sep u = O ->
  splitChar sep (u ++ String sep t) = u :: splitChar sep t.
Proof.
  induction u as [|c u IH]; cbn.
  - now rewrite Ascii.eqb_refl.
  - destruct (Ascii.eqb c sep); [discriminate|]. cbn.
    intros H. now rewrite (IH H).
Qed.

(** The first piece of a split holds no separator, and it is either the
    whole string or what precedes the first separator. *)
Lemma splitChar_head (sep : ascii) (s u : string) (pieces : list string) :
  splitChar sep s = u :: pieces ->
  count sep u = O
  /\ ((pieces = [] /\ s = u)
      \/ exists t, s = u ++ String sep t /\ splitChar sep t = pieces).
Proof.
  revert u pieces. induction s as [|c s IH]; cbn; intros u pieces.
  - intros [= <- <-]. auto.
  - destruct (Ascii.eqb_spec c sep) as [->|N].
    + intros [= <- <-]. split; [reflexivity|]. right. exists s. auto.
    + destruct (splitChar sep s) as [|l ls] eqn:E; cbn.
      * now apply splitChar_nonempty in E.
      * intros [= <- <-]. destruct (IH l ls eq_refl) as (C & S).
        split.
        { cbn. apply Ascii.eqb_neq in N. now rewrite N. }
        destruct S as [(-> & ->)|(t & -> & S)]; [left; auto|].
        right. exists t. auto.
Qed.

(** The gate of the code, in the words of [PassesGate]. *)
Lemma gate_spec (email user domain : string) :
  PassesGate email user domain <->
  truthy email = true /\ includes "@" email = true
  /\ truthy user = true /\ truthy domain = true
  /\ exists pieces, splitChar "@"%char email = user :: domain :: pieces.
Proof.
  unfold PassesGate. rewrite !truthy_true. split.
  - intros (U & D & CU & CD & E).
    assert (S : exists pieces,
               splitChar "@"%char email = user :: domain :: pieces).
    { destruct E as [->|(tail & ->)]; cbn [append].
      - rewrite (splitChar_app _ _ _ CU), (splitChar_no_sep _ _ CD). eauto.
      - rewrite (splitChar_app _ _ _ CU), (splitChar_app _ _ _ CD). eauto. }
    destruct S as (pieces & S).
    assert (N : email <> "").
    { destruct E as [->|(tail & ->)]; destruct user; cbn; congruence. }
    repeat split; auto; [|eauto].
    apply includes_char.
    destruct (splitChar_head _ _ _ _ S) as (_ & [(F & _)|(t & -> & _)]);
      [discriminate|].
    clear. induction user as [|c u IH]; cbn; [discriminate|lia].
  - intros (_ & _ & U & D & pieces & S). split; [exact U|]. split; [exact D|].
    destruct (splitChar_head _ _ _ _ S) as (CU & [(F & _)|(t & -> & S')]);
      [discriminate|].
    destruct (splitChar_head _ _ _ _ S') as (CD & [(_ & ->)|(t' & -> & _)]).
    + repeat split; auto.
    + repeat split; auto. right. exists t'. reflexivity.
Qed.

Lemma lookupAndProbe_keeps_domain (email dom d : string) (options : Options) :
  preserves (observes (fun r _ => domain r = Some d))
    (lookupAndProbe email dom options).
Proof.
  unfold lookupAndProbe, smtpConversation, classifyTarget, sendRcptTo.
  frame.
Qed.

(** C5, amended.  [verifyEmail] goes past the syntax gate, recording the
    domain in [results], exactly when the string starts with a non-empty
    text without ['@'], an ['@'], and a second non-empty text that ends at
    the end of the string or at the next ['@']; on every other string it
    returns at once the verdict INVALID with reason "Invalid email syntax",
    and nothing but [results] has changed: no query, no connection. *)
Theorem verifyEmail_syntax_gate (email : string) (options : Options)
  (m : Machine) :
  ((forall user dom, ~ PassesGate email user dom) ->
   verifyEmail email options m
   = (Ret (invalidSyntaxVerdict email),
      set_results (invalidSyntaxVerdict email) m))
  /\ (forall user dom, PassesGate email user dom ->
      domain (results (snd (verifyEmail email options m))) = Some dom).
Proof.
  split.
  - intros N. unfold verifyEmail, bind at 1. cbn [modify].
    destruct (truthy email) eqn:T; [|reflexivity].
    destruct (includes "@" email) eqn:I; [|reflexivity]. cbn [negb orb].
    destruct (splitChar "@"%char email) as [|user [|dom pieces]] eqn:S;
      try reflexivity.
    destruct (truthy user) eqn:U; [|reflexivity].
    destruct (truthy dom) eqn:D; [|reflexivity].
    exfalso. apply (N user dom), gate_spec. eauto 10.
  - intros user dom G. apply gate_spec in G.
    destruct G as (T & I & U & D & pieces & S).
    unfold verifyEmail, bind at 1. cbn [modify]. rewrite T, I, S, U, D.
    cbn [negb orb].
    set (m1 := set_results (initialResults email) m).
    pose proof (lookupAndProbe_keeps_domain email dom dom options
                  (set_results (set_domain dom (results m1)) m1) eq_refl) as K.
    unfold bind, updResults, modify, get.
    destruct (lookupAndProbe email dom options _) as [[[]|e|] m2];
      exact K.
Qed.

Lemma verifyEmail_syntax_gate_witness :
  PassesGate "user@example.com@x" "user" "example.com"
  /\ domain
       (results
          (snd (verifyEmail "user@example.com@x" defaultOptions
                  (peerAnswering "550 5.1.1 No such user" "250 2.1.5 Ok"))))
     = Some "example.com".
Proof.
  assert (G : PassesGate "user@example.com@x" "user" "example.com").
  { unfold PassesGate. repeat split; try discriminate; try reflexivity.
    right. exists "x". reflexivity. }
  split; [exact G|].
  exact (proj2 (verifyEmail_syntax_gate _ _ _) _ _ G).
Defined.

(** C5 as stated fails: a string with two ['@'] goes past the gate.  The
    domain is recorded, the resolver is queried, the exchanger is
    connected to, and the verdict is the one of the SMTP conversation. *)
Lemma verifyEmail_passes_gate_with_two_ats :
  count "@"%char "user@example.com@x" = 2%nat
  /\ fst (verifyEmail "user@example.com@x" defaultOptions
            (peerAnswering "550 5.1.1 No such user" "250 2.1.5 Ok"))
     = Ret (mkVerdict "user@example.com@x" (Some "example.com")
              (Some "mx.example.com") VALID
              (Some "Recipient accepted (and domain not Catch-All)")
              (mkDetails (Some 250) (Some "Ok") false false))
  /\ trace (snd (verifyEmail "user@example.com@x" defaultOptions
                   (peerAnswering "550 5.1.1 No such user" "250 2.1.5 Ok")))
     = [EvDnsQuery PRIMARY_SERVERS "example.com";
        EvConnect "mx.example.com" 25;
        EvWrite ("EHLO verify.example.com" ++ CRLF);
        EvWrite ("MAIL FROM:<verify@example.com>" ++ CRLF);
        EvWrite ("RCPT TO:<verify-0123456789ab@example.com>" ++ CRLF);
        EvRcptReply "verify-0123456789ab@example.com"
          (mkSmtpResponse 550 (Some "5.1.1") "No such user"
             ["550 5.1.1 No such user"] PERMANENT_FAIL);
        EvWrite ("RCPT TO:<user@example.com@x>" ++ CRLF);
        EvRcptReply "user@example.com@x"
          (mkSmtpResponse 250 (Some "2.1.5") "Ok" ["250 2.1.5 Ok"] SUCCESS);
        EvWrite ("QUIT" ++ CRLF);
        EvClose].
Proof. repeat split; vm_compute; reflexivity. Qed.

(* ===================================================================== *)
(** ** The reason of a verdict *)
(* ===================================================================== *)

(** C7, at the failing input.  When the target RCPT TO is answered with a
    3xx code (INTERMEDIATE), or with a code outside 200..599
    (PROTOCOL_ERROR), and the probe was not greylisted, no branch of the
    final classification assigns [reason]: the verdict is returned with
    status UNKNOWN and a [null] reason. *)
Theorem verifyEmail_null_reason :
  option_map classification (parseSmtpResponse ("354 Start mail input" ++ CRLF))
  = Some INTERMEDIATE
  /\ fst (verifyEmail "user@example.com" defaultOptions
            (peerAnswering "550 5.1.1 No such user" "354 Start mail input"))
     = Ret (mkVerdict "user@example.com" (Some "example.com")
              (Some "mx.example.com") UNKNOWN None
              (mkDetails (Some 354) (Some "Start mail input") false false))
  /\ option_map classification (parseSmtpResponse ("199 Odd" ++ CRLF))
     = Some PROTOCOL_ERROR
  /\ fst (verifyEmail "user@example.com" defaultOptions
            (peerAnswering "250 2.1.5 Ok" "199 Odd"))
     = Ret (mkVerdict "user@example.com" (Some "example.com")
              (Some "mx.example.com") UNKNOWN None
              (mkDetails (Some 199) (Some "Odd") true false)).
Proof. repeat split; vm_compute; reflexivity. Qed.

(** The error paths do populate the reason: the error message, prefixed. *)
Example verifyEmail_smtp_error_reason :
  fst (verifyEmail "user@example.com" defaultOptions
         (idle oneMx (ConnectFailed (newError "Connection timeout after 5000ms"))
            [] "0123456789ab"))
  = Ret (mkVerdict "user@example.com" (Some "example.com")
           (Some "mx.example.com") UNKNOWN
           (Some "SMTP Error: Connection timeout after 5000ms")
           (mkDetails None None false false)).
Proof. vm_compute. reflexivity. Qed.

(* ===================================================================== *)
(** ** The catch-all verdict *)
(* ===================================================================== *)

Lemma BrokeOff_invariant (email : string)
  (before : list (string * SmtpResponse)) (r : Verdict)
  (t : list (string * SmtpResponse)) :
  BrokeOff before r t -> CatchAllInvariant email before r t.
Proof.
  intros (S & T). unfold CatchAllInvariant. rewrite S.
  split; [discriminate|]. split; [discriminate|].
  split; [discriminate|].
  intros (ne & nr & tr & E & _). exfalso.
  destruct T as [->|(x & ->)].
  - apply (f_equal (@length _)) in E. rewrite length_app in E. cbn in E. lia.
  - apply app_inv_head in E. discriminate.
Qed.

Lemma Untouched_BrokeOff (before : list (string * SmtpResponse)) (r : Verdict)
  (t : list (string * SmtpResponse)) :
  At Untouched before r t -> BrokeOff before r t.
Proof. intros ((S & _) & ->). split; auto. Qed.

(** [sendRcptTo] leaves [results] alone and records the response it
    returns, and nothing when it does not return. *)
Lemma hoare_sendRcptTo (R : Verdict -> Prop)
  (t : list (string * SmtpResponse)) (recipientEmail : string) :
  hoare (observes (At R t)) (sendRcptTo recipientEmail)
    (fun o =>
       observes (At R (match o with
                       | Ret response => t ++ [(recipientEmail, response)]
                       | _ => t
                       end))).
Proof.
  unfold sendRcptTo.
  apply hoare_frame_bind; [frame|intros c|auto|auto].
  destruct (_ && _); [intros m H; exact H|].
  apply hoare_frame_bind; [frame|intros _|auto|auto].
  apply hoare_frame_bind; [frame|intros response|auto|auto].
  intros m (HR & HT). unfold observes, At in *. cbn.
  rewrite rcptReplies_app, HT. auto.
Qed.

(** The inner [try] block: a verdict that satisfies C6 when it completes,
    and no verdict when it throws or stays pending. *)
Lemma smtpConversation_post (email dom sender : string) (options : Options)
  (before : list (string * SmtpResponse)) :
  hoare (observes (At Untouched before))
    (smtpConversation email dom sender options)
    (fun o =>
       observes (match o with
                 | Ret _ => CatchAllInvariant email before
                 | _ => BrokeOff before
                 end)).
Proof.
  unfold smtpConversation.
  assert (U : forall m, observes (At Untouched before) m ->
                        observes (BrokeOff before) m).
  { intros m. apply Untouched_BrokeOff. }
  apply hoare_frame_bind; [frame|intros _|auto|auto].
  apply hoare_frame_bind; [frame|intros _|auto|auto].
  apply hoare_frame_bind; [frame|intros _|auto|auto].
  apply hoare_frame_bind; [frame|intros nonceEmail|auto|auto].
  eapply hoare_bind; [apply hoare_sendRcptTo|intros nonceRes|auto|auto].
  apply (hoare_bind _ _ _
           (fun _ => observes (At (Probed nonceRes)
                                 (before ++ [(nonceEmail, nonceRes)])))).
  - intros m ((S & C & G) & T). unfold observes, At, Probed in *.
    destruct (classification nonceRes) eqn:K; cbn; rewrite ?S, ?C, ?G, T;
      intuition congruence.
  - intros _.
    eapply hoare_bind; [apply hoare_sendRcptTo|intros targetRes| |].
    + intros m ((S & C & G) & T).
      unfold observes, At, CatchAllInvariant, BothAccepted in *. cbn.
      assert (J : forall ne nr tr,
                 ((before ++ [(nonceEmail, nonceRes)]) ++ [(email, targetRes)]
                  = before ++ [(ne, nr); (email, tr)])%list ->
                 nr = nonceRes /\ tr = targetRes).
      { intros ne nr tr E. rewrite <- app_assoc in E.
        apply app_inv_head in E. now injection E. }
      destruct (greylisted (details (results m))) eqn:Gr;
        destruct (classification targetRes) eqn:Kt;
        destruct (catchAllActive (details (results m))) eqn:Ca;
        cbn; rewrite ?S, ?Ca, T;
        (split; [try discriminate; auto|]);
        (split; [try discriminate; auto|]);
        (split; [try discriminate|]);
        try (intros (ne & nr & tr & E & K1 & K2);
             destruct (J _ _ _ E) as (-> & ->);
             solve [congruence | intuition congruence]);
        try (intros _; exists nonceEmail, nonceRes, targetRes;
             rewrite <- app_assoc; intuition congruence).
    + intros e m ((S & _) & T). split; [exact S|]. right. eauto.
    + intros m ((S & _) & T). split; [exact S|]. right. eauto.
  - intros e m ((S & _) & T). split; [exact S|]. right. eauto.
  - intros m ((S & _) & T). split; [exact S|]. right. eauto.
Qed.

Lemma hoare_tryCatch {A : Type} (P : Machine -> Prop) (body : M A)
  (handler : JsError -> M A) (Q1 Q : Outcome A -> Machine -> Prop) :
  hoare P body Q1 ->
  (forall e, hoare (Q1 (Throw e)) (handler e) Q) ->
  (forall a m, Q1 (Ret a) m -> Q (Ret a) m) ->
  (forall m, Q1 Pending m -> Q Pending m) ->
  hoare P (tryCatch body handler) Q.
Proof.
  intros Hb Hh Hr Hp m H. unfold tryCatch. specialize (Hb m H).
  destruct (body m) as [[a|e|] m']; cbn in *; auto. now apply Hh.
Qed.

Lemma hoare_tryFinally {A : Type} (P I : Machine -> Prop) (body : M A)
  (final : M unit) :
  hoare P body (fun _ => I) -> preserves I final ->
  hoare P (tryFinally body final) (fun _ => I).
Proof.
  intros Hb Hf m H. unfold tryFinally. specialize (Hb m H).
  destruct (body m) as [[a|e|] m']; cbn in *; auto;
    specialize (Hf m' Hb); destruct (final m') as [[[]|e'|] m'']; cbn in *; auto.
Qed.

(** Without a second response to RCPT TO and without an acceptance verdict,
    C6 holds. *)
Lemma short_invariant (email : string)
  (before : list (string * SmtpResponse)) (r : Verdict) :
  At (fun r => status r <> CATCH_ALL /\ status r <> VALID) before r before ->
  CatchAllInvariant email before r before.
Proof.
  intros ((N1 & N2) & _). unfold CatchAllInvariant.
  split; [congruence|]. split; [congruence|]. split; [congruence|].
  intros (ne & nr & tr & E & _). exfalso.
  apply (f_equal (@length _)) in E. rewrite length_app in E. cbn in E. lia.
Qed.

(** The outer [try] block ends in a verdict that satisfies C6. *)
Lemma lookupAndProbe_post (email dom : string) (options : Options)
  (before : list (string * SmtpResponse)) :
  hoare (observes (At Untouched before)) (lookupAndProbe email dom options)
    (fun _ => observes (CatchAllInvariant email before)).
Proof.
  unfold lookupAndProbe.
  assert (U : forall m, observes (At Untouched before) m ->
                        observes (CatchAllInvariant email before) m).
  { intros m H. apply BrokeOff_invariant, Untouched_BrokeOff, H. }
  apply (hoare_tryCatch _ _ _
           (fun _ => observes (CatchAllInvariant email before)));
    [|intros e m H; exact H|auto|auto].
  apply hoare_frame_bind; [frame|intros mxResult|auto|auto].
  destruct (_ || _).
  - intros m ((S & C & G) & T). unfold observes in *. cbn. rewrite T.
    apply short_invariant. split; [split; discriminate|reflexivity].
  - destruct (records mxResult) as [|mxRecord others]; [intros m H; cbn; auto|].
    apply (hoare_bind _ _ _ (fun _ => observes (At Untouched before)));
      [intros m H; exact H|intros _|auto|auto].
    apply hoare_frame_bind; [frame|intros _|auto|auto].
    apply hoare_tryFinally; [|apply frame_quit].
    eapply hoare_tryCatch; [apply smtpConversation_post| | |].
    + intros e m H. apply BrokeOff_invariant. exact H.
    + intros a m H. exact H.
    + intros m H. apply BrokeOff_invariant. exact H.
Qed.

(** C6. In every verdict [verifyEmail] returns, CATCH_ALL comes with
    [catchAllActive = true] and VALID with [catchAllActive = false], and
    the status is CATCH_ALL exactly when the run got two responses to
    RCPT TO, the probe's and the target's, both classified SUCCESS. *)
Theorem verifyEmail_catch_all (email : string) (options : Options)
  (m m' : Machine) (r : Verdict) :
  verifyEmail email options m = (Ret r, m') ->
  (status r = CATCH_ALL -> catchAllActive (details r) = true)
  /\ (status r = VALID -> catchAllActive (details r) = false)
  /\ (status r = CATCH_ALL <->
      BothAccepted email (rcptReplies (trace m)) (rcptReplies (trace m'))).
Proof.
  intros E.
  assert (Gate : CatchAllInvariant email (rcptReplies (trace m))
                   (invalidSyntaxVerdict email) (rcptReplies (trace m))).
  { apply short_invariant. split; [split; discriminate|reflexivity]. }
  revert E. unfold verifyEmail, bind at 1. cbn [modify].
  set (m1 := set_results (initialResults email) m).
  destruct (negb (truthy email) || negb (includes "@" email));
    [intros [= <- <-]; exact Gate|].
  destruct (splitChar "@"%char email) as [|user [|dom pieces]];
    try (intros [= <- <-]; exact Gate).
  destruct (negb (truthy user) || negb (truthy dom));
    [intros [= <- <-]; exact Gate|].
  pose proof (lookupAndProbe_post email dom options (rcptReplies (trace m))
                (set_results (set_domain dom (results m1)) m1)) as K.
  unfold bind, updResults, modify, get.
  destruct (lookupAndProbe email dom options _) as [[[]|e|] m2];
    try discriminate.
  intros [= <- <-]. apply K. repeat split.
Qed.

(** A domain that accepts every recipient: both RCPT TO are answered 250
    and the verdict is CATCH_ALL with [catchAllActive = true]. *)
Lemma verifyEmail_catch_all_witness :
  status (results (snd (verifyEmail "user@example.com" defaultOptions
                          (peerAnswering "250 2.1.5 Ok" "250 2.1.5 Ok"))))
  = CATCH_ALL
  /\ catchAllActive
       (details (results (snd (verifyEmail "user@example.com" defaultOptions
                                 (peerAnswering "250 2.1.5 Ok" "250 2.1.5 Ok")))))
     = true.
Proof.
  set (run := verifyEmail "user@example.com" defaultOptions
                (peerAnswering "250 2.1.5 Ok" "250 2.1.5 Ok")).
  assert (E : run = (Ret (results (snd run)), snd run))
    by (vm_compute; reflexivity).
  assert (S : status (results (snd run)) = CATCH_ALL)
    by (vm_compute; reflexivity).
  split; [exact S|].
  exact (proj1 (verifyEmail_catch_all _ _ _ _ _ E) S).
Defined.

(* ===================================================================== *)
(** ** More on the resolver *)
(* ===================================================================== *)

(** X1. [classifyError] never answers NO_MX_RECORDS, so of the three kinds
    the retry loop treats as hard only HARD_FAIL and INVALID_DOMAIN can
    stop it. *)
Theorem classifyError_hard_kinds (err : JsError) :
  classifyError err <> NO_MX_RECORDS
  /\ (isHardFail (classifyError err) = true <->
      classifyError err = HARD_FAIL \/ classifyError err = INVALID_DOMAIN).
Proof.
  pose proof (classifyError_never_NO_MX_RECORDS err) as N.
  split; [exact N|].
  destruct (classifyError err); cbn; split; intros H;
    try discriminate; try congruence; auto;
    destruct H; discriminate.
Qed.

(** X2. A query that fails with an error classified HARD_FAIL or
    INVALID_DOMAIN ends both [resolveMX] and [resolveMXWithFallback] after
    that one query: no retry, no back-off, no further tier, and the error
    is rethrown with its kind. *)
Theorem hard_fail_ends_resolution (domain : string) (nameServers : list string)
  (retries : Z) (m : Machine) (err : JsError) (rest : list QueryOutcome) :
  isValidDomain domain = true ->
  0 <= retries ->
  dnsScript m = QReject err :: rest ->
  classifyError err = HARD_FAIL \/ classifyError err = INVALID_DOMAIN ->
  resolveMX domain (mkResolveOptions (Some nameServers) (Some retries)) m
  = (Throw (hardFailure err), afterOneQuery nameServers domain rest m)
  /\ resolveMXWithFallback domain noOptions m
     = (Throw (hardFailure err), afterOneQuery PRIMARY_SERVERS domain rest m)
  /\ e_type (hardFailure err) = Some (classifyError err).
Proof.
  intros V R E K.
  assert (H : isHardFail (classifyError err) = true)
    by (destruct K as [-> | ->]; reflexivity).
  split; [now apply resolveMX_hard_fail_stops|].
  split; [now apply resolveMXWithFallback_hard_fail_stops|reflexivity].
Qed.

Lemma hard_fail_ends_resolution_witness :
  resolveMXWithFallback "example.com" noOptions
    (idle [QReject (mkJsError "queryMx ENOTFOUND example.com"
                      (Some "ENOTFOUND") None None)]
       (Connected "") [] "0123456789ab")
  = (Throw (hardFailure (mkJsError "queryMx ENOTFOUND example.com"
                           (Some "ENOTFOUND") None None)),
     afterOneQuery PRIMARY_SERVERS "example.com" []
       (idle [QReject (mkJsError "queryMx ENOTFOUND example.com"
                         (Some "ENOTFOUND") None None)]
          (Connected "") [] "0123456789ab")).
Proof.
  refine (proj1 (proj2 (hard_fail_ends_resolution "example.com"
                          PRIMARY_SERVERS 2 _ _ [] _ _ _ _)));
    try reflexivity; [discriminate|left; reflexivity].
Defined.

(** The records [queryMX] builds are never empty and carry an exchange
    and a priority each. *)
Lemma toMxRecords_fields (answers : list Answer) :
  Forall (fun x => exchange x <> "" /\ priority x <> None)
    (toMxRecords answers).
Proof.
  unfold toMxRecords. apply Forall_forall. intros x I.
  apply filter_In in I. destruct I as (I & T).
  apply truthy_true in T. split; [exact T|].
  apply in_map_iff in I. destruct I as (a & <- & _). discriminate.
Qed.

Lemma sortMXByPriority_good (recs : list MXRecord) :
  recs <> [] ->
  Forall (fun x => exchange x <> "" /\ priority x <> None) recs ->
  GoodRecords (sortMXByPriority recs).
Proof.
  intros N F.
  assert (E : sortMXByPriority recs = sort comparePriority recs)
    by (destruct recs; reflexivity).
  rewrite E. pose proof (sort_perm priorityOr65535 recs) as P.
  split; [|split].
  - intros Z. change (sort comparePriority recs = []) in Z.
    unfold comparePriority in Z. rewrite Z in P.
    apply Permutation_nil in P. contradiction.
  - eapply Permutation_Forall; [symmetry; exact P|exact F].
  - apply (sort_sorted priorityOr65535).
Qed.


Lemma hoare_conseq {A : Type} (P P' : Machine -> Prop) (c : M A)
  (Q Q' : Outcome A -> Machine -> Prop) :
  hoare P' c Q' -> (forall m, P m -> P' m) ->
  (forall o m, Q' o m -> Q o m) -> hoare P c Q.
Proof. intros H HP HQ m Hm. apply HQ, H, HP, Hm. Qed.

Lemma queryMX_settles (domain : string) (nameServers : list string) :
  hoare (fun _ => True) (queryMX domain nameServers) settlesWell.
Proof.
  intros m _. unfold queryMX, raceQuery, bind, emit, modify, get.
  cbn -[toMxRecords sortMXByPriority].
  destruct (dnsScript m) as [|[answers|e] rest];
    cbn -[toMxRecords sortMXByPriority]; auto.
  destruct answers as [[|a l]|]; cbn -[toMxRecords sortMXByPriority]; auto.
  destruct (toMxRecords (a :: l)) as [|x xs] eqn:E;
    cbn -[toMxRecords sortMXByPriority]; auto.
  apply sortMXByPriority_good; [discriminate|].
  rewrite <- E. apply toMxRecords_fields.
Qed.

Lemma resolveMX_loop_settles (remaining : nat) (domain : string)
  (nameServers : list string) (maxAttempts attempt : Z)
  (lastError : option JsError) :
  hoare (fun _ => True)
    (resolveMX_loop remaining domain nameServers maxAttempts attempt lastError)
    settlesWell.
Proof.
  revert attempt lastError.
  induction remaining as [|n IH]; intros attempt lastError;
    cbn [resolveMX_loop].
  - destruct lastError; intros m _; exact I.
  - eapply hoare_tryCatch; [apply queryMX_settles| |auto|auto].
    intros e. destruct (isHardFail _); [intros m _; exact I|].
    apply (hoare_bind _ _ _ (fun o _ => o <> Pending)).
    + intros m _. destruct (_ <? _); discriminate.
    + intros []. eapply hoare_conseq; [apply IH|intros; exact I|auto].
    + intros; exact I.
    + intros m H. now apply H.
Qed.

Lemma resolveMX_settles (domain : string) (options : ResolveOptions) :
  hoare (fun _ => True) (resolveMX domain options) settlesWell.
Proof.
  unfold resolveMX. destruct (negb _); [intros m _; exact I|].
  apply resolveMX_loop_settles.
Qed.

Lemma resolveChain_settles (domain : string) (options : ResolveOptions)
  (chain : list (list string)) (lastError : option JsError) :
  hoare (fun _ => True) (resolveChain domain options chain lastError)
    settlesWell.
Proof.
  revert lastError.
  induction chain as [|tier chain IH]; intros lastError; cbn [resolveChain].
  - intros m _. exact I.
  - eapply hoare_tryCatch; [apply resolveMX_settles| |auto|auto].
    intros e. destruct (stopsChain e); [intros m _; exact I|apply IH].
Qed.

(** X3. [getMXRecords] always resolves, never rejects and never stays
    pending; a success carries a non-empty list of records, each with an
    exchange and a priority, in ascending order of the sort key, and a
    failure carries no record and an error. *)
Theorem getMXRecords_resolves (domain : string) (options : ResolveOptions)
  (m : Machine) :
  exists res,
    fst (getMXRecords domain options m) = Ret res
    /\ WellFormedResult domain res.
Proof.
  unfold getMXRecords, tryCatch, bind, resolveMXWithFallback.
  pose proof (resolveChain_settles domain options resolverChain None m I) as H.
  destruct (resolveChain domain options resolverChain None m)
    as [[recs|e|] m1]; cbn in H |- *; [| |contradiction].
  - eexists. split; [reflexivity|]. unfold WellFormedResult. cbn.
    split; [reflexivity|]. split; [reflexivity|]. left. auto.
  - eexists. split; [reflexivity|]. unfold WellFormedResult. cbn.
    split; [reflexivity|]. split; [reflexivity|]. right.
    split; [reflexivity|]. split; [reflexivity|discriminate].
Qed.

(** X4. An address that passes the syntax gate with a malformed domain is
    reported INVALID with reason "No MX records found" at once: the domain
    is rejected before any query is sent, the chain of tiers stops on the
    INVALID_DOMAIN error, and no connection is opened; nothing but
    [results] has changed. *)
Theorem verifyEmail_malformed_domain (email user dom : string)
  (options : Options) (m : Machine) :
  PassesGate email user dom ->
  isValidDomain dom = false ->
  verifyEmail email options m
  = (Ret (mkVerdict email (Some dom) None INVALID (Some "No MX records found")
            (mkDetails None None false false)),
     set_results
       (mkVerdict email (Some dom) None INVALID (Some "No MX records found")
          (mkDetails None None false false)) m).
Proof.
  intros G V. apply gate_spec in G.
  destruct G as (T & I & U & D & pieces & S).
  unfold verifyEmail, bind at 1. cbn [modify]. rewrite T, I, S, U, D.
  cbn [negb orb].
  unfold lookupAndProbe, getMXRecords, tryCatch, bind, updResults, modify, get.
  rewrite (resolveMXWithFallback_invalid_domain _ _ V). reflexivity.
Qed.

Lemma verifyEmail_malformed_domain_witness :
  verifyEmail "user@localhost" defaultOptions
    (peerAnswering "250 2.1.5 Ok" "250 2.1.5 Ok")
  = (Ret (mkVerdict "user@localhost" (Some "localhost") None INVALID
            (Some "No MX records found") (mkDetails None None false false)),
     set_results
       (mkVerdict "user@localhost" (Some "localhost") None INVALID
          (Some "No MX records found") (mkDetails None None false false))
       (peerAnswering "250 2.1.5 Ok" "250 2.1.5 Ok")).
Proof.
  apply (verifyEmail_malformed_domain _ "user" "localhost").
  - unfold PassesGate. repeat split; try discriminate; try reflexivity.
    left. reflexivity.
  - reflexivity.
Defined.

Lemma queriedServers_app (t u : list Event) :
  queriedServers (t ++ u) = (queriedServers t ++ queriedServers u)%list.
Proof.
  induction t as [|e t IH]; [reflexivity|].
  destruct e; cbn; rewrite ?IH; reflexivity.
Qed.






Lemma queryMX_reject (domain : string) (nameServers : list string)
  (m : Machine) (e : JsError) (rest : list QueryOutcome) :
  dnsScript m = QReject e :: rest ->
  queryMX domain nameServers m
  = (Throw e, afterOneQuery nameServers domain rest m).
Proof.
  intros E. unfold queryMX, raceQuery, bind, emit, modify, get. cbn.
  rewrite E. reflexivity.
Qed.

Lemma queryMX_answer (domain : string) (nameServers : list string)
  (m : Machine) (answers : list Answer) (rest : list QueryOutcome) :
  dnsScript m = QResult (Some answers) :: rest ->
  toMxRecords answers <> [] ->
  queryMX domain nameServers m
  = (Ret (sortMXByPriority (toMxRecords answers)),
     afterOneQuery nameServers domain rest m).
Proof.
  intros E N. unfold queryMX, raceQuery, bind, emit, modify, get.
  cbn -[toMxRecords sortMXByPriority]. rewrite E.
  cbn -[toMxRecords sortMXByPriority].
  destruct answers as [|a l]; [now contradiction N|].
  destruct (toMxRecords (a :: l)); [now contradiction N|reflexivity].
Qed.

Lemma afterOneQuery_facts (nameServers : list string) (domain : string)
  (rest : list QueryOutcome) (m : Machine) :
  dnsScript (afterOneQuery nameServers domain rest m) = rest
  /\ queriedServers (trace (afterOneQuery nameServers domain rest m))
     = (queriedServers (trace m) ++ [nameServers])%list.
Proof.
  split; [reflexivity|]. unfold afterOneQuery. cbn [trace set_dnsScript set_trace].
  now rewrite queriedServers_app.
Qed.

Lemma backoff_step (b : bool) (ms : Z) (m1 : Machine) :
  exists m2,
    (if b then emit (EvBackoff ms) else ret tt) m1 = (Ret tt, m2)
    /\ dnsScript m2 = dnsScript m1
    /\ queriedServers (trace m2) = queriedServers (trace m1).
Proof.
  destruct b.
  - eexists. split; [reflexivity|]. split; [reflexivity|].
    cbn [trace set_trace]. rewrite queriedServers_app. cbn [queriedServers].
    apply app_nil_r.
  - exists m1. auto.
Qed.

(** A tier whose queries all fail softly is given up after its last
    attempt, with a SOFT_FAIL error that counts the attempts. *)
Lemma resolveMX_loop_exhausts (es : list JsError) (domain : string)
  (nameServers : list string) (maxAttempts attempt : Z)
  (lastError : option JsError) (m : Machine) (rest : list QueryOutcome) :
  lastError <> None \/ es <> [] ->
  Forall (fun e => isHardFail (classifyError e) = false) es ->
  dnsScript m = (map QReject es ++ rest)%list ->
  exists err m',
    resolveMX_loop (length es) domain nameServers maxAttempts attempt
      lastError m = (Throw err, m')
    /\ e_type err = Some SOFT_FAIL
    /\ e_attempts err = Some maxAttempts
    /\ dnsScript m' = rest
    /\ queriedServers (trace m')
       = (queriedServers (trace m) ++ repeat nameServers (length es))%list.
Proof.
  revert attempt lastError m.
  induction es as [|e es IH]; intros attempt lastError m N F E.
  - destruct lastError as [le|]; [|destruct N; congruence].
    cbn [length resolveMX_loop repeat]. eexists. exists m.
    split; [reflexivity|]. split; [reflexivity|]. split; [reflexivity|].
    split; [exact E|]. now rewrite app_nil_r.
  - inversion F as [|? ? Soft F']; subst.
    change (dnsScript m = QReject e :: (map QReject es ++ rest)%list) in E.
    cbn [length resolveMX_loop]. unfold tryCatch.
    rewrite (queryMX_reject _ _ _ _ _ E). cbv zeta. rewrite Soft.
    unfold bind.
    destruct (backoff_step (attempt + 1 <? maxAttempts)
                (RETRY_DELAY_BASE * 2 ^ (attempt + 1 - 1))
                (afterOneQuery nameServers domain (map QReject es ++ rest) m))
      as (m2 & S2 & D2 & Q2).
    rewrite S2.
    destruct (afterOneQuery_facts nameServers domain
                (map QReject es ++ rest) m) as (D1 & Q1).
    rewrite D1 in D2. rewrite Q1 in Q2.
    assert (N' : Some e <> None \/ es <> []) by (left; discriminate).
    destruct (IH (attempt + 1) (Some e) m2 N' F' D2)
      as (err & m' & R & T & A & D & Q).
    exists err, m'. split; [exact R|]. split; [exact T|]. split; [exact A|].
    split; [exact D|]. rewrite Q, Q2, <- app_assoc. reflexivity.
Qed.

(** X6. When every attempt of a tier fails with an error that is not
    hard, timeouts included, [resolveMX] sends exactly [retries + 1]
    queries to the tier and then throws an error of type SOFT_FAIL whose
    [attempts] is [retries + 1]. *)
Theorem resolveMX_soft_exhaustion (es : list JsError) (domain : string)
  (nameServers : list string) (retries : Z) (m : Machine)
  (rest : list QueryOutcome) :
  isValidDomain domain = true ->
  0 <= retries ->
  Z.of_nat (length es) = retries + 1 ->
  Forall (fun e => isHardFail (classifyError e) = false) es ->
  dnsScript m = (map QReject es ++ rest)%list ->
  exists err m',
    resolveMX domain (mkResolveOptions (Some nameServers) (Some retries)) m
    = (Throw err, m')
    /\ e_type err = Some SOFT_FAIL
    /\ e_attempts err = Some (retries + 1)
    /\ dnsScript m' = rest
    /\ queriedServers (trace m')
       = (queriedServers (trace m) ++ repeat nameServers (length es))%list.
Proof.
  intros V R L F E. unfold resolveMX. cbn [o_nameServers o_retries].
  rewrite V. cbn [negb]. rewrite <- L, Nat2Z.id.
  apply resolveMX_loop_exhausts; auto.
  right. destruct es; [cbn in L; lia|discriminate].
Qed.

Lemma resolveMX_soft_exhaustion_witness :
  exists err m',
    resolveMX "example.com"
      (mkResolveOptions (Some PRIMARY_SERVERS) (Some 1))
      (idle [QReject (newError "DNS query timeout");
             QReject (mkJsError "connect ECONNREFUSED" (Some "ECONNREFUSED")
                        None None)]
         (Connected "") [] "0123456789ab")
    = (Throw err, m')
    /\ e_type err = Some SOFT_FAIL
    /\ e_attempts err = Some (1 + 1)
    /\ dnsScript m' = []
    /\ queriedServers (trace m')
       = ([] ++ repeat PRIMARY_SERVERS 2)%list.
Proof.
  apply (resolveMX_soft_exhaustion
           [newError "DNS query timeout";
            mkJsError "connect ECONNREFUSED" (Some "ECONNREFUSED") None None]
           "example.com" PRIMARY_SERVERS 1
           (idle [QReject (newError "DNS query timeout");
                  QReject (mkJsError "connect ECONNREFUSED"
                             (Some "ECONNREFUSED") None None)]
              (Connected "") [] "0123456789ab") []).
  - reflexivity.
  - lia.
  - reflexivity.
  - repeat constructor.
  - reflexivity.
Defined.

(** X7. Failover: when the three attempts at the primary tier fail softly
    and the first query to the fallback tier is answered with at least one
    usable MX record, [resolveMXWithFallback] resolves with those records,
    sorted, after three queries to the primary servers and one to the
    fallback servers. *)
Theorem resolveMXWithFallback_failover (domain : string) (m : Machine)
  (e1 e2 e3 : JsError) (answers : list Answer) (rest : list QueryOutcome) :
  isValidDomain domain = true ->
  dnsScript m
  = QReject e1 :: QReject e2 :: QReject e3 :: QResult (Some answers) :: rest ->
  Forall (fun e => isHardFail (classifyError e) = false) [e1; e2; e3] ->
  toMxRecords answers <> [] ->
  exists m',
    resolveMXWithFallback domain noOptions m
    = (Ret (sortMXByPriority (toMxRecords answers)), m')
    /\ dnsScript m' = rest
    /\ queriedServers (trace m')
       = (queriedServers (trace m)
          ++ [PRIMARY_SERVERS; PRIMARY_SERVERS; PRIMARY_SERVERS;
              FALLBACK_SERVERS])%list.
Proof.
  intros V E F N.
  unfold resolveMXWithFallback, resolverChain. cbn [resolveChain].
  unfold tryCatch at 1. unfold resolveMX at 1.
  cbn [tierOptions noOptions o_nameServers o_retries]. rewrite V. cbn [negb].
  change (Z.to_nat (MAX_RETRIES + 1)) with (length [e1; e2; e3]).
  assert (N' : @None JsError <> None \/ [e1; e2; e3] <> [])
    by (right; discriminate).
  destruct (resolveMX_loop_exhausts [e1; e2; e3] domain PRIMARY_SERVERS
              (MAX_RETRIES + 1) 0 None m
              (QResult (Some answers) :: rest) N' F E)
    as (err & m1 & -> & T & _ & D & Q).
  assert (S : stopsChain err = false) by (unfold stopsChain; now rewrite T).
  rewrite S. unfold tryCatch, resolveMX.
  cbn [tierOptions noOptions o_nameServers o_retries]. rewrite V. cbn [negb].
  change (Z.to_nat (MAX_RETRIES + 1)) with 3%nat. cbn [resolveMX_loop].
  unfold tryCatch. rewrite (queryMX_answer _ _ _ _ _ D N).
  eexists. split; [reflexivity|]. split; [reflexivity|].
  cbn. rewrite queriedServers_app, Q, <- app_assoc. reflexivity.
Qed.

Lemma resolveMXWithFallback_failover_witness :
  exists m',
    resolveMXWithFallback "example.com" noOptions
      (idle [QReject (mkJsError "SERVFAIL" (Some "SERVFAIL") None None);
             QReject (mkJsError "SERVFAIL" (Some "SERVFAIL") None None);
             QReject (mkJsError "SERVFAIL" (Some "SERVFAIL") None None);
             QResult (Some [mkAnswer 15 (Some "mx.example.com") (Some 10) None])]
         (Connected "") [] "0123456789ab")
    = (Ret (sortMXByPriority
              (toMxRecords
                 [mkAnswer 15 (Some "mx.example.com") (Some 10) None])), m')
    /\ dnsScript m' = []
    /\ queriedServers (trace m')
       = ([] ++ [PRIMARY_SERVERS; PRIMARY_SERVERS; PRIMARY_SERVERS;
                 FALLBACK_SERVERS])%list.
Proof.
  apply (resolveMXWithFallback_failover "example.com"
           (idle [QReject (mkJsError "SERVFAIL" (Some "SERVFAIL") None None);
                  QReject (mkJsError "SERVFAIL" (Some "SERVFAIL") None None);
                  QReject (mkJsError "SERVFAIL" (Some "SERVFAIL") None None);
                  QResult (Some [mkAnswer 15 (Some "mx.example.com") (Some 10)
                                   None])]
              (Connected "") [] "0123456789ab")
           (mkJsError "SERVFAIL" (Some "SERVFAIL") None None)
           (mkJsError "SERVFAIL" (Some "SERVFAIL") None None)
           (mkJsError "SERVFAIL" (Some "SERVFAIL") None None)).
  - reflexivity.
  - reflexivity.
  - repeat constructor.
  - discriminate.
Defined.

Lemma join_cons2 (sep p q : string) (ps : list string) :
  join sep (p :: q :: ps) = p ++ sep ++ join sep (q :: ps).
Proof. reflexivity. Qed.

Lemma join_splitChar (sep : ascii) (s : string) :
  join (String sep "") (splitChar sep s) = s.
Proof.
  induction s as [|c s IH]; [reflexivity|].
  cbn [splitChar]. pose proof (splitChar_nonempty sep s) as N.
  destruct (splitChar sep s) as [|l ls]; [congruence|].
  destruct (Ascii.eqb_spec c sep) as [->|_].
  - rewrite join_cons2, IH. reflexivity.
  - cbn [consHead]. destruct ls as [|l' ls].
    + cbn in *. now rewrite IH.
    + rewrite join_cons2. rewrite join_cons2 in IH.
      cbn [append] in IH |- *. now rewrite IH.
Qed.

Lemma allChars_app (p : ascii -> bool) (s t : string) :
  allChars p (s ++ t) = allChars p s && allChars p t.
Proof.
  induction s as [|c s IH]; [reflexivity|].
  cbn. now rewrite IH, andb_assoc.
Qed.

Lemma allChars_join (p : ascii -> bool) (sep : ascii) (pieces : list string) :
  p sep = true -> Forall (fun l => allChars p l = true) pieces ->
  allChars p (join (String sep "") pieces) = true.
Proof.
  intros S. induction 1 as [|l ls L F IH]; [reflexivity|].
  destruct ls as [|l' ls]; [exact L|].
  change (join (String sep "") (l :: l' :: ls))
    with (l ++ String sep "" ++ join (String sep "") (l' :: ls)).
  rewrite !allChars_app, L, IH. cbn. now rewrite S.
Qed.

Lemma allChars_weaken (p q : ascii -> bool) (s : string) :
  (forall c, p c = true -> q c = true) ->
  allChars p s = true -> allChars q s = true.
Proof.
  intros W. induction s as [|c s IH]; [reflexivity|]. cbn.
  rewrite !andb_true_iff. intros (C & R). auto.
Qed.

Lemma innerThenFinal_chars (inner final p : ascii -> bool) (s : string) :
  (forall c, inner c = true -> p c = true) ->
  (forall c, final c = true -> p c = true) ->
  innerThenFinal inner final s = true -> allChars p s = true.
Proof.
  intros I F. induction s as [|c s IH]; [discriminate|].
  cbn [innerThenFinal allChars]. destruct s as [|c' s].
  - intros H. cbn. now rewrite (F _ H).
  - rewrite andb_true_iff. intros (C & R). now rewrite (I _ C), IH.
Qed.

Lemma validLabel_chars (l : string) :
  validLabel l = true ->
  allChars isLabelChar l = true
  /\ exists c rest, l = String c rest /\ isAlnum c = true.
Proof.
  assert (W : forall c, isAlnum c = true -> isLabelChar c = true)
    by (intros c H; unfold isLabelChar; now rewrite H).
  destruct l as [|c rest]; [discriminate|]. cbn [validLabel].
  destruct rest as [|c' rest].
  - intros H. split; [cbn; now rewrite (W _ H)|eauto].
  - rewrite !andb_true_iff. intros ((C & _) & R). split; [|eauto].
    change (isLabelChar c && allChars isLabelChar (String c' rest) = true).
    rewrite (W _ C). cbn [andb].
    now apply (innerThenFinal_chars isLabelChar isAlnum).
Qed.

Lemma validTld_chars (t : string) :
  validTld t = true -> allChars isLabelChar t = true.
Proof.
  unfold validTld. rewrite andb_true_iff. intros (_ & F).
  induction t as [|c t IH]; [reflexivity|].
  cbn in F |- *. apply andb_true_iff in F. destruct F as (C & F).
  unfold isLabelChar at 1. now rewrite C, IH.
Qed.

Lemma count_app (c : ascii) (s t : string) :
  count c (s ++ t) = (count c s + count c t)%nat.
Proof.
  induction s as [|b s IH]; [reflexivity|]. cbn. rewrite IH. lia.
Qed.

(** X8. A domain [isValidDomain] accepts is 1 to 253 characters long,
    made of letters, digits, hyphens and dots only, holds at least one dot
    and starts with a letter or a digit; so it holds no white space, no
    angle bracket and no line break when it is written to the peer. *)
Theorem isValidDomain_shape (d : string) :
  isValidDomain d = true ->
  (1 <= String.length d <= 253)%nat
  /\ allChars isDomainChar d = true
  /\ (1 <= count "."%char d)%nat
  /\ exists c rest, d = String c rest /\ isAlnum c = true.
Proof.
  unfold isValidDomain, domainRegexTest. rewrite !andb_true_iff.
  intros ((L0 & L1) & R). apply Nat.ltb_lt in L0. apply Nat.leb_le in L1.
  split; [lia|].
  destruct (rev (splitChar "."%char d)) as [|tld [|lbl labels]] eqn:E;
    try discriminate.
  apply andb_true_iff in R. destruct R as (T & F).
  assert (S : splitChar "."%char d = (rev (lbl :: labels) ++ [tld])%list).
  { rewrite <- (rev_involutive (splitChar "."%char d)), E. reflexivity. }
  rewrite forallb_forall in F.
  assert (J := join_splitChar "."%char d).
  split; [|split].
  - rewrite <- J, S. apply allChars_join; [reflexivity|].
    apply Forall_app. split.
    + apply Forall_forall. intros l I. apply in_rev in I.
      apply (allChars_weaken isLabelChar).
      * intros c H. unfold isDomainChar. now rewrite H.
      * apply validLabel_chars, F, I.
    + constructor; [|constructor].
      apply (allChars_weaken isLabelChar); [|now apply validTld_chars].
      intros c H. unfold isDomainChar. now rewrite H.
  - destruct (rev (lbl :: labels)) as [|p0 ps] eqn:P.
    { apply (f_equal (@length _)) in P. rewrite length_rev in P. discriminate. }
    cbn [app] in S.
    destruct (splitChar_head _ _ _ _ S) as (_ & [(X & _)|(t & -> & _)]).
    + destruct ps; discriminate.
    + rewrite count_app. cbn. lia.
  - destruct (rev (lbl :: labels)) as [|p0 ps] eqn:P.
    { apply (f_equal (@length _)) in P. rewrite length_rev in P. discriminate. }
    assert (I : In p0 (lbl :: labels)).
    { apply in_rev. rewrite P. now left. }
    destruct (validLabel_chars _ (F _ I)) as (_ & c & rest & -> & A).
    cbn [app] in S.
    destruct (splitChar_head _ _ _ _ S) as (_ & [(_ & ->)|(t & -> & _)]);
      cbn; eauto.
Qed.

Lemma isValidDomain_shape_witness :
  (1 <= String.length "mail.example.com" <= 253)%nat
  /\ allChars isDomainChar "mail.example.com" = true
  /\ (1 <= count "."%char "mail.example.com")%nat
  /\ exists c rest, "mail.example.com" = String c rest /\ isAlnum c = true.
Proof. apply isValidDomain_shape. reflexivity. Defined.

(* ===================================================================== *)
(** ** More on the session *)
(* ===================================================================== *)

(** X9. [quit] always resolves, also when the socket is gone or when
    writing QUIT fails; it leaves the client DISCONNECTED, leaves no usable
    socket behind, destroys the socket that was usable, and does not touch
    [results]. *)
Theorem quit_releases_socket (m : Machine) :
  fst (quit m) = Ret tt
  /\ socketUsable (snd (quit m)) = false
  /\ c_state (client (snd (quit m))) = DISCONNECTED
  /\ (socketUsable m = true -> destroyed (snd (quit m)) = true)
  /\ results (snd (quit m)) = results m.
Proof.
  unfold quit, closeSocket, _write, tryCatch, bind, get, modify, emit,
    updClient, socketUsable.
  cbn.
  destruct (c_socket (client m)) eqn:S, (destroyed m) eqn:D; cbn;
    rewrite ?S, ?D; cbn; auto;
    destruct (writeScript m) as [|[e|] w]; cbn; rewrite ?S, ?D; cbn;
    rewrite ?andb_false_r; auto.
Qed.

Lemma keeps_state__write (s : STATE) (command : string) :
  preserves (fun m => c_state (client m) = s) (_write command).
Proof. unfold _write. frame. Qed.

Lemma keeps_state__readResponse (s : STATE) :
  preserves (fun m => c_state (client m) = s) _readResponse.
Proof. unfold _readResponse. frame. Qed.

#[local] Hint Resolve keeps_state__write keeps_state__readResponse : frame.

Lemma STATE_eqb_eq (a b : STATE) : STATE_eqb a b = true <-> a = b.
Proof. destruct a, b; cbn; split; congruence. Qed.

Lemma CLASSIFICATION_eqb_eq (a b : CLASSIFICATION) :
  CLASSIFICATION_eqb a b = true <-> a = b.
Proof. destruct a, b; cbn; split; congruence. Qed.

Lemma hoare_pre {A : Type} (P P' : Machine -> Prop) (c : M A)
  (Q : Outcome A -> Machine -> Prop) :
  hoare P' c Q -> (forall m, P m -> P' m) -> hoare P c Q.
Proof. intros H HP m Hm. apply H, HP, Hm. Qed.

Lemma hoare_get {A : Type} (P : Machine -> Prop) (f : Machine -> A) :
  hoare P (get f)
    (fun o m => match o with Ret a => a = f m /\ P m | _ => False end).
Proof. intros m H. cbn. auto. Qed.

Lemma sendHello_progress (hostname : string) (s0 : STATE) :
  hoare (fun m => c_state (client m) = s0) (sendHello hostname)
    (fun o m' =>
       match o with
       | Ret response =>
           s0 = CONNECTED /\ c_state (client m') = HELLO_SENT
           /\ classification response = SUCCESS
       | _ => True
       end).
Proof.
  unfold sendHello.
  eapply hoare_bind; [apply hoare_get|intros c|intros e m []|intros m []].
  destruct (STATE_eqb (c_state c) CONNECTED) eqn:G; cbn [negb];
    [|intros m _; exact I].
  apply STATE_eqb_eq in G.
  apply (hoare_pre _ (fun _ => s0 = CONNECTED));
    [|intros m (-> & H); congruence].
  unfold _write, _readResponse.
  apply hoare_frame_bind; [frame|intros _|auto|auto].
  apply (hoare_bind _ _ _
           (fun _ m => s0 = CONNECTED /\ c_state (client m) = HELLO_SENT));
    [intros m H; split; [exact H|reflexivity]|intros _|auto|auto].
  apply hoare_frame_bind; [frame|intros response0|auto|auto].
  apply hoare_frame_bind; [destruct (_ && _); frame|intros response|auto|auto].
  destruct (CLASSIFICATION_eqb (classification response) SUCCESS) eqn:K;
    cbn [negb]; [|intros m _; exact I].
  apply CLASSIFICATION_eqb_eq in K.
  intros m (H1 & H2). destruct (_ <? _)%nat; cbn; auto.
Qed.

Lemma sendMailFrom_progress (senderEmail : string) (s0 : STATE) :
  hoare (fun m => c_state (client m) = s0) (sendMailFrom senderEmail)
    (fun o m' =>
       match o with
       | Ret response =>
           s0 = HELLO_SENT /\ c_state (client m') = MAIL_FROM_SENT
           /\ classification response = SUCCESS
       | _ => True
       end).
Proof.
  unfold sendMailFrom.
  eapply hoare_bind; [apply hoare_get|intros c|intros e m []|intros m []].
  destruct (STATE_eqb (c_state c) HELLO_SENT) eqn:G; cbn [negb];
    [|intros m _; exact I].
  apply STATE_eqb_eq in G.
  apply (hoare_pre _ (fun _ => s0 = HELLO_SENT));
    [|intros m (-> & H); congruence].
  unfold _write, _readResponse.
  apply hoare_frame_bind; [frame|intros _|auto|auto].
  apply hoare_frame_bind; [frame|intros response|auto|auto].
  destruct (CLASSIFICATION_eqb (classification response) SUCCESS) eqn:K;
    cbn [negb]; [|intros m _; exact I].
  apply CLASSIFICATION_eqb_eq in K.
  intros m H. cbn. auto.
Qed.

Lemma sendRcptTo_progress (recipientEmail : string) (s0 : STATE) :
  hoare (fun m => c_state (client m) = s0) (sendRcptTo recipientEmail)
    (fun o m' =>
       match o with
       | Ret response =>
           (s0 = MAIL_FROM_SENT \/ s0 = RCPT_TO_SENT)
           /\ c_state (client m') = RCPT_TO_SENT
       | _ => True
       end).
Proof.
  unfold sendRcptTo.
  eapply hoare_bind; [apply hoare_get|intros c|intros e m []|intros m []].
  destruct (STATE_eqb (c_state c) MAIL_FROM_SENT) eqn:G1;
    destruct (STATE_eqb (c_state c) RCPT_TO_SENT) eqn:G2; cbn [negb andb];
    try (intros m _; exact I);
    (apply (hoare_pre _ (fun _ => s0 = MAIL_FROM_SENT \/ s0 = RCPT_TO_SENT));
     [|intros m (-> & H);
       first [apply STATE_eqb_eq in G1; left; congruence
             |apply STATE_eqb_eq in G2; right; congruence]]);
    unfold _write, _readResponse;
    (apply hoare_frame_bind; [frame|intros _|auto|auto]);
    (apply hoare_frame_bind; [frame|intros response|auto|auto]);
    intros m H; cbn; auto.
Qed.

(** X10. The session state machine.  [sendHello] resolves only from
    CONNECTED, only with a response classified SUCCESS, and leaves the
    client in HELLO_SENT; [sendMailFrom] resolves only from HELLO_SENT,
    only with a SUCCESS response, and leaves MAIL_FROM_SENT; [sendRcptTo]
    resolves only from MAIL_FROM_SENT or RCPT_TO_SENT, with whatever the
    peer answered, and leaves RCPT_TO_SENT.  Called in any other state,
    each method throws and the machine is untouched: nothing is written. *)
Theorem session_state_machine (m : Machine) (arg : string) :
  (forall r m', sendHello arg m = (Ret r, m') ->
     c_state (client m) = CONNECTED /\ c_state (client m') = HELLO_SENT
     /\ classification r = SUCCESS)
  /\ (forall r m', sendMailFrom arg m = (Ret r, m') ->
       c_state (client m) = HELLO_SENT
       /\ c_state (client m') = MAIL_FROM_SENT
       /\ classification r = SUCCESS)
  /\ (forall r m', sendRcptTo arg m = (Ret r, m') ->
       (c_state (client m) = MAIL_FROM_SENT
        \/ c_state (client m) = RCPT_TO_SENT)
       /\ c_state (client m') = RCPT_TO_SENT)
  /\ (c_state (client m) <> CONNECTED ->
      sendHello arg m
      = (Throw (newError "Must connect before sending HELLO"), m))
  /\ (c_state (client m) <> HELLO_SENT ->
      sendMailFrom arg m
      = (Throw (newError "Must send HELLO before MAIL FROM"), m))
  /\ (c_state (client m) <> MAIL_FROM_SENT ->
      c_state (client m) <> RCPT_TO_SENT ->
      sendRcptTo arg m
      = (Throw (newError "Must send MAIL FROM before RCPT TO"), m)).
Proof.
  split; [|split; [|split; [|split; [|split]]]].
  - intros r m' E.
    pose proof (sendHello_progress arg _ m eq_refl) as H.
    rewrite E in H. cbn in H. intuition congruence.
  - intros r m' E.
    pose proof (sendMailFrom_progress arg _ m eq_refl) as H.
    rewrite E in H. cbn in H. intuition congruence.
  - intros r m' E.
    pose proof (sendRcptTo_progress arg _ m eq_refl) as H.
    rewrite E in H. cbn in H. intuition congruence.
  - intros N. unfold sendHello, bind, get.
    destruct (c_state (client m)); try reflexivity. congruence.
  - intros N. unfold sendMailFrom, bind, get.
    destruct (c_state (client m)); try reflexivity. congruence.
  - intros N1 N2. unfold sendRcptTo, bind, get.
    destruct (c_state (client m)); try reflexivity; congruence.
Qed.

Lemma session_state_machine_witness :
  sendMailFrom "verify@example.com"
    (peerAnswering "250 2.1.5 Ok" "250 2.1.5 Ok")
  = (Throw (newError "Must send HELLO before MAIL FROM"),
     peerAnswering "250 2.1.5 Ok" "250 2.1.5 Ok").
Proof.
  apply (proj1 (proj2 (proj2 (proj2 (proj2
           (session_state_machine _ "verify@example.com")))))).
  discriminate.
Defined.

(* ===================================================================== *)
(** ** More on the verifier *)
(* ===================================================================== *)

#[local] Hint Extern 6 (preserves _ (updResults _)) =>
  (let m := fresh "m" in let H := fresh "H" in
   intros m H; cbn; discriminate) : frame.

(** X11. No run of [verifyEmail] ever sets the status RISKY, whether it
    returns, throws or stays pending. *)
Theorem verifyEmail_never_RISKY (email : string) (options : Options)
  (m : Machine) :
  status (results (snd (verifyEmail email options m))) <> RISKY.
Proof.
  assert (K : forall dom,
             preserves (observes (fun r _ => status r <> RISKY))
               (lookupAndProbe email dom options)).
  { intros dom.
    unfold lookupAndProbe, smtpConversation, classifyTarget, sendRcptTo.
    frame. }
  unfold verifyEmail, bind at 1. cbn [modify].
  set (m1 := set_results (initialResults email) m).
  destruct (negb (truthy email) || negb (includes "@" email));
    [cbn; discriminate|].
  destruct (splitChar "@"%char email) as [|user [|dom pieces]];
    try (cbn; discriminate).
  destruct (negb (truthy user) || negb (truthy dom)); [cbn; discriminate|].
  assert (H0 : observes (fun r _ => status r <> RISKY)
                 (set_results (set_domain dom (results m1)) m1))
    by (cbn; discriminate).
  specialize (K dom _ H0). unfold bind, updResults, modify, get.
  destruct (lookupAndProbe email dom options _) as [[[]|e|] m2]; exact K.
Qed.

Lemma quit_resolves (m : Machine) : fst (quit m) = Ret tt.
Proof.
  unfold quit, closeSocket, _write, tryCatch, bind, get, modify, emit,
    updClient, socketUsable.
  cbn.
  destruct (c_socket (client m)) eqn:S, (destroyed m) eqn:D; cbn;
    rewrite ?S, ?D; cbn; auto;
    destruct (writeScript m) as [|[e|] w]; cbn; rewrite ?S, ?D; cbn; auto.
Qed.

Lemma hoare_tryFinally_total {A : Type} (P : Machine -> Prop) (body : M A)
  (final : M unit) (Q : Outcome A -> Machine -> Prop) :
  hoare P body Q ->
  (forall m, fst (final m) = Ret tt) ->
  (forall o, preserves (Q o) final) ->
  hoare P (tryFinally body final) Q.
Proof.
  intros Hb Hr Hf m H. unfold tryFinally. specialize (Hb m H).
  destruct (body m) as [[a|e|] m'] eqn:B; cbn in *; auto.
  - pose proof (Hr m') as R. pose proof (Hf (Ret a) m' Hb) as F.
    destruct (final m') as [[[]|e'|] m'']; cbn in *; try discriminate. exact F.
  - pose proof (Hr m') as R. pose proof (Hf (Throw e) m' Hb) as F.
    destruct (final m') as [[[]|e'|] m'']; cbn in *; try discriminate. exact F.
Qed.

Lemma Halfway_Verdicted (email : string)
  (before : list (string * SmtpResponse)) (r : Verdict)
  (t : list (string * SmtpResponse)) :
  Halfway before r t -> Verdicted email before r t.
Proof. intros (T & C & Msg & S). right. repeat split; auto. Qed.

Lemma smtpConversation_verdict (email dom sender : string) (options : Options)
  (before : list (string * SmtpResponse)) :
  hoare (observes (At Fresh before))
    (smtpConversation email dom sender options)
    (fun o =>
       observes (match o with
                 | Ret _ => Probed2 email before
                 | _ => Halfway before
                 end)).
Proof.
  unfold smtpConversation.
  assert (U : forall m, observes (At Fresh before) m ->
                        observes (Halfway before) m).
  { intros m (((S & R) & D) & T). unfold observes, Halfway.
    rewrite D, T. auto. }
  apply hoare_frame_bind; [frame|intros _|auto|auto].
  apply hoare_frame_bind; [frame|intros _|auto|auto].
  apply hoare_frame_bind; [frame|intros _|auto|auto].
  apply hoare_frame_bind; [frame|intros nonceEmail|auto|auto].
  eapply hoare_bind; [apply hoare_sendRcptTo|intros nonceRes|auto|auto].
  apply (hoare_bind _ _ _
           (fun _ => observes (At (AfterProbe nonceRes)
                                 (before ++ [(nonceEmail, nonceRes)])))).
  - intros m (((S & R) & D) & T). unfold observes, At, AfterProbe in *.
    destruct (classification nonceRes) eqn:K; cbn; rewrite ?S, ?R, ?D, T;
      auto.
  - intros _.
    eapply hoare_bind; [apply hoare_sendRcptTo|intros targetRes| |].
    + intros m (((S & R) & D) & T). unfold observes, At in *. cbn.
      rewrite D. cbn.
      destruct (classification nonceRes) eqn:Kn,
               (classification targetRes) eqn:Kt; cbn;
        exists nonceEmail, nonceRes, targetRes;
        rewrite T, <- app_assoc, Kn, Kt; cbn;
        repeat split; rewrite ?D; cbn; auto.
    + intros e m (((S & R) & D) & T). unfold observes, Halfway. rewrite D, T.
      cbn. split; [right; eauto|auto].
    + intros m (((S & R) & D) & T). unfold observes, Halfway. rewrite D, T.
      cbn. split; [right; eauto|auto].
  - intros e m (((S & R) & D) & T). unfold observes, Halfway. rewrite D, T.
    cbn. split; [right; eauto|auto].
  - intros m (((S & R) & D) & T). unfold observes, Halfway. rewrite D, T.
    cbn. split; [right; eauto|auto].
Qed.

Lemma lookupAndProbe_verdict (email dom : string) (options : Options)
  (before : list (string * SmtpResponse)) :
  hoare (observes (At Fresh before)) (lookupAndProbe email dom options)
    (fun o m =>
       match o with
       | Ret _ => observes (Verdicted email before) m
       | _ => True
       end).
Proof.
  unfold lookupAndProbe.
  assert (U : forall m, observes (At Fresh before) m ->
                        observes (Halfway before) m).
  { intros m (((S & R) & D) & T). unfold observes, Halfway.
    rewrite D, T. auto. }
  apply (hoare_tryCatch _ _ _
           (fun o m =>
              match o with
              | Ret _ => observes (Verdicted email before) m
              | Throw _ => observes (Halfway before) m
              | Pending => True
              end)); [|intros e|auto|auto].
  - apply hoare_frame_bind; [frame|intros mxResult|auto|auto].
    destruct (_ || _).
    + intros m (((S & R) & D) & T). unfold observes in *. cbn.
      right. unfold Unprobed. cbn. rewrite D, T. cbn. auto.
    + destruct (records mxResult) as [|mxRecord others];
        [intros m H; cbn; auto|].
      apply (hoare_bind _ _ _ (fun _ => observes (At Fresh before)));
        [intros m H; exact H|intros _|auto|auto].
      apply hoare_frame_bind; [frame|intros _|auto|auto].
      apply hoare_tryFinally_total; [|apply quit_resolves|].
      * eapply hoare_tryCatch; [apply smtpConversation_verdict| | |].
        -- intros e m H. cbn. apply Halfway_Verdicted.
           destruct H as (T & C & Msg & S). repeat split; auto.
        -- intros a m H. left. exact H.
        -- intros m H. exact I.
      * intros [a|e|]; [apply frame_quit|apply frame_quit|intros m H; exact H].
  - intros m H. cbn. apply Halfway_Verdicted.
    destruct H as (T & C & Msg & S). repeat split; auto.
Qed.

(** X12. The verdict of [verifyEmail].  Either the run got both responses
    to RCPT TO, the probe's and then the target's, and then the status and
    the reason are those of the table of the final classification on the
    two classes (a [null] reason for a target class the table has no entry
    for), [smtpCode] and [smtpMessage] are the target's code and message,
    [catchAllActive] tells that the probe was accepted and [greylisted]
    that it was deferred; or the run got at most one response, and then
    [smtpCode] and [smtpMessage] are [null] and the status is UNKNOWN or
    INVALID. *)
Theorem verifyEmail_verdict (email : string) (options : Options)
  (m m' : Machine) (r : Verdict) :
  verifyEmail email options m = (Ret r, m') ->
  Probed2 email (rcptReplies (trace m)) r (rcptReplies (trace m'))
  \/ Unprobed (rcptReplies (trace m)) r (rcptReplies (trace m')).
Proof.
  intros E.
  assert (Gate : Unprobed (rcptReplies (trace m)) (invalidSyntaxVerdict email)
                   (rcptReplies (trace m))).
  { unfold Unprobed. cbn. auto. }
  revert E. unfold verifyEmail, bind at 1. cbn [modify].
  set (m1 := set_results (initialResults email) m).
  destruct (negb (truthy email) || negb (includes "@" email));
    [intros [= <- <-]; right; exact Gate|].
  destruct (splitChar "@"%char email) as [|user [|dom pieces]];
    try (intros [= <- <-]; right; exact Gate).
  destruct (negb (truthy user) || negb (truthy dom));
    [intros [= <- <-]; right; exact Gate|].
  pose proof (lookupAndProbe_verdict email dom options (rcptReplies (trace m))
                (set_results (set_domain dom (results m1)) m1)) as K.
  unfold bind, updResults, modify, get.
  destruct (lookupAndProbe email dom options _) as [[[]|e|] m2];
    try discriminate.
  intros [= <- <-]. apply K. repeat split.
Qed.

Lemma verifyEmail_verdict_witness :
  Probed2 "user@example.com"
    (rcptReplies (trace (peerAnswering "450 4.7.1 Try later" "250 2.1.5 Ok")))
    (results (snd (verifyEmail "user@example.com" defaultOptions
                     (peerAnswering "450 4.7.1 Try later" "250 2.1.5 Ok"))))
    (rcptReplies
       (trace (snd (verifyEmail "user@example.com" defaultOptions
                      (peerAnswering "450 4.7.1 Try later" "250 2.1.5 Ok")))))
  \/ Unprobed
       (rcptReplies (trace (peerAnswering "450 4.7.1 Try later" "250 2.1.5 Ok")))
       (results (snd (verifyEmail "user@example.com" defaultOptions
                        (peerAnswering "450 4.7.1 Try later" "250 2.1.5 Ok"))))
       (rcptReplies
          (trace (snd (verifyEmail "user@example.com" defaultOptions
                         (peerAnswering "450 4.7.1 Try later" "250 2.1.5 Ok"))))).
Proof.
  set (run := verifyEmail "user@example.com" defaultOptions
                (peerAnswering "450 4.7.1 Try later" "250 2.1.5 Ok")).
  assert (E : run = (Ret (results (snd run)), snd run))
    by (vm_compute; reflexivity).
  exact (verifyEmail_verdict _ _ _ _ _ E).
Defined.

(** The greylisting scenario, evaluated: a deferred probe makes the
    verdict UNKNOWN even though the target was accepted. *)
Example verifyEmail_greylisted_probe :
  fst (verifyEmail "user@example.com" defaultOptions
         (peerAnswering "450 4.7.1 Try later" "250 2.1.5 Ok"))
  = Ret (mkVerdict "user@example.com" (Some "example.com")
           (Some "mx.example.com") UNKNOWN
           (Some "Greylisted (Try again later)")
           (mkDetails (Some 250) (Some "Ok") false true)).
Proof. vm_compute. reflexivity. Qed.

Lemma quit_unusable (m : Machine) : socketUsable (snd (quit m)) = false.
Proof.
  unfold quit, closeSocket, _write, tryCatch, bind, get, modify, emit,
    updClient, socketUsable.
  cbn.
  destruct (c_socket (client m)) eqn:S, (destroyed m) eqn:D; cbn;
    rewrite ?S, ?D; cbn; auto;
    destruct (writeScript m) as [|[e|] w]; cbn; rewrite ?S, ?D; cbn;
    rewrite ?andb_false_r; auto.
Qed.

Lemma hoare_tryFinally_establish {A : Type} (P J : Machine -> Prop)
  (body : M A) (final : M unit) :
  (forall m, fst (final m) = Ret tt /\ J (snd (final m))) ->
  hoare P (tryFinally body final)
    (fun o m => match o with Pending => True | _ => J m end).
Proof.
  intros F m _. unfold tryFinally.
  destruct (body m) as [[a|e|] m']; cbn; auto;
    destruct (F m') as (R & H); destruct (final m') as [[[]|e'|] m''];
    cbn in *; try discriminate; exact H.
Qed.

Lemma unusable_resolveMX_loop (remaining : nat) (domain : string)
  (nameServers : list string) (maxAttempts attempt : Z)
  (lastError : option JsError) :
  preserves (fun m => socketUsable m = false)
    (resolveMX_loop remaining domain nameServers maxAttempts attempt lastError).
Proof.
  revert attempt lastError.
  induction remaining as [|n IH]; intros attempt lastError;
    cbn [resolveMX_loop]; unfold queryMX, raceQuery; frame.
Qed.

Lemma unusable_resolveChain (domain : string) (options : ResolveOptions)
  (chain : list (list string)) (lastError : option JsError) :
  preserves (fun m => socketUsable m = false)
    (resolveChain domain options chain lastError).
Proof.
  revert lastError.
  induction chain as [|tier chain IH]; intros lastError;
    cbn [resolveChain]; unfold resolveMX; frame.
  apply unusable_resolveMX_loop.
Qed.

Lemma lookupAndProbe_unusable (email dom : string) (options : Options) :
  hoare (fun m => socketUsable m = false) (lookupAndProbe email dom options)
    (fun o m => match o with
                | Pending => True
                | _ => socketUsable m = false
                end).
Proof.
  unfold lookupAndProbe.
  apply (hoare_tryCatch _ _ _
           (fun o m => match o with
                       | Pending => True
                       | _ => socketUsable m = false
                       end)); [|intros e m H; exact H|auto|auto].
  apply hoare_frame_bind; [|intros mxResult|auto|auto].
  { unfold getMXRecords, resolveMXWithFallback. frame.
    apply unusable_resolveChain. }
  destruct (_ || _); [intros m H; exact H|].
  destruct (records mxResult) as [|mxRecord others]; [intros m H; exact H|].
  apply hoare_frame_bind; [frame|intros _|auto|auto].
  apply hoare_frame_bind; [intros m H; reflexivity|intros _|auto|auto].
  apply hoare_tryFinally_establish.
  intros m. split; [apply quit_resolves|apply quit_unusable].
Qed.

(** X13. [verifyEmail] releases the socket its client holds: when it
    returns, [client.socket] is unset or destroyed, whatever the peer did
    during the conversation, provided it was so before the call.  This is
    about the socket a successful [connectToSmtp] handed to the client,
    which [quit] closes in the [finally] block; a socket that
    [connectToSmtp] opened and did not hand over, as on a connection attempt
    that timed out, is outside the machine and outside this statement. *)
Theorem verifyEmail_releases_client_socket (email : string)
  (options : Options) (m m' : Machine) (r : Verdict) :
  verifyEmail email options m = (Ret r, m') ->
  socketUsable m = false ->
  socketUsable m' = false.
Proof.
  intros E U. revert E. unfold verifyEmail, bind at 1. cbn [modify].
  set (m1 := set_results (initialResults email) m).
  destruct (negb (truthy email) || negb (includes "@" email));
    [intros [= <- <-]; exact U|].
  destruct (splitChar "@"%char email) as [|user [|dom pieces]];
    try (intros [= <- <-]; exact U).
  destruct (negb (truthy user) || negb (truthy dom));
    [intros [= <- <-]; exact U|].
  pose proof (lookupAndProbe_unusable email dom options
                (set_results (set_domain dom (results m1)) m1) U) as K.
  unfold bind, updResults, modify, get.
  destruct (lookupAndProbe email dom options _) as [[[]|e|] m2];
    try discriminate.
  intros [= <- <-]. exact K.
Qed.

Lemma verifyEmail_releases_client_socket_witness :
  socketUsable
    (snd (verifyEmail "user@example.com" defaultOptions
            (peerAnswering "250 2.1.5 Ok" "250 2.1.5 Ok")))
  = false.
Proof.
  set (run := verifyEmail "user@example.com" defaultOptions
                (peerAnswering "250 2.1.5 Ok" "250 2.1.5 Ok")).
  assert (E : run = (Ret (results (snd run)), snd run))
    by (vm_compute; reflexivity).
  exact (verifyEmail_releases_client_socket _ _ _ _ _ E eq_refl).
Defined.

(* ===================================================================== *)
(** ** More on the response parser *)
(* ===================================================================== *)

Lemma append_assoc (a b c : string) : (a ++ b) ++ c = a ++ b ++ c.
Proof. induction a as [|x a IH]; cbn; [reflexivity|now rewrite IH]. Qed.

Lemma isDigit_cases (d : ascii) :
  isDigit d = true ->
  In d ["0"; "1"; "2"; "3"; "4"; "5"; "6"; "7"; "8"; "9"]%char.
Proof.
  destruct d as [[] [] [] [] [] [] [] []]; vm_compute; intros H;
    try discriminate H; repeat (first [left; reflexivity | right]).
Qed.

Ltac split_comparisons :=
  repeat match goal with
         | |- context [?a <=? ?b] =>
             destruct (Z.leb_spec a b); try (exfalso; lia)
         | |- context [?a <? ?b] =>
             destruct (Z.ltb_spec a b); try (exfalso; lia)
         end.

(** The class of a three-digit code is decided by its first digit. *)
Lemma classifyCode_codeOf (d1 d2 d3 : ascii) :
  threeDigits d1 d2 d3 ->
  classifyCode (codeOf d1 d2 d3) = bucketOfDigit d1
  /\ 100 * digitVal d1 <= codeOf d1 d2 d3 < 100 * digitVal d1 + 100.
Proof.
  intros (D1 & D2 & D3).
  pose proof (isDigit_range _ D2) as R2. pose proof (isDigit_range _ D3) as R3.
  split; [|unfold codeOf; lia].
  apply isDigit_cases in D1. unfold codeOf, classifyCode. cbn [In] in D1.
  repeat (destruct D1 as [<-|D1]); try contradiction;
    match goal with
    | |- context [digitVal ?c] =>
        let k := eval vm_compute in (digitVal c) in
        change (digitVal c) with k
    end;
    match goal with
    | |- _ = bucketOfDigit ?c =>
        let b := eval vm_compute in (bucketOfDigit c) in
        change (bucketOfDigit c) with b
    end;
    split_comparisons; reflexivity.
Qed.

(** X14. The class of a parsed response is read off the first character
    of the last non-empty line of the buffer: 2 is SUCCESS, 3 is
    INTERMEDIATE, 4 is TRANSIENT_FAIL, 5 is PERMANENT_FAIL and any other
    digit is PROTOCOL_ERROR; the code lies in the hundred of that digit.
    The line is that of [Lines] and the digit is read by the Standard
    Library. *)
Theorem parseSmtpResponse_class_by_first_digit (rawBuffer : string)
  (r : SmtpResponse) :
  parseSmtpResponse rawBuffer = Some r ->
  exists d rest n,
    LastNonEmptyLine rawBuffer (String d rest)
    /\ decimalValue (String d "") = Some n
    /\ classification r = bucketOfDigit d
    /\ 100 * n <= code r < 100 * n + 100.
Proof.
  intros E.
  destruct (parseSmtpResponse_Some _ _ E)
    as (l & d1 & d2 & d3 & rest & L & -> & D & _ & C & _ & K).
  destruct (classifyCode_codeOf _ _ _ D) as (B & R).
  exists d1, (String d2 (String d3 rest)), (digitVal d1).
  rewrite K, C. split; [apply lastNonEmptyLine_spec, L|].
  split; [apply digit_decimalValue, D|]. split; [exact B|exact R].
Qed.

Lemma parseSmtpResponse_class_by_first_digit_witness :
  exists d rest n,
    LastNonEmptyLine
      ("550 first" ++ CRLF ++ "421 Service not available" ++ CRLF)
      (String d rest)
    /\ decimalValue (String d "") = Some n
    /\ classification
         (mkSmtpResponse 421 None "first Service not available"
            ["550 first"; "421 Service not available"] TRANSIENT_FAIL)
       = bucketOfDigit d
    /\ 100 * n
       <= code (mkSmtpResponse 421 None "first Service not available"
                  ["550 first"; "421 Service not available"] TRANSIENT_FAIL)
       < 100 * n + 100.
Proof.
  exact (parseSmtpResponse_class_by_first_digit
           ("550 first" ++ CRLF ++ "421 Service not available" ++ CRLF)
           (mkSmtpResponse 421 None "first Service not available"
              ["550 first"; "421 Service not available"] TRANSIENT_FAIL)
           eq_refl).
Defined.

Lemma Forall_consHead (P : string -> Prop) (c : ascii) (pieces : list string) :
  (forall l, P l -> P (String c l)) -> P (String c "") ->
  Forall P pieces -> Forall P (consHead c pieces).
Proof.
  intros Step Base F. destruct F as [|l ls Hl Hls]; cbn.
  - constructor; [exact Base|constructor].
  - constructor; [apply Step, Hl|exact Hls].
Qed.

(** No line of a split buffer holds a line feed. *)
Lemma splitLines_no_LF (s : string) :
  Forall (fun l => count LF l = O) (splitLines s).
Proof.
  induction s as [|c s IH]; [repeat constructor|].
  cbn [splitLines]. destruct (Ascii.eqb c LF) eqn:C.
  { constructor; [reflexivity|exact IH]. }
  assert (Step : forall l, count LF l = O -> count LF (String c l) = O)
    by (intros l H; cbn [count]; rewrite C, H; reflexivity).
  destruct s as [|c' s'].
  - apply Forall_consHead; auto.
  - destruct (Ascii.eqb c CR && Ascii.eqb c' LF) eqn:K.
    + apply andb_true_iff in K as (_ & K).
      cbn [splitLines] in IH. rewrite K in IH.
      inversion IH as [|x xs Hx Hxs]; subst.
      constructor; [reflexivity|exact Hxs].
    + apply Forall_consHead; auto.
Qed.

Lemma nonEmptyLines_good (rawBuffer : string) :
  Forall (fun l => l <> "" /\ count LF l = O) (nonEmptyLines rawBuffer).
Proof.
  unfold nonEmptyLines. apply Forall_forall. intros l I.
  apply filter_In in I as (I & T). split; [now apply truthy_true|].
  pose proof (splitLines_no_LF rawBuffer) as F.
  rewrite Forall_forall in F. now apply F.
Qed.

(** X15. The lines of a parsed response: none is empty, none holds a line
    feed, and the last one is three digits followed by the end of the line
    or by a space.  Nothing is required of the lines before the last. *)
Theorem parseSmtpResponse_lines (rawBuffer : string) (r : SmtpResponse) :
  parseSmtpResponse rawBuffer = Some r ->
  Forall (fun l => l <> "" /\ count LF l = O) (lines r)
  /\ exists l, lastOf (lines r) = Some l /\ FinalLine l.
Proof.
  intros E.
  destruct (parseSmtpResponse_Some _ _ E)
    as (l & d1 & d2 & d3 & rest & L & -> & D & R & _ & Ls & _).
  rewrite Ls. split; [apply nonEmptyLines_good|].
  exists (String d1 (String d2 (String d3 rest))). split; [exact L|].
  exists d1, d2, d3, rest. auto.
Qed.

Lemma parseSmtpResponse_lines_witness :
  Forall (fun l => l <> "" /\ count LF l = O)
    (lines (mkSmtpResponse 250 None "a reply line PIPELINING"
              ["not a reply line"; "250 PIPELINING"] SUCCESS))
  /\ exists l,
       lastOf (lines (mkSmtpResponse 250 None "a reply line PIPELINING"
                        ["not a reply line"; "250 PIPELINING"] SUCCESS))
       = Some l
       /\ FinalLine l.
Proof.
  exact (parseSmtpResponse_lines
           ("not a reply line" ++ String LF ("250 PIPELINING" ++ CRLF))
           (mkSmtpResponse 250 None "a reply line PIPELINING"
              ["not a reply line"; "250 PIPELINING"] SUCCESS)
           eq_refl).
Defined.

Lemma nonEmptyLines_reserialize (ls : list string) :
  Forall (fun l => l <> "" /\ count LF l = O) ls ->
  nonEmptyLines (reserialize ls) = ls.
Proof.
  unfold nonEmptyLines.
  induction 1 as [|l ls (T & N) F IH]; [reflexivity|].
  cbn [reserialize]. rewrite (splitLines_line_CRLF_app _ _ N).
  cbn [filter]. apply truthy_true in T. now rewrite T, IH.
Qed.

(** The parser reads the non-empty lines of the buffer and nothing else. *)
Lemma parseSmtpResponse_by_lines (a b : string) :
  nonEmptyLines a = nonEmptyLines b ->
  parseSmtpResponse a = parseSmtpResponse b.
Proof.
  intros E. unfold parseSmtpResponse. cbv zeta.
  destruct (truthy a) eqn:A, (truthy b) eqn:B; cbn [negb].
  - now rewrite E.
  - apply truthy_false in B. subst b. rewrite E. reflexivity.
  - apply truthy_false in A. subst a. rewrite <- E. reflexivity.
  - reflexivity.
Qed.

(** X16. Parsing is stable under writing the lines back: the lines of a
    parsed response, each closed by CR LF, parse to the same response,
    whatever line ends and empty lines the buffer had. *)
Theorem parseSmtpResponse_reserialize (rawBuffer : string) (r : SmtpResponse) :
  parseSmtpResponse rawBuffer = Some r ->
  parseSmtpResponse (reserialize (lines r)) = Some r.
Proof.
  intros E. rewrite <- E. apply parseSmtpResponse_by_lines.
  destruct (parseSmtpResponse_Some _ _ E)
    as (_ & _ & _ & _ & _ & _ & _ & _ & _ & _ & Ls & _).
  rewrite Ls. apply nonEmptyLines_reserialize, nonEmptyLines_good.
Qed.

Lemma parseSmtpResponse_reserialize_witness :
  parseSmtpResponse
    (reserialize
       (lines (mkSmtpResponse 250 None "mx.example.com SIZE 1000"
                 ["250-mx.example.com"; "250 SIZE 1000"] SUCCESS)))
  = Some (mkSmtpResponse 250 None "mx.example.com SIZE 1000"
            ["250-mx.example.com"; "250 SIZE 1000"] SUCCESS).
Proof.
  exact (parseSmtpResponse_reserialize
           (String LF ("250-mx.example.com"
                       ++ String LF (String LF ("250 SIZE 1000" ++ CRLF))))
           (mkSmtpResponse 250 None "mx.example.com SIZE 1000"
              ["250-mx.example.com"; "250 SIZE 1000"] SUCCESS)
           eq_refl).
Defined.

Lemma takeDigits13_Some (s x r : string) :
  takeDigits13 s = Some (x, r) ->
  s = x ++ r
  /\ Digits13 x
  /\ match r with String c _ => isDigit c = false | EmptyString => True end.
Proof.
  unfold takeDigits13, Digits13.
  destruct s as [|a [|b [|c [|d r3]]]]; try discriminate;
    destruct (isDigit a) eqn:A; try discriminate;
    try (destruct (isDigit b) eqn:B); try (destruct (isDigit c) eqn:C);
    try (destruct (isDigit d) eqn:D); try discriminate;
    intros [= <- <-]; cbn; rewrite ?A, ?B, ?C; cbn; repeat split; auto; lia.
Qed.

Lemma takeDigits13_app (x r : string) :
  Digits13 x ->
  match r with String c _ => isDigit c = false | EmptyString => True end ->
  takeDigits13 (x ++ r) = Some (x, r).
Proof.
  unfold Digits13. intros (L & A) R.
  destruct x as [|a [|b [|c [|d x]]]]; cbn in L; try lia;
    cbn in A; repeat rewrite andb_true_iff in A;
    cbn [append takeDigits13];
    repeat match goal with
           | H : _ /\ _ |- _ => destruct H
           | H : isDigit ?c = true |- _ => rewrite H; clear H
           end;
    destruct r as [|w r]; try rewrite R; reflexivity.
Qed.

Lemma expectChar_Some (c : ascii) (s r : string) :
  expectChar c s = Some r <-> s = String c r.
Proof.
  destruct s as [|c' s]; cbn; [split; discriminate|].
  destruct (Ascii.eqb_spec c' c) as [->|N]; split; congruence.
Qed.

(** X17. [extractEnhancedCode] returns [ec] exactly for a line made of
    three digits, a space or a hyphen, then [ec], then a white space
    character, where [ec] is three groups of one to three digits joined by
    dots: a code at the very end of a line is not found. *)
Theorem extractEnhancedCode_spec (line ec : string) :
  extractEnhancedCode line = Some ec <-> EnhancedLine line ec.
Proof.
  unfold EnhancedLine, threeDigits. split.
  - unfold extractEnhancedCode.
    destruct line as [|d1 [|d2 [|d3 [|sep rest]]]]; try discriminate.
    destruct (isDigit d1) eqn:D1, (isDigit d2) eqn:D2, (isDigit d3) eqn:D3;
      cbn [andb]; try discriminate.
    destruct (Ascii.eqb sep SP || Ascii.eqb sep "-"%char) eqn:S;
      [|discriminate].
    destruct (takeDigits13 rest) as [[x r1]|] eqn:X; [|discriminate].
    destruct (expectChar "."%char r1) as [r2|] eqn:P1; [|discriminate].
    destruct (takeDigits13 r2) as [[y r3]|] eqn:Y; [|discriminate].
    destruct (expectChar "."%char r3) as [r4|] eqn:P2; [|discriminate].
    destruct (takeDigits13 r4) as [[z [|w r5]]|] eqn:Z; try discriminate.
    destruct (isSpace w) eqn:W; [|discriminate].
    intros [= <-].
    apply takeDigits13_Some in X as (-> & HX & _).
    apply takeDigits13_Some in Y as (-> & HY & _).
    apply takeDigits13_Some in Z as (-> & HZ & _).
    apply expectChar_Some in P1, P2. subst r1 r3.
    exists d1, d2, d3, sep, x, y, z, w, r5.
    split; [|split; [auto|split; [|split; [reflexivity|]]]];
      [| |exact (conj HX (conj HY (conj HZ W)))].
    + do 4 f_equal. rewrite !append_assoc. cbn [append].
      now rewrite !append_assoc.
    + apply orb_true_iff in S as [S|S]; apply Ascii.eqb_eq in S; auto.
  - intros (d1 & d2 & d3 & sep & x & y & z & w & rest
            & -> & (D1 & D2 & D3) & S & -> & HX & HY & HZ & W).
    unfold extractEnhancedCode. rewrite D1, D2, D3. cbn [andb].
    replace (Ascii.eqb sep SP || Ascii.eqb sep "-"%char) with true
      by (destruct S as [->| ->]; reflexivity).
    replace ((x ++ "." ++ y ++ "." ++ z) ++ String w rest)
      with (x ++ String "."%char (y ++ String "."%char (z ++ String w rest)))
      by (rewrite !append_assoc; cbn [append]; now rewrite ?append_assoc).
    rewrite (takeDigits13_app x _ HX) by reflexivity.
    cbn [expectChar]. rewrite Ascii.eqb_refl.
    rewrite (takeDigits13_app y _ HY) by reflexivity.
    cbn [expectChar]. rewrite Ascii.eqb_refl.
    rewrite (takeDigits13_app z (String w rest) HZ).
    + now rewrite W.
    + destruct (isDigit w) eqn:DW; [|reflexivity].
      exfalso. revert W DW. unfold isSpace, isDigit. cbv zeta.
      rewrite !andb_true_iff, !orb_true_iff, !andb_true_iff, !Nat.leb_le,
        !Nat.eqb_eq. lia.
Qed.

(* ===================================================================== *)
(** ** Trimming *)
(* ===================================================================== *)

Lemma trimStart_clean (s : string) : headClean s = true -> trimStart s = s.
Proof.
  destruct s as [|c s]; [reflexivity|]. cbn.
  now destruct (isSpace c).
Qed.

Lemma headClean_trimStart (s : string) : headClean (trimStart s) = true.
Proof.
  induction s as [|c s IH]; [reflexivity|]. cbn [trimStart].
  destruct (isSpace c) eqn:C; [exact IH|]. cbn. now rewrite C.
Qed.

Lemma trimEnd_clean (s : string) : lastClean s = true -> trimEnd s = s.
Proof.
  induction s as [|c s IH]; [reflexivity|].
  destruct s as [|c' s'].
  - cbn. now destruct (isSpace c).
  - intros L. change (lastClean (String c' s') = true) in L.
    cbn [trimEnd] in *. rewrite (IH L). reflexivity.
Qed.

Lemma lastClean_trimEnd (s : string) : lastClean (trimEnd s) = true.
Proof.
  induction s as [|c s IH]; [reflexivity|]. cbn [trimEnd].
  destruct (trimEnd s) as [|a t].
  - destruct (isSpace c) eqn:C; [reflexivity|]. cbn. now rewrite C.
  - exact IH.
Qed.

Lemma headClean_trimEnd (s : string) :
  headClean s = true -> headClean (trimEnd s) = true.
Proof.
  destruct s as [|c s]; [reflexivity|]. cbn [headClean trimEnd].
  intros C. destruct (trimEnd s); [|exact C].
  apply negb_true_iff in C. rewrite C. cbn. now rewrite C.
Qed.

Lemma trim_clean (s : string) :
  headClean (trim s) = true /\ lastClean (trim s) = true.
Proof.
  unfold trim. split.
  - apply headClean_trimEnd, headClean_trimStart.
  - apply lastClean_trimEnd.
Qed.

Lemma clean_Trimmed (s : string) :
  headClean s = true -> lastClean s = true -> Trimmed s.
Proof.
  intros H L. unfold Trimmed, trim.
  now rewrite (trimStart_clean _ H), (trimEnd_clean _ L).
Qed.

(** Trimming twice is trimming once. *)
Lemma trim_idempotent (s : string) : trim (trim s) = trim s.
Proof. apply clean_Trimmed; apply trim_clean. Qed.

Lemma collapseFrom_lastClean (inRun : bool) (s : string) :
  s <> "" -> lastClean s = true ->
  collapseFrom inRun s <> "" /\ lastClean (collapseFrom inRun s) = true.
Proof.
  revert inRun. induction s as [|c s IH]; intros inRun N L; [congruence|].
  destruct s as [|c' s'].
  - cbn in L. apply negb_true_iff in L. cbn. rewrite L. cbn. rewrite L.
    split; [discriminate|reflexivity].
  - change (lastClean (String c' s') = true) in L.
    assert (N' : String c' s' <> "") by discriminate.
    remember (String c' s') as t eqn:Et. clear Et N.
    cbn [collapseFrom].
    destruct (isSpace c); [destruct inRun|].
    + apply (IH true N' L).
    + destruct (IH true N' L) as (K1 & K2). split; [discriminate|].
      revert K1 K2. destruct (collapseFrom true t);
        intros K1 K2; [congruence|exact K2].
    + destruct (IH false N' L) as (K1 & K2). split; [discriminate|].
      revert K1 K2. destruct (collapseFrom false t);
        intros K1 K2; [congruence|exact K2].
Qed.

Lemma collapseSpaces_clean (s : string) :
  headClean s = true -> lastClean s = true ->
  headClean (collapseSpaces s) = true /\ lastClean (collapseSpaces s) = true.
Proof.
  intros H L. unfold collapseSpaces. destruct s as [|c s]; [auto|].
  split.
  - cbn in H. apply negb_true_iff in H. cbn [collapseFrom]. rewrite H.
    cbn. now rewrite H.
  - apply collapseFrom_lastClean; [discriminate|exact L].
Qed.

Lemma isSpace_WhiteSpaceChar (c : ascii) :
  isSpace c = true <-> WhiteSpaceChar c.
Proof.
  unfold isSpace, WhiteSpaceChar. cbv zeta. cbn [In].
  rewrite !orb_true_iff, andb_true_iff, !Nat.leb_le, !Nat.eqb_eq. lia.
Qed.

Lemma clean_CleanEnds (s : string) :
  headClean s = true -> lastClean s = true -> CleanEnds s.
Proof.
  intros H L. split.
  - intros c rest -> W. apply isSpace_WhiteSpaceChar in W.
    cbn in H. rewrite W in H. discriminate H.
  - intros pre c -> W. apply isSpace_WhiteSpaceChar in W.
    clear H. induction pre as [|a pre IH].
    + cbn in L. rewrite W in L. discriminate L.
    + apply IH. destruct pre; exact L.
Qed.

(** X18. The message of a parsed response neither starts nor ends with
    a white space character (TAB, LF, VT, FF, CR, SP or NBSP), with or
    without an enhanced code removed from it.  White space is said by the
    list of its characters, not through [trim]. *)
Theorem parseSmtpResponse_message_trimmed (rawBuffer : string)
  (r : SmtpResponse) :
  parseSmtpResponse rawBuffer = Some r -> CleanEnds (message r).
Proof.
  unfold parseSmtpResponse. cbv zeta.
  destruct (negb (truthy rawBuffer)); [discriminate|].
  destruct (lastOf (nonEmptyLines rawBuffer)) as [l|]; [|discriminate].
  destruct (lastLineMatch l) as [capture|]; [|discriminate].
  destruct (isIntermediate l); [discriminate|].
  destruct (parseInt10 capture) as [c|]; [|discriminate].
  intros [= <-]. cbn [message].
  destruct (firstEnhancedCode (nonEmptyLines rawBuffer)) as [ec|].
  - apply clean_CleanEnds; apply collapseSpaces_clean; apply trim_clean.
  - apply clean_CleanEnds; apply trim_clean.
Qed.

Lemma parseSmtpResponse_message_trimmed_witness :
  CleanEnds
    (message
       (mkSmtpResponse 550 (Some "5.1.1") "No such user 5.1.1 here"
          ["550-5.1.1 No such user"; "550 5.1.1   here  "] PERMANENT_FAIL)).
Proof.
  exact (parseSmtpResponse_message_trimmed
           ("550-5.1.1 No such user" ++ CRLF ++ "550 5.1.1   here  " ++ CRLF)
           (mkSmtpResponse 550 (Some "5.1.1") "No such user 5.1.1 here"
              ["550-5.1.1 No such user"; "550 5.1.1   here  "] PERMANENT_FAIL)
           eq_refl).
Defined.

(* ===================================================================== *)
(** ** More on the output mapper *)
(* ===================================================================== *)

Lemma STATUS_eqb_eq (a b : STATUS) : STATUS_eqb a b = true <-> a = b.
Proof. destruct a, b; cbn; split; congruence. Qed.

(** X19. The five flags of [formatOutput].  [has_full_inbox] and
    [is_disabled] are never both set; [is_disabled] is set exactly for the
    code 550 with a message in which one of the six alternatives of the
    disabled pattern occurs up to the case of its letters; [is_deliverable]
    is set exactly for a VALID or CATCH_ALL status with neither of the two
    flags; [is_catch_all] is set exactly for a CATCH_ALL status or an
    accepted probe; [can_connect_smtp] is set exactly for a code that is
    present and not zero.  The alternatives are listed as the source lists
    them and "up to case" is said letter by letter, neither through the
    mapper. *)
Theorem formatOutput_flags (v : Verdict) :
  (has_full_inbox (formatOutput v) = true ->
   is_disabled (formatOutput v) = false)
  /\ (is_disabled (formatOutput v) = true <->
      smtpCode (details v) = Some 550
      /\ exists msg, smtpMessage (details v) = Some msg
                     /\ MentionsOneOf disabledWords msg)
  /\ (is_deliverable (formatOutput v) = true <->
      (status v = VALID \/ status v = CATCH_ALL)
      /\ has_full_inbox (formatOutput v) = false
      /\ is_disabled (formatOutput v) = false)
  /\ (is_catch_all (formatOutput v) = true <->
      status v = CATCH_ALL \/ catchAllActive (details v) = true)
  /\ (can_connect_smtp (formatOutput v) = true <->
      exists c, smtpCode (details v) = Some c /\ c <> 0).
Proof.
  unfold formatOutput.
  cbn [has_full_inbox is_disabled is_deliverable is_catch_all
       can_connect_smtp].
  split; [|split; [|split; [|split]]].
  - rewrite andb_true_iff, !orb_true_iff, !codeIs_spec.
    intros (C & _). apply andb_false_iff. left.
    apply not_true_iff_false. rewrite codeIs_spec.
    destruct C as [[C|C]|C]; rewrite C; discriminate.
  - change disabledWords with DISABLED.
    rewrite andb_true_iff, codeIs_spec.
    destruct (smtpMessage (details v)) as [msg|].
    + rewrite test_MentionsOneOf. split.
      * intros (C & T). split; [exact C|eauto].
      * intros (C & msg' & [= <-] & T). auto.
    + split.
      * intros (_ & T). discriminate T.
      * intros (_ & msg & E & _). discriminate E.
  - destruct (Mapper.codeIs (smtpCode (details v)) 550 && _);
      destruct ((_ || _ || _) && _);
      rewrite ?orb_true_iff, ?STATUS_eqb_eq; intuition congruence.
  - now rewrite orb_true_iff, STATUS_eqb_eq.
  - destruct (smtpCode (details v)) as [c|].
    + rewrite negb_true_iff, Z.eqb_neq. split.
      * intros N. exists c. auto.
      * intros (c' & [= <-] & N). exact N.
    + split; [discriminate|]. intros (c & E & _). discriminate E.
Qed.

(** A rejection whose message says "DISABLED" in capitals. *)
Lemma formatOutput_flags_witness :
  is_disabled
    (formatOutput
       (mkVerdict "user@example.com" (Some "example.com")
          (Some "mx.example.com") INVALID (Some "Recipient rejected")
          (mkDetails (Some 550) (Some "Account DISABLED") false false)))
  = true.
Proof.
  apply (proj2 (proj1 (proj2 (formatOutput_flags _)))). split.
  - reflexivity.
  - exists "Account DISABLED". split; [reflexivity|].
    exists "disabled". split; [left; reflexivity|].
    exists "Account ", "DISABLED", "". split; [reflexivity|].
    cbn. unfold SameLetter. cbn.
    repeat split; right; left; lia.
Defined.

(* ===================================================================== *)
(** ** The verdict as the bulk runner reports it *)
(* ===================================================================== *)

(** How [verifyEmail] returns: at the syntax gate, or after the outer
    [try] block has completed. *)
Lemma verifyEmail_Ret (email : string) (options : Options) (m m' : Machine)
  (r : Verdict) :
  verifyEmail email options m = (Ret r, m') ->
  (r = invalidSyntaxVerdict email /\ m' = set_results r m)
  \/ exists dom,
       fst (lookupAndProbe email dom options
              (set_results (set_domain dom (initialResults email)) m))
       = Ret tt
       /\ m' = snd (lookupAndProbe email dom options
                      (set_results (set_domain dom (initialResults email)) m))
       /\ r = results m'.
Proof.
  unfold verifyEmail, bind at 1. cbn [modify].
  set (m1 := set_results (initialResults email) m).
  destruct (negb (truthy email) || negb (includes "@" email));
    [intros [= <- <-]; left; split; reflexivity|].
  destruct (splitChar "@"%char email) as [|user [|dom pieces]];
    try (intros [= <- <-]; left; split; reflexivity).
  destruct (negb (truthy user) || negb (truthy dom));
    [intros [= <- <-]; left; split; reflexivity|].
  unfold bind, updResults, modify, get.
  change (set_results (set_domain dom (results m1)) m1)
    with (set_results (set_domain dom (initialResults email)) m).
  destruct (lookupAndProbe email dom options _) as [[[]|e|] m2] eqn:L;
    try discriminate.
  intros [= <- <-]. right. exists dom. rewrite L. auto.
Qed.

Lemma sendRcptTo_ParsedSince (before : list (string * SmtpResponse))
  (recipientEmail : string) :
  preserves (observes (ParsedSince before)) (sendRcptTo recipientEmail).
Proof.
  unfold sendRcptTo.
  apply preserves_bind; [frame|intros c].
  destruct (_ && _); [frame|].
  apply preserves_bind; [frame|intros _].
  intros m H. unfold _readResponse, emit, updClient.
  unfold bind, get, modify, ret, throw. cbn.
  destruct (socketScript m) as [|[data|err] rest]; cbn; try exact H.
  destruct (parseSmtpResponse data) as [parsed|] eqn:P; cbn; [|exact H].
  unfold observes, ParsedSince in *. cbn.
  destruct H as (new & E & F). rewrite rcptReplies_app, E. cbn.
  exists (new ++ [(recipientEmail, parsed)])%list.
  split; [now rewrite app_assoc|].
  apply Forall_app. split; [exact F|].
  constructor; [exists data; exact P|constructor].
Qed.

Lemma lookupAndProbe_ParsedSince (before : list (string * SmtpResponse))
  (email dom : string) (options : Options) :
  preserves (observes (ParsedSince before)) (lookupAndProbe email dom options).
Proof.
  pose proof (sendRcptTo_ParsedSince before) as R.
  unfold lookupAndProbe, smtpConversation, classifyTarget. frame.
Qed.

(** X20. The composition the bulk runner makes, [formatOutput] on the
    verdict of [verifyEmail].  The two corrections of [is_deliverable] for
    a full or a disabled mailbox never change it: a verdict of
    [verifyEmail] whose code and message set one of the two flags is
    already INVALID or UNKNOWN.  And [can_connect_smtp] is set only when
    both responses to RCPT TO arrived: a session that connected and broke
    off before is reported as not connected. *)
Theorem verifyEmail_formatOutput (email : string) (options : Options)
  (m m' : Machine) (r : Verdict) :
  verifyEmail email options m = (Ret r, m') ->
  is_deliverable (formatOutput r)
  = (STATUS_eqb (status r) VALID || STATUS_eqb (status r) CATCH_ALL)
  /\ (can_connect_smtp (formatOutput r) = true ->
      Probed2 email (rcptReplies (trace m)) r (rcptReplies (trace m'))).
Proof.
  intros E. apply verifyEmail_Ret in E.
  destruct E as [(-> & ->)|(dom & Er & Em & ->)].
  { split; [reflexivity|discriminate]. }
  set (m1 := set_results (set_domain dom (initialResults email)) m) in *.
  pose proof (lookupAndProbe_ParsedSince (rcptReplies (trace m)) email dom
                options m1) as PS.
  pose proof (lookupAndProbe_verdict email dom options (rcptReplies (trace m))
                m1) as K.
  assert (Pre : observes (At Fresh (rcptReplies (trace m))) m1)
    by (repeat split).
  specialize (K Pre).
  assert (Pre2 : observes (ParsedSince (rcptReplies (trace m))) m1).
  { exists []. split; [now rewrite app_nil_r|constructor]. }
  specialize (PS Pre2). clear Pre Pre2.
  rewrite Er, <- Em in K. rewrite <- Em in PS.
  destruct K as [P2|U].
  - split; [|intros _; exact P2].
    destruct P2 as (nonceEmail & nonceRes & targetRes & T & S & _ & D).
    destruct PS as (new & T' & F). rewrite T in T'.
    apply app_inv_head in T'. subst new.
    apply Forall_inv_tail, Forall_inv in F.
    destruct F as (raw & Py). cbn [snd] in Py.
    destruct (parseSmtpResponse_Some _ _ Py)
      as (_ & _ & _ & _ & _ & _ & _ & _ & _ & _ & _ & C).
    unfold observes in S, D. unfold formatOutput. rewrite D.
    cbn [smtpCode smtpMessage Mapper.codeIs is_deliverable].
    assert (Done : forall b1 b2 : bool,
               classification targetRes = TRANSIENT_FAIL
               \/ classification targetRes = PERMANENT_FAIL ->
               (if b1 then false
                else if b2 then false
                     else STATUS_eqb (status (results m')) VALID
                          || STATUS_eqb (status (results m')) CATCH_ALL)
               = (STATUS_eqb (status (results m')) VALID
                  || STATUS_eqb (status (results m')) CATCH_ALL)).
    { intros b1 b2 K. rewrite S.
      destruct K as [-> | ->], (classification nonceRes), b1, b2;
        reflexivity. }
    destruct (Z.eqb_spec (code targetRes) 550) as [E0|N0];
      [apply Done; right; rewrite C, E0; reflexivity|].
    destruct (Z.eqb_spec (code targetRes) 452) as [E1|N1];
      [apply Done; left; rewrite C, E1; reflexivity|].
    destruct (Z.eqb_spec (code targetRes) 552) as [E2|N2];
      [apply Done; right; rewrite C, E2; reflexivity|].
    destruct (Z.eqb_spec (code targetRes) 554) as [E3|N3];
      [apply Done; right; rewrite C, E3; reflexivity|].
    reflexivity.
  - destruct U as (_ & C & Msg & _). unfold observes in C, Msg.
    unfold formatOutput. rewrite C. cbn. split; [reflexivity|discriminate].
Qed.

Lemma verifyEmail_formatOutput_witness :
  is_deliverable
    (formatOutput
       (results (snd (verifyEmail "user@example.com" defaultOptions
                        (peerAnswering "550 5.1.1 No such user"
                           "552 5.2.2 Mailbox full")))))
  = (STATUS_eqb
       (status
          (results (snd (verifyEmail "user@example.com" defaultOptions
                           (peerAnswering "550 5.1.1 No such user"
                              "552 5.2.2 Mailbox full")))))
       VALID
     || STATUS_eqb
          (status
             (results (snd (verifyEmail "user@example.com" defaultOptions
                              (peerAnswering "550 5.1.1 No such user"
                                 "552 5.2.2 Mailbox full")))))
          CATCH_ALL)
  /\ (can_connect_smtp
        (formatOutput
           (results (snd (verifyEmail "user@example.com" defaultOptions
                            (peerAnswering "550 5.1.1 No such user"
                               "552 5.2.2 Mailbox full")))))
      = true ->
      Probed2 "user@example.com"
        (rcptReplies
           (trace (peerAnswering "550 5.1.1 No such user"
                     "552 5.2.2 Mailbox full")))
        (results (snd (verifyEmail "user@example.com" defaultOptions
                         (peerAnswering "550 5.1.1 No such user"
                            "552 5.2.2 Mailbox full"))))
        (rcptReplies
           (trace (snd (verifyEmail "user@example.com" defaultOptions
                          (peerAnswering "550 5.1.1 No such user"
                             "552 5.2.2 Mailbox full")))))).
Proof.
  set (run := verifyEmail "user@example.com" defaultOptions
                (peerAnswering "550 5.1.1 No such user"
                   "552 5.2.2 Mailbox full")).
  assert (E : run = (Ret (results (snd run)), snd run))
    by (vm_compute; reflexivity).
  exact (verifyEmail_formatOutput _ _ _ _ _ E).
Defined.

(* ===================================================================== *)
(** ** src/core/connection.js: the greeting and the SOCKS errors *)
(* ===================================================================== *)

Lemma takeLine_no_terminator (s : string) :
  count LF (takeLine s) = O /\ count CR (takeLine s) = O.
Proof.
  induction s as [|c s (IH1 & IH2)]; [split; reflexivity|].
  cbn [takeLine]. unfold isLineTerminator.
  destruct (Ascii.eqb c LF) eqn:L; [split; reflexivity|].
  destruct (Ascii.eqb c CR) eqn:R; [split; reflexivity|].
  cbn [orb count]. now rewrite L, R, IH1, IH2.
Qed.

(** Which banners [validateSmtpBanner] accepts, and what it reports for
    them. *)
Lemma validateSmtpBanner_facts (banner : string) :
  (valid (validateSmtpBanner banner) = true <-> Greeting220 (trim banner))
  /\ (valid (validateSmtpBanner banner) = true ->
      b_code (validateSmtpBanner banner) = Some "220"
      /\ raw (validateSmtpBanner banner) = trim banner
      /\ b_message (validateSmtpBanner banner) <> ""
      /\ count LF (b_message (validateSmtpBanner banner)) = O
      /\ count CR (b_message (validateSmtpBanner banner)) = O).
Proof.
  unfold validateSmtpBanner, Greeting220. cbv zeta.
  destruct banner as [|b0 banner].
  { cbn. split; [split; [discriminate|]|discriminate].
    intros (sep & rest & E & _). discriminate E. }
  cbn [truthy negb].
  destruct (trim (String b0 banner)) as [|d1 [|d2 [|d3 [|sep rest]]]];
    try (cbn; split; [split; [discriminate|]|discriminate];
         intros (sep' & rest' & E & _); discriminate E).
  destruct (isDigit d1 && isDigit d2 && isDigit d3
            && (isSpace sep || Ascii.eqb sep "-"%char)) eqn:K.
  - destruct (String.eqb_spec (String d1 (String d2 (String d3 "")))
                SMTP_BANNER_CODE) as [E|N]; cbn [negb valid].
    + injection E as -> -> ->. split.
      * split; [intros _|reflexivity]. exists sep, rest.
        split; [reflexivity|].
        apply andb_true_iff in K as (_ & K).
        apply orb_true_iff in K as [K|K]; [auto|].
        apply Ascii.eqb_eq in K. auto.
      * intros _. cbn [b_code raw b_message].
        split; [reflexivity|]. split; [reflexivity|].
        destruct (takeLine_no_terminator rest) as (L & R).
        destruct (takeLine rest) as [|c t] eqn:T; cbn [truthy].
        -- split; [discriminate|split; reflexivity].
        -- split; [discriminate|split; [exact L|exact R]].
    + split; [|discriminate]. split; [discriminate|].
      intros (sep' & rest' & [= -> -> -> _ _] & _). exfalso. now apply N.
  - cbn [valid]. split; [|discriminate]. split; [discriminate|].
    intros (sep' & rest' & [= -> -> -> <- _] & S). exfalso.
    cbn in K. destruct S as [S| ->]; [rewrite S in K|rewrite orb_true_r in K];
      discriminate.
Qed.

(** X21. [validateSmtpBanner] accepts a banner exactly when, trimmed, it
    is the code 220 followed by a white space character or a hyphen: a bare
    "220" is refused, and the first line of a multi-line greeting is
    accepted.  An accepted banner is reported with the code "220", the
    trimmed banner as [raw], and a message that is not empty and holds no
    line terminator. *)
Theorem validateSmtpBanner_valid (banner : string) :
  (valid (validateSmtpBanner banner) = true <-> Greeting220 (trim banner))
  /\ (valid (validateSmtpBanner banner) = true ->
      b_code (validateSmtpBanner banner) = Some "220"
      /\ raw (validateSmtpBanner banner) = trim banner
      /\ b_message (validateSmtpBanner banner) <> ""
      /\ count LF (b_message (validateSmtpBanner banner)) = O
      /\ count CR (b_message (validateSmtpBanner banner)) = O).
Proof. exact (validateSmtpBanner_facts banner). Qed.

(** X22. How the ['data'] listener of [receiveBanner] settles on the first
    chunk: it resolves exactly when the trimmed chunk is the code 220
    followed by a white space character or a hyphen, with the trimmed chunk
    as the banner and "220" as the code, and rejects otherwise; whether the
    greeting is complete is not looked at. *)
Theorem onBannerData_settles (chunk : string) :
  match onBannerData chunk with
  | BannerResolved banner code message =>
      Greeting220 (trim chunk) /\ banner = trim chunk /\ code = "220"
      /\ message <> ""
  | BannerRejected message banner => ~ Greeting220 (trim chunk)
  end.
Proof.
  unfold onBannerData. cbv zeta.
  destruct (validateSmtpBanner_facts (trim chunk)) as (V & Facts).
  rewrite trim_idempotent in V, Facts.
  destruct (valid (validateSmtpBanner (trim chunk))) eqn:E; cbn [negb].
  - destruct (Facts eq_refl) as (C & R & Msg & _).
    rewrite C, R. split; [now apply V|auto].
  - intros G. apply V in G. discriminate G.
Qed.

Lemma hexVal_range (h : ascii) : isHexDigit h = true -> 0 <= hexVal h <= 15.
Proof.
  unfold isHexDigit, hexVal, isDigit. cbv zeta.
  destruct (Nat.leb_spec 48 (nat_of_ascii h)),
    (Nat.leb_spec (nat_of_ascii h) 57),
    (Nat.leb_spec 97 (nat_of_ascii h)),
    (Nat.leb_spec (nat_of_ascii h) 102),
    (Nat.leb_spec 65 (nat_of_ascii h)),
    (Nat.leb_spec (nat_of_ascii h) 70);
    cbn [andb orb]; intros E; try discriminate E;
    destruct (Z.leb_spec 97 (Z.of_nat (nat_of_ascii h))); lia.
Qed.

Lemma matchCodeAt_hex (s : string) (h1 h2 : ascii) :
  matchCodeAt s = Some (h1, h2) ->
  isHexDigit h1 = true /\ isHexDigit h2 = true.
Proof.
  unfold matchCodeAt.
  destruct (matchLiteralAt "code" s); [|discriminate].
  destruct (substringFrom 4 s) as [|w r]; [discriminate|].
  destruct (isSpace w); [|discriminate].
  destruct (trimStart r) as [|z [|x [|a [|b t]]]]; try discriminate.
  destruct (_ && _ && isHexDigit a && isHexDigit b) eqn:K; [|discriminate].
  intros [= <- <-]. rewrite !andb_true_iff in K. tauto.
Qed.

Lemma searchCode_hex (s : string) (h1 h2 : ascii) :
  searchCode s = Some (h1, h2) ->
  isHexDigit h1 = true /\ isHexDigit h2 = true.
Proof.
  induction s as [|c s IH]; cbn [searchCode].
  - destruct (matchCodeAt "") as [[a b]|] eqn:M; [|discriminate].
    intros [= <- <-]. exact (matchCodeAt_hex _ _ _ M).
  - destruct (matchCodeAt (String c s)) as [[a b]|] eqn:M; [|exact IH].
    intros [= <- <-]. exact (matchCodeAt_hex _ _ _ M).
Qed.

(** X23. A SOCKS code that [extractSocksCode] reads from the message of
    an error, its [socksResponseCode] not being a number, is a byte: it
    lies between 0 and 255. *)
Theorem extractSocksCode_byte (err : SocksError) (n : Z) :
  se_socksResponseCode err = None ->
  extractSocksCode err = Some n ->
  0 <= n <= 255.
Proof.
  unfold extractSocksCode. intros ->.
  destruct (se_message err) as [message|]; [|discriminate].
  destruct (searchCode message) as [[h1 h2]|] eqn:S; [|discriminate].
  intros E.
  assert (N : n = 16 * hexVal h1 + hexVal h2) by congruence.
  apply searchCode_hex in S as (H1 & H2).
  apply hexVal_range in H1. apply hexVal_range in H2. lia.
Qed.

Lemma extractSocksCode_byte_witness :
  extractSocksCode
    (mkSocksError (Some "Socks5 proxy rejected connection - Code  0xfF") None)
  = Some 255
  /\ 0 <= 255 <= 255.
Proof.
  split; [reflexivity|].
  exact (extractSocksCode_byte
           (mkSocksError
              (Some "Socks5 proxy rejected connection - Code  0xfF") None)
           255 eq_refl eq_refl).
Defined.

(** X24. How the [catch] of [createProxyConnection] attributes a failure.
    The code it attaches is the one [extractSocksCode] finds.  The type is
    SMTP_CONNECTION_FAILED exactly when the phase is not "proxy".
    PROXY_AUTH_FAILED is given only for the codes 1, 2, 7, 8 and 255, and
    SMTP_CONNECTION_FAILED only for a code outside them, the code 0 of a
    success and every unknown code included. *)
Theorem classifyProxyFailure_attribution (err : SocksError) :
  pf_socksCode (classifyProxyFailure err) = extractSocksCode err
  /\ (pf_type (classifyProxyFailure err) = SMTP_CONNECTION_FAILED <->
      pf_socksErrorPhase (classifyProxyFailure err) <> "proxy")
  /\ (pf_type (classifyProxyFailure err) = PROXY_AUTH_FAILED ->
      exists c, extractSocksCode err = Some c /\ In c proxyPhaseCodes)
  /\ (pf_type (classifyProxyFailure err) = SMTP_CONNECTION_FAILED ->
      exists c, extractSocksCode err = Some c /\ ~ In c proxyPhaseCodes).
Proof.
  unfold classifyProxyFailure, proxyPhaseCodes. cbv zeta.
  destruct (messageIncludes "timeout" err || messageIncludes "timed out" err).
  { cbn. repeat split; try discriminate. intros N. now contradiction N. }
  destruct (extractSocksCode err) as [c|].
  2: { cbn. repeat split; try discriminate. intros N. now contradiction N. }
  unfold classifySocksError.
  repeat match goal with
         | |- context [c =? ?k] => destruct (Z.eqb_spec c k) as [->|?]
         end;
    cbn; (split; [reflexivity|]);
    (split; [split; [intros T; first [discriminate T | discriminate]
                    |intros N;
                     first [reflexivity | exfalso; apply N; reflexivity]]|]);
    (split; [intros T; try discriminate T|intros T; try discriminate T]);
    eexists; (split; [reflexivity|]); cbn; lia.
Qed.

(* ===================================================================== *)
(** ** src/bulk.js: the batches *)
(* ===================================================================== *)

Lemma batchLoop_spec (allEmails : list string) (steps i : nat) :
  (length allEmails - i <= steps)%nat ->
  concat (batchLoop steps i allEmails) = skipn i allEmails
  /\ Forall (fun chunk => (1 <= length chunk <= BATCH_SIZE)%nat)
       (batchLoop steps i allEmails)
  /\ length (batchLoop steps i allEmails)
     = ((length allEmails - i + (BATCH_SIZE - 1)) / BATCH_SIZE)%nat.
Proof.
  unfold BATCH_SIZE.
  revert i. induction steps as [|steps IH]; intros i B; cbn [batchLoop];
    unfold slice, BATCH_SIZE.
  - assert (Z : (length allEmails - i = 0)%nat) by lia. rewrite Z.
    split; [|split; [constructor|reflexivity]].
    symmetry. apply skipn_all2. lia.
  - destruct (Nat.ltb_spec i (length allEmails)) as [L|G].
    + destruct (IH (i + 20)%nat) as (C & F & N); [lia|].
      cbn [concat length]. rewrite C, N.
      split; [|split].
      * rewrite <- (firstn_skipn 20 (skipn i allEmails)) at 2.
        now rewrite skipn_skipn, (Nat.add_comm 20 i).
      * constructor; [|exact F].
        rewrite length_firstn, length_skipn. lia.
      * destruct (Nat.le_gt_cases 20 (length allEmails - i)) as [Big|Small].
        -- replace (length allEmails - i + (20 - 1))%nat
             with (length allEmails - (i + 20) + (20 - 1) + 1 * 20)%nat by lia.
           rewrite Nat.div_add by discriminate. lia.
        -- replace (length allEmails - (i + 20))%nat with 0%nat by lia.
           change ((0 + (20 - 1)) / 20)%nat with 0%nat.
           apply (Nat.div_unique _ 20 1 (length allEmails - i - 1)); lia.
    + assert (Z : (length allEmails - i = 0)%nat) by lia. rewrite Z.
      split; [|split; [constructor|reflexivity]].
      symmetry. apply skipn_all2. lia.
Qed.

(** X25. The chunks [main] hands to [processBatch], one after the other:
    put end to end they are the list of emails, in order and without loss
    or repetition; each holds at least one and at most [BATCH_SIZE] emails;
    and there are as many as the length divided by [BATCH_SIZE], rounded
    up. *)
Theorem batches_partition (allEmails : list string) :
  concat (batches allEmails) = allEmails
  /\ Forall (fun chunk => (1 <= length chunk <= BATCH_SIZE)%nat)
       (batches allEmails)
  /\ length (batches allEmails)
     = ((length allEmails + (BATCH_SIZE - 1)) / BATCH_SIZE)%nat.
Proof.
  unfold batches.
  destruct (batchLoop_spec allEmails (length allEmails) 0) as (C & F & N);
    [lia|].
  rewrite Nat.sub_0_r in N. rewrite skipn_O in C. auto.
Qed.

(* ===================================================================== *)
(** ** The commands a verification writes *)
(* ===================================================================== *)

Lemma written_app (t u : list Event) :
  written (t ++ u) = (written t ++ written u)%list.
Proof.
  induction t as [|e t IH]; [reflexivity|].
  destruct e; cbn; rewrite ?IH; reflexivity.
Qed.

Lemma hoare_tryFinally_any {A : Type} (P J J' : Machine -> Prop)
  (body : M A) (final : M unit) :
  hoare P body (fun _ => J) ->
  hoare J final (fun _ => J') ->
  (forall m, J m -> J' m) ->
  hoare P (tryFinally body final) (fun _ => J').
Proof.
  intros Hb Hf W m H. unfold tryFinally. specialize (Hb m H).
  destruct (body m) as [[a|e|] m']; cbn in *; auto;
    specialize (Hf m' Hb); destruct (final m') as [[[]|e'|] m'']; exact Hf.
Qed.

Section Commands.
Variable h : string.

Lemma Wrote_emit (w : list string) (e : Event) :
  written [e] = [] -> preserves (Wrote h w) (emit e).
Proof.
  intros E m (Hw & Hh). split; [|exact Hh]. cbn.
  now rewrite written_app, E, app_nil_r.
Qed.

Hint Extern 2 (preserves (Wrote _ _) (emit _)) =>
  (apply Wrote_emit; reflexivity) : frame.

Lemma Wrote_resolveMX_loop (w : list string) (remaining : nat)
  (domain : string) (nameServers : list string) (maxAttempts attempt : Z)
  (lastError : option JsError) :
  preserves (Wrote h w)
    (resolveMX_loop remaining domain nameServers maxAttempts attempt lastError).
Proof.
  revert attempt lastError.
  induction remaining as [|n IH]; intros attempt lastError;
    cbn [resolveMX_loop]; unfold queryMX, raceQuery; frame.
Qed.

Lemma Wrote_resolveChain (w : list string) (domain : string)
  (options : ResolveOptions) (chain : list (list string))
  (lastError : option JsError) :
  preserves (Wrote h w) (resolveChain domain options chain lastError).
Proof.
  revert lastError.
  induction chain as [|tier chain IH]; intros lastError;
    cbn [resolveChain]; unfold resolveMX; frame.
  apply Wrote_resolveMX_loop.
Qed.

Lemma Wrote_getMXRecords (w : list string) (domain : string)
  (options : ResolveOptions) :
  preserves (Wrote h w) (getMXRecords domain options).
Proof.
  unfold getMXRecords, resolveMXWithFallback. frame.
  apply Wrote_resolveChain.
Qed.

Lemma Wrote__readResponse (w : list string) :
  preserves (Wrote h w) _readResponse.
Proof. unfold _readResponse. frame. Qed.

(** A successful write appends the command; a failed one appends
    nothing. *)
Lemma Wrote__write (w : list string) (command : string) :
  hoare (Wrote h w) (_write command)
    (fun o => Wrote h (match o with
                       | Ret _ => w ++ [command]
                       | _ => w
                       end)%list).
Proof.
  intros m (Hw & Hh). unfold _write, bind, get, throw, modify, emit.
  destruct (socketUsable m); cbn; [|split; auto].
  destruct (writeScript m) as [|[e|] rest]; cbn; split; auto;
    unfold set_trace, set_writeScript; cbn [trace];
    now rewrite written_app, Hw.
Qed.

(** A command and what follows it, when what follows writes nothing. *)
Lemma Wrote_command {A : Type} (w : list string) (command : string)
  (rest : M A) :
  preserves (Wrote h (w ++ [command])) rest ->
  hoare (Wrote h w) (_write command ;; rest)
    (fun o m =>
       match o with
       | Ret _ => Wrote h (w ++ [command]) m
       | _ => Wrote h w m \/ Wrote h (w ++ [command]) m
       end).
Proof.
  intros R.
  eapply hoare_bind; [apply Wrote__write|intros u| |].
  - intros m H. specialize (R m H).
    destruct (fst (rest m)); auto.
  - intros e m H. left. exact H.
  - intros m H. left. exact H.
Qed.

Lemma Wrote_sendHello (w : list string) (hostname : string) :
  hoare (Wrote h w) (sendHello hostname)
    (fun o m =>
       match o with
       | Ret _ => exists fallback,
                    Wrote h (w ++ helloCommands hostname fallback) m
       | _ => exists k, Wrote h (w ++ firstn k (helloCommands hostname true)) m
       end).
Proof.
  assert (Zero : forall m, Wrote h w m ->
                   exists k, Wrote h (w ++ firstn k (helloCommands hostname true)) m).
  { intros m H. exists O. now rewrite app_nil_r. }
  assert (One : forall m, Wrote h (w ++ ["EHLO " ++ hostname ++ CRLF]) m ->
                  exists k, Wrote h (w ++ firstn k (helloCommands hostname true)) m).
  { intros m H. exists 1%nat. exact H. }
  assert (Two : forall m,
             Wrote h ((w ++ ["EHLO " ++ hostname ++ CRLF])
                      ++ ["HELO " ++ hostname ++ CRLF]) m ->
             exists k, Wrote h (w ++ firstn k (helloCommands hostname true)) m).
  { intros m H. exists 2%nat. now rewrite <- app_assoc in H. }
  unfold sendHello.
  apply hoare_frame_bind; [frame|intros c|auto|auto].
  destruct (negb _); [intros m H; apply Zero, H|].
  eapply hoare_bind; [apply Wrote__write|intros u|auto|auto].
  apply hoare_frame_bind; [frame|intros _|auto|auto].
  apply hoare_frame_bind; [apply Wrote__readResponse|intros response0|auto|auto].
  destruct (_ && _).
  - eapply hoare_bind;
      [apply Wrote_command, Wrote__readResponse|intros response| |].
    + destruct (negb _); [intros m H; apply Two, H|].
      apply (hoare_conseq _
               (Wrote h ((w ++ ["EHLO " ++ hostname ++ CRLF])
                         ++ ["HELO " ++ hostname ++ CRLF])) _ _
               (fun _ => Wrote h ((w ++ ["EHLO " ++ hostname ++ CRLF])
                                  ++ ["HELO " ++ hostname ++ CRLF])));
        [apply hoare_of_preserves; frame|auto|].
      intros o m H. destruct o; [exists true; now rewrite <- app_assoc in H| |];
        apply Two, H.
    + intros e m [H|H]; [apply One, H|apply Two, H].
    + intros m [H|H]; [apply One, H|apply Two, H].
  - apply (hoare_bind _ _ _ (fun _ => Wrote h (w ++ ["EHLO " ++ hostname ++ CRLF])));
      [intros m H; exact H|intros response|auto|auto].
    destruct (negb _); [intros m H; apply One, H|].
    apply (hoare_conseq _
             (Wrote h (w ++ ["EHLO " ++ hostname ++ CRLF])) _ _
             (fun _ => Wrote h (w ++ ["EHLO " ++ hostname ++ CRLF])));
      [apply hoare_of_preserves; frame|auto|].
    intros o m H. destruct o; [exists false; exact H| |]; apply One, H.
Qed.

Hint Resolve Wrote__readResponse : frame.

Lemma Wrote_sendMailFrom (w : list string) (senderEmail : string) :
  hoare (Wrote h w) (sendMailFrom senderEmail)
    (fun o m =>
       match o with
       | Ret _ => Wrote h (w ++ ["MAIL FROM:<" ++ senderEmail ++ ">" ++ CRLF]) m
       | _ => Wrote h w m
              \/ Wrote h (w ++ ["MAIL FROM:<" ++ senderEmail ++ ">" ++ CRLF]) m
       end).
Proof.
  unfold sendMailFrom.
  apply hoare_frame_bind; [frame|intros c|auto|auto].
  destruct (negb _); [intros m H; left; exact H|].
  apply Wrote_command. frame.
Qed.

Lemma Wrote_sendRcptTo (w : list string) (recipientEmail : string) :
  hoare (Wrote h w) (sendRcptTo recipientEmail)
    (fun o m =>
       match o with
       | Ret _ => Wrote h (w ++ ["RCPT TO:<" ++ recipientEmail ++ ">" ++ CRLF]) m
       | _ => Wrote h w m
              \/ Wrote h (w ++ ["RCPT TO:<" ++ recipientEmail ++ ">" ++ CRLF]) m
       end).
Proof.
  unfold sendRcptTo.
  apply hoare_frame_bind; [frame|intros c|auto|auto].
  destruct (_ && _); [intros m H; left; exact H|].
  apply Wrote_command. frame.
Qed.

(** [quit] writes QUIT or nothing. *)
Lemma Wrote_quit (w : list string) :
  hoare (Wrote h w) quit
    (fun _ m => Wrote h w m \/ Wrote h (w ++ [quitCommand]) m).
Proof.
  intros m (Hw & Hh).
  unfold quit, closeSocket, _write, tryCatch, bind, get, modify, emit,
    updClient, socketUsable, Wrote, quitCommand.
  cbn.
  destruct (c_socket (client m)) eqn:S, (destroyed m) eqn:D; cbn;
    rewrite ?S, ?D; cbn; auto;
    destruct (writeScript m) as [|[e|] ws]; cbn; rewrite ?S, ?D; cbn;
    unfold set_trace, set_writeScript, set_client, set_destroyed; cbn;
    rewrite ?written_app, Hw; cbn; rewrite ?app_nil_r; auto.
Qed.

Lemma Wrote_generateNonceEmail (w : list string) (dom : string) :
  hoare (Wrote h w) (generateNonceEmail dom)
    (fun o m => o = Ret ("verify-" ++ h ++ "@" ++ dom) /\ Wrote h w m).
Proof.
  intros m (Hw & Hh). unfold generateNonceEmail, bind, get, ret. cbn.
  rewrite Hh. repeat split; auto.
Qed.

Lemma hoare_exists {A X : Type} (P : X -> Machine -> Prop) (c : M A)
  (Q : Outcome A -> Machine -> Prop) :
  (forall x, hoare (P x) c Q) -> hoare (fun m => exists x, P x m) c Q.
Proof. intros H m (x & Hm). exact (H x m Hm). Qed.

Lemma hoare_returned {A B : Type} (P : Machine -> Prop) (k : A -> M B)
  (a0 : A) (Q : Outcome B -> Machine -> Prop) :
  hoare P (k a0) Q ->
  forall a, hoare (fun m => Ret a = Ret a0 /\ P m) (k a) Q.
Proof. intros H a m (E & Hm). injection E as ->. exact (H m Hm). Qed.

(** The conversation writes its commands in protocol order, and stops
    writing at the first failure. *)
Lemma Wrote_smtpConversation (w : list string)
  (email dom sender : string) (options : Options) :
  hoare (Wrote h w) (smtpConversation email dom sender options)
    (fun _ m =>
       exists fallback k,
         Wrote h (w ++ firstn k (sessionCommands
                                   (orElse (helo options) DEFAULT_HELO) sender
                                   ("verify-" ++ h ++ "@" ++ dom) email
                                   fallback)) m).
Proof.
  set (hello := orElse (helo options) DEFAULT_HELO).
  set (nonce := "verify-" ++ h ++ "@" ++ dom).
  assert (F0 : forall m, Wrote h w m ->
                 exists fallback k,
                   Wrote h (w ++ firstn k (sessionCommands hello sender nonce
                                             email fallback)) m).
  { intros m H. exists true, O. now rewrite app_nil_r. }
  assert (Fh : forall m,
             (exists k, Wrote h (w ++ firstn k (helloCommands hello true)) m) ->
             exists fallback k,
               Wrote h (w ++ firstn k (sessionCommands hello sender nonce
                                         email fallback)) m).
  { intros m ([|[|k]] & H); exists true;
      [exists 0%nat|exists 1%nat|exists 2%nat]; try exact H.
    cbn [firstn helloCommands] in H. rewrite firstn_nil in H. exact H. }
  assert (Fe : forall fallback j m,
             Wrote h ((w ++ helloCommands hello fallback)
                      ++ firstn j (envelopeCommands sender nonce email)) m ->
             exists fallback k,
               Wrote h (w ++ firstn k (sessionCommands hello sender nonce
                                         email fallback)) m).
  { intros fallback j m H. exists fallback.
    exists (length (helloCommands hello fallback) + j)%nat.
    unfold sessionCommands. now rewrite firstn_app_2, app_assoc. }
  unfold smtpConversation. fold hello.
  apply hoare_frame_bind; [unfold connect; frame|intros _|auto|auto].
  eapply hoare_bind; [apply Wrote_sendHello|intros helloRes|auto|auto].
  apply hoare_exists. intros fallback.
  set (w1 := (w ++ helloCommands hello fallback)%list).
  assert (E0 : forall m, Wrote h w1 m ->
                 exists fallback k,
                   Wrote h (w ++ firstn k (sessionCommands hello sender nonce
                                             email fallback)) m).
  { intros m H. apply (Fe fallback 0%nat). cbn [firstn].
    now rewrite app_nil_r. }
  assert (E1 : forall m,
             Wrote h (w1 ++ ["MAIL FROM:<" ++ sender ++ ">" ++ CRLF]) m ->
             exists fallback k,
               Wrote h (w ++ firstn k (sessionCommands hello sender nonce
                                         email fallback)) m).
  { intros m H. apply (Fe fallback 1%nat). exact H. }
  assert (E2 : forall m,
             Wrote h ((w1 ++ ["MAIL FROM:<" ++ sender ++ ">" ++ CRLF])
                      ++ ["RCPT TO:<" ++ nonce ++ ">" ++ CRLF]) m ->
             exists fallback k,
               Wrote h (w ++ firstn k (sessionCommands hello sender nonce
                                         email fallback)) m).
  { intros m H. apply (Fe fallback 2%nat). cbn [firstn envelopeCommands].
    now rewrite <- app_assoc in H. }
  assert (E3 : forall m,
             Wrote h (((w1 ++ ["MAIL FROM:<" ++ sender ++ ">" ++ CRLF])
                       ++ ["RCPT TO:<" ++ nonce ++ ">" ++ CRLF])
                      ++ ["RCPT TO:<" ++ email ++ ">" ++ CRLF]) m ->
             exists fallback k,
               Wrote h (w ++ firstn k (sessionCommands hello sender nonce
                                         email fallback)) m).
  { intros m H. apply (Fe fallback 3%nat). cbn [firstn envelopeCommands].
    now rewrite <- !app_assoc in H. }
  eapply hoare_bind; [apply Wrote_sendMailFrom|intros mailRes| |];
    [|intros e m [H|H]; auto|intros m [H|H]; auto].
  eapply hoare_bind; [apply Wrote_generateNonceEmail| | |];
    [|intros e m (E & _); discriminate E|intros m (E & _); discriminate E].
  apply hoare_returned.
  eapply hoare_bind; [apply Wrote_sendRcptTo|intros nonceRes| |];
    [|intros e m [H|H]; auto|intros m [H|H]; auto].
  apply hoare_frame_bind; [frame|intros _|auto|auto].
  eapply hoare_bind; [apply Wrote_sendRcptTo|intros targetRes| |];
    [|intros e m [H|H]; auto|intros m [H|H]; auto].
  eapply hoare_conseq;
    [apply (hoare_of_preserves
              (Wrote h (((w1 ++ ["MAIL FROM:<" ++ sender ++ ">" ++ CRLF])
                         ++ ["RCPT TO:<" ++ nonce ++ ">" ++ CRLF])
                        ++ ["RCPT TO:<" ++ email ++ ">" ++ CRLF])));
     unfold classifyTarget; frame
    |auto|intros o m H; apply E3, H].
Qed.

Lemma Wrote_lookupAndProbe (w : list string) (email dom : string)
  (options : Options) :
  hoare (Wrote h w) (lookupAndProbe email dom options)
    (fun _ m =>
       exists cmds,
         Wrote h (w ++ cmds) m
         /\ InProtocolOrder (orElse (helo options) DEFAULT_HELO)
              (orElse (senderEmail options) ("verify@" ++ dom))
              ("verify-" ++ h ++ "@" ++ dom) email cmds).
Proof.
  set (hello := orElse (helo options) DEFAULT_HELO).
  set (sender := orElse (senderEmail options) ("verify@" ++ dom)).
  set (nonce := "verify-" ++ h ++ "@" ++ dom).
  assert (None0 : forall m, Wrote h w m ->
                    exists cmds,
                      Wrote h (w ++ cmds) m
                      /\ InProtocolOrder hello sender nonce email cmds).
  { intros m H. exists []. rewrite app_nil_r. split; [exact H|].
    exists false, O, false. reflexivity. }
  unfold lookupAndProbe. fold sender.
  apply (hoare_tryCatch _ _ _
           (fun _ m =>
              exists cmds,
                Wrote h (w ++ cmds) m
                /\ InProtocolOrder hello sender nonce email cmds));
    [|intros e m H; exact H|auto|auto].
  apply hoare_frame_bind;
    [apply Wrote_getMXRecords|intros mxResult|auto|auto].
  destruct (_ || _); [intros m H; apply None0, H|].
  destruct (records mxResult) as [|mxRecord others];
    [intros m H; apply None0, H|].
  apply hoare_frame_bind; [frame|intros _|auto|auto].
  apply hoare_frame_bind; [frame|intros _|auto|auto].
  apply (hoare_tryFinally_any _
           (fun m =>
              exists fallback k,
                Wrote h (w ++ firstn k (sessionCommands hello sender nonce
                                          email fallback)) m)).
  - apply (hoare_tryCatch _ _ _
             (fun _ m =>
                exists fallback k,
                  Wrote h (w ++ firstn k (sessionCommands hello sender nonce
                                            email fallback)) m));
      [apply Wrote_smtpConversation|intros e m H; exact H|auto|auto].
  - apply hoare_exists. intros fallback. apply hoare_exists. intros k.
    eapply hoare_conseq; [apply Wrote_quit|intros m H; exact H|].
    intros o m [H|H].
    + exists (firstn k (sessionCommands hello sender nonce email fallback)).
      split; [exact H|]. exists fallback, k, false. now rewrite app_nil_r.
    + exists (firstn k (sessionCommands hello sender nonce email fallback)
              ++ [quitCommand])%list.
      split; [now rewrite app_assoc|]. exists fallback, k, true. reflexivity.
  - intros m (fallback & k & H).
    exists (firstn k (sessionCommands hello sender nonce email fallback)).
    split; [exact H|]. exists fallback, k, false. now rewrite app_nil_r.
Qed.

End Commands.

(** How [verifyEmail] returns, with what the gate established. *)
Lemma verifyEmail_Ret_gate (email : string) (options : Options)
  (m m' : Machine) (r : Verdict) :
  verifyEmail email options m = (Ret r, m') ->
  (r = invalidSyntaxVerdict email /\ m' = set_results r m)
  \/ exists user dom,
       PassesGate email user dom
       /\ m' = snd (lookupAndProbe email dom options
                      (set_results (set_domain dom (initialResults email)) m)).
Proof.
  unfold verifyEmail, bind at 1. cbn [modify].
  set (m1 := set_results (initialResults email) m).
  destruct (negb (truthy email) || negb (includes "@" email)) eqn:G1;
    [intros [= <- <-]; left; split; reflexivity|].
  destruct (splitChar "@"%char email) as [|user [|dom pieces]] eqn:S;
    try (intros [= <- <-]; left; split; reflexivity).
  destruct (negb (truthy user) || negb (truthy dom)) eqn:G2;
    [intros [= <- <-]; left; split; reflexivity|].
  unfold bind, updResults, modify, get.
  change (set_results (set_domain dom (results m1)) m1)
    with (set_results (set_domain dom (initialResults email)) m).
  destruct (lookupAndProbe email dom options _) as [[[]|e|] m2] eqn:L;
    try discriminate.
  intros [= <- <-]. right. exists user, dom.
  split; [|now rewrite L].
  apply orb_false_iff in G1 as (T & I), G2 as (U & D).
  apply negb_false_iff in T, I, U, D.
  apply gate_spec. repeat split; auto. exists pieces. exact S.
Qed.

Lemma NoLineBreak_app (a b : string) :
  NoLineBreak (a ++ b) <-> NoLineBreak a /\ NoLineBreak b.
Proof. unfold NoLineBreak. rewrite !count_app. lia. Qed.

Lemma OneLine_closed (body : string) :
  NoLineBreak body -> OneLine (body ++ CRLF).
Proof. intros H. exists body. split; [reflexivity|exact H]. Qed.

Lemma Forall_firstn {A : Type} (P : A -> Prop) (k : nat) (l : list A) :
  Forall P l -> Forall P (firstn k l).
Proof.
  revert l. induction k as [|k IH]; intros l F; [constructor|].
  destruct F as [|x l Hx Hl]; constructor; auto.
Qed.

(** With texts free of CR and LF, every payload of a conversation is one
    line. *)
Lemma sessionCommands_OneLine (hello sender nonce email : string)
  (fallback : bool) :
  NoLineBreak hello -> NoLineBreak sender -> NoLineBreak nonce ->
  NoLineBreak email ->
  Forall OneLine (sessionCommands hello sender nonce email fallback).
Proof.
  intros Hh Hs Hn He.
  assert (Lit : forall a b x,
             NoLineBreak a -> NoLineBreak b -> NoLineBreak x ->
             OneLine (a ++ x ++ b ++ CRLF)).
  { intros a b x Ha Hb Hx.
    replace (a ++ x ++ b ++ CRLF) with ((a ++ x ++ b) ++ CRLF)
      by (now rewrite !append_assoc).
    apply OneLine_closed. rewrite !NoLineBreak_app. auto. }
  assert (E : forall x, NoLineBreak x -> OneLine ("EHLO " ++ x ++ CRLF)).
  { intros x Hx. apply (Lit "EHLO " "" x); auto; split; reflexivity. }
  assert (H : forall x, NoLineBreak x -> OneLine ("HELO " ++ x ++ CRLF)).
  { intros x Hx. apply (Lit "HELO " "" x); auto; split; reflexivity. }
  unfold sessionCommands, helloCommands, envelopeCommands.
  destruct fallback; cbn [app]; repeat constructor; auto;
    apply Lit; auto; split; reflexivity.
Qed.

(** X26. The payloads a verification hands to [socket.write].  Whenever
    [verifyEmail] returns, the payloads written since it was called are
    none, or those of a conversation in protocol order cut short at some
    point: EHLO, then HELO when the fallback was taken, then MAIL FROM with
    the sender, RCPT TO with the probe address built from the domain of the
    address, RCPT TO with the address; and after them QUIT or nothing.  The
    texts are embedded in the payloads as they are: when the address, the
    greeting name, the sender and the random string hold neither CR nor
    LF, every payload is one line, and otherwise a payload may hold several
    lines, as the example after the theorem shows. *)
Theorem verifyEmail_protocol_order (email : string) (options : Options)
  (m m' : Machine) (r : Verdict) :
  verifyEmail email options m = (Ret r, m') ->
  exists cmds,
    written (trace m') = (written (trace m) ++ cmds)%list
    /\ (cmds = []
        \/ exists user dom,
             PassesGate email user dom
             /\ InProtocolOrder (orElse (helo options) DEFAULT_HELO)
                  (orElse (senderEmail options) ("verify@" ++ dom))
                  ("verify-" ++ randomHex m ++ "@" ++ dom) email cmds)
    /\ (NoLineBreak email ->
        NoLineBreak (orElse (helo options) DEFAULT_HELO) ->
        (forall s, senderEmail options = Some s -> NoLineBreak s) ->
        NoLineBreak (randomHex m) ->
        Forall OneLine cmds).
Proof.
  intros E. apply verifyEmail_Ret_gate in E.
  destruct E as [(_ & ->)|(user & dom & G & ->)].
  - exists []. rewrite app_nil_r.
    split; [reflexivity|]. split; [left; reflexivity|]. constructor.
  - destruct (Wrote_lookupAndProbe (randomHex m) (written (trace m)) email dom
                options
                (set_results (set_domain dom (initialResults email)) m))
      as (cmds & (W & _) & P); [split; reflexivity|].
    exists cmds. split; [exact W|]. split; [right; exists user, dom; auto|].
    intros He Hh Hs Hr.
    assert (Hd : NoLineBreak dom).
    { destruct G as (_ & _ & _ & _ & [Em|(tail & Em)]); rewrite Em in He;
        rewrite !NoLineBreak_app in He; tauto. }
    assert (Hsender : NoLineBreak
                        (orElse (senderEmail options) ("verify@" ++ dom))).
    { unfold orElse. destruct (senderEmail options) as [x|] eqn:Sx.
      - destruct (truthy x); [now apply Hs|].
        apply NoLineBreak_app. split; [split; reflexivity|exact Hd].
      - apply NoLineBreak_app. split; [split; reflexivity|exact Hd]. }
    assert (Hn : NoLineBreak ("verify-" ++ randomHex m ++ "@" ++ dom)).
    { rewrite !NoLineBreak_app. repeat split; auto; apply Hr || apply Hd. }
    destruct P as (fallback & k & closing & ->).
    apply Forall_app. split.
    + apply Forall_firstn, sessionCommands_OneLine; auto.
    + destruct closing; repeat constructor.
      apply (OneLine_closed "QUIT"). split; reflexivity.
Qed.

Lemma verifyEmail_protocol_order_witness :
  exists cmds,
    written
      (trace (snd (verifyEmail "user@example.com" defaultOptions
                     (peerAnswering "550 5.1.1 No such user" "250 2.1.5 Ok"))))
    = (written
         (trace (peerAnswering "550 5.1.1 No such user" "250 2.1.5 Ok"))
       ++ cmds)%list
    /\ (cmds = []
        \/ exists user dom,
             PassesGate "user@example.com" user dom
             /\ InProtocolOrder (orElse (helo defaultOptions) DEFAULT_HELO)
                  (orElse (senderEmail defaultOptions) ("verify@" ++ dom))
                  ("verify-"
                   ++ randomHex (peerAnswering "550 5.1.1 No such user"
                                   "250 2.1.5 Ok")
                   ++ "@" ++ dom)
                  "user@example.com" cmds)
    /\ (NoLineBreak "user@example.com" ->
        NoLineBreak (orElse (helo defaultOptions) DEFAULT_HELO) ->
        (forall s, senderEmail defaultOptions = Some s -> NoLineBreak s) ->
        NoLineBreak
          (randomHex (peerAnswering "550 5.1.1 No such user" "250 2.1.5 Ok")) ->
        Forall OneLine cmds).
Proof.
  set (run := verifyEmail "user@example.com" defaultOptions
                (peerAnswering "550 5.1.1 No such user" "250 2.1.5 Ok")).
  assert (E : run = (Ret (results (snd run)), snd run))
    by (vm_compute; reflexivity).
  exact (verifyEmail_protocol_order _ _ _ _ _ E).
Defined.

(** The conversation of the scenario above, evaluated: all five payloads,
    then QUIT. *)
Example verifyEmail_writes_whole_conversation :
  written
    (trace (snd (verifyEmail "user@example.com" defaultOptions
                   (peerAnswering "550 5.1.1 No such user" "250 2.1.5 Ok"))))
  = ["EHLO verify.example.com" ++ CRLF;
     "MAIL FROM:<verify@example.com>" ++ CRLF;
     "RCPT TO:<verify-0123456789ab@example.com>" ++ CRLF;
     "RCPT TO:<user@example.com>" ++ CRLF;
     "QUIT" ++ CRLF].
Proof. vm_compute. reflexivity. Qed.

(** An address whose local part holds line breaks passes the gate, and
    the payload of the last RCPT TO then holds a line of its own that reads
    DATA: the address is written as it is given. *)
Example verifyEmail_writes_address_as_given :
  written
    (trace (snd (verifyEmail ("a>" ++ CRLF ++ "DATA" ++ CRLF ++ "@example.com")
                   defaultOptions
                   (peerAnswering "550 5.1.1 No such user" "250 2.1.5 Ok"))))
  = ["EHLO verify.example.com" ++ CRLF;
     "MAIL FROM:<verify@example.com>" ++ CRLF;
     "RCPT TO:<verify-0123456789ab@example.com>" ++ CRLF;
     "RCPT TO:<a>" ++ CRLF ++ "DATA" ++ CRLF ++ "@example.com>" ++ CRLF;
     "QUIT" ++ CRLF].
Proof. vm_compute. reflexivity. Qed.
